(** * Shithead: the server's rules engine and room state machine

    A shallow embedding of [server/index.js]: cards and the pile rules
    ([rankValue], [isMagic], [pileEffectiveTopRank], [canPlayOnPile],
    [lastFourNon3Same]), the zone policy ([playerZoneToUse]), turn order
    ([nextPlayerId]), finish resolution ([ensureFinishAndMaybeEnd]) and the
    socket handlers [game:start], [setup:setFaceUp], [play:cards] and
    [play:pickup], followed by the properties of the specification; then
    the rest of the server: the deck ([makeDeck]), what the clients are sent
    ([publicRoomState], [gamePublicState], [emitState]), and the map of rooms
    with [room:create], [room:join] and [disconnect].

    JavaScript objects mutated in place become records passed and returned
    explicitly; [playersState], an object keyed by socket id, is a [gmap], and
    so is the [Map] of rooms; arrays are lists. What a handler takes from
    outside, the results of [nanoid] and [Math.random], is a parameter. *)

From stdpp Require Import gmap strings list fin_maps.
From Stdlib Require Import ZArith.

Local Open Scope Z_scope.

(** ** Cards *)

(** The thirteen strings of [ranks] in [makeDeck]. *)
Inductive Rank : Type :=
  | RA | R2 | R3 | R4 | R5 | R6 | R7 | R8 | R9 | R10 | RJ | RQ | RK.

(** The four strings of [suits] in [makeDeck]. *)
Inductive Suit : Type := Spades | Hearts | Diamonds | Clubs.

#[global] Instance Rank_eq_dec : EqDecision Rank.
Proof. solve_decision. Defined.

#[global] Instance Suit_eq_dec : EqDecision Suit.
Proof. solve_decision. Defined.

(** [Card: { r: string, s: string, id: string }] *)
Record Card : Type := mkCard { r : Rank; s : Suit; id : string }.

#[global] Instance Card_eq_dec : EqDecision Card.
Proof. solve_decision. Defined.

(** [rankValue]: the four court ranks are named, every other rank string
    goes through [Number]. *)
Definition rankValue (x : Rank) : Z :=
  match x with
  | RA => 14
  | RK => 13
  | RQ => 12
  | RJ => 11
  | R2 => 2 | R3 => 3 | R4 => 4 | R5 => 5 | R6 => 6
  | R7 => 7 | R8 => 8 | R9 => 9 | R10 => 10
  end.

Definition isMagic (x : Rank) : bool :=
  bool_decide (x = R2) || bool_decide (x = R3) || bool_decide (x = R10).

(** ** Pile rules *)

(** The loop of [pileEffectiveTopRank]: [scanTop pile n] is the loop entered
    with [i = n - 1]; it reads [pile[i]] and counts down to index 0. *)
Fixpoint scanTop (pile : list Card) (n : nat) : option Rank :=
  match n with
  | O => None
  | S i =>
      match pile !! i with
      | Some c => if bool_decide (r c ≠ R3) then Some (r c) else scanTop pile i
      | None => scanTop pile i
      end
  end.

Definition pileEffectiveTopRank (pile : list Card) : option Rank :=
  scanTop pile (length pile).

Definition canPlayOnPile (cardRank : Rank) (pile : list Card) : bool :=
  if isMagic cardRank then true
  else
    match pileEffectiveTopRank pile with
    | None => true
    | Some top =>
        if bool_decide (cardRank = top) then true
        else if bool_decide (top = R7) then bool_decide (rankValue cardRank < 7)
        else bool_decide (rankValue cardRank >= rankValue top)
    end.

(** The loop of [lastFourNon3Same]: entered with [i = n - 1] and the ranks
    collected so far in [non3] (in the order they were pushed); it stops when
    four ranks are collected or the pile is exhausted. *)
Fixpoint collectNon3 (pile : list Card) (n : nat) (non3 : list Rank) : list Rank :=
  match n with
  | O => non3
  | S i =>
      if bool_decide (length non3 < 4)%nat then
        match pile !! i with
        | Some c =>
            if bool_decide (r c ≠ R3) then collectNon3 pile i (non3 ++ [r c])
            else collectNon3 pile i non3
        | None => collectNon3 pile i non3
        end
      else non3
  end.

Definition lastFourNon3Same (pile : list Card) : bool :=
  let non3 := collectNon3 pile (length pile) [] in
  if bool_decide (length non3 < 4)%nat then false
  else
    match non3 with
    | [] => true
    | r0 :: _ => forallb (fun x => bool_decide (x = r0)) non3
    end.

(** ** The wording of the specification for the pile rules *)

(** The effective top in the specification's words: the rank of the last card
    of the pile whose rank is not 3, if there is one. *)
Definition specEffectiveTop (pile : list Card) : option Rank :=
  last (filter (λ x, x ≠ R3) (r <$> pile)).

(** Four of a kind in the specification's words: the pile has at least four
    cards that are not a 3 and the last four of them have one rank. *)
Definition specFourOfAKind (pile : list Card) : Prop :=
  ∃ (front : list Rank) (x : Rank),
    filter (λ y, y ≠ R3) (r <$> pile) = front ++ [x; x; x; x].

(** ** Rooms, games and players *)

Inductive Stage : Type := StChooseFaceUp | StReady | StPlaying.
Inductive Phase : Type := PhLobby | PhSetup | PhPlaying | PhEnded.

(** The three zone names ["hand"], ["faceUp"], ["faceDown"]. *)
Inductive Zone : Type := ZHand | ZFaceUp | ZFaceDown.

#[global] Instance Stage_eq_dec : EqDecision Stage.
Proof. solve_decision. Defined.
#[global] Instance Phase_eq_dec : EqDecision Phase.
Proof. solve_decision. Defined.
#[global] Instance Zone_eq_dec : EqDecision Zone.
Proof. solve_decision. Defined.

(** An entry of [room.players]. *)
Record Player : Type := mkPlayer { p_id : string; p_name : string }.

Record PlayerState : Type := mkPlayerState {
  ps_id : string;
  ps_name : string;
  hand : list Card;
  faceUp : list Card;
  faceDown : list Card;
  stage : Stage
}.

Record GameState : Type := mkGame {
  deck : list Card;
  pile : list Card;
  burned : list Card;
  currentPlayerId : option string;
  playersState : gmap string PlayerState;
  finished : list string;
  winnerId : option string;
  loserId : option string
}.

Record Room : Type := mkRoom {
  code : string;
  hostSocketId : option string;
  players : list Player;
  phase : Phase;
  game : option GameState
}.

(** Field assignments ([ps.hand = ...], [g.pile = ...], [room.phase = ...]). *)
Definition setHand (h : list Card) (ps : PlayerState) : PlayerState :=
  mkPlayerState (ps_id ps) (ps_name ps) h (faceUp ps) (faceDown ps) (stage ps).
Definition setFaceUp (u : list Card) (ps : PlayerState) : PlayerState :=
  mkPlayerState (ps_id ps) (ps_name ps) (hand ps) u (faceDown ps) (stage ps).
Definition setFaceDown (d : list Card) (ps : PlayerState) : PlayerState :=
  mkPlayerState (ps_id ps) (ps_name ps) (hand ps) (faceUp ps) d (stage ps).
Definition setStage (st : Stage) (ps : PlayerState) : PlayerState :=
  mkPlayerState (ps_id ps) (ps_name ps) (hand ps) (faceUp ps) (faceDown ps) st.

Definition setDeck (d : list Card) (g : GameState) : GameState :=
  mkGame d (pile g) (burned g) (currentPlayerId g) (playersState g)
         (finished g) (winnerId g) (loserId g).
Definition setPile (p : list Card) (g : GameState) : GameState :=
  mkGame (deck g) p (burned g) (currentPlayerId g) (playersState g)
         (finished g) (winnerId g) (loserId g).
Definition setBurned (b : list Card) (g : GameState) : GameState :=
  mkGame (deck g) (pile g) b (currentPlayerId g) (playersState g)
         (finished g) (winnerId g) (loserId g).
Definition setCurrent (c : option string) (g : GameState) : GameState :=
  mkGame (deck g) (pile g) (burned g) c (playersState g)
         (finished g) (winnerId g) (loserId g).
Definition setPlayersState (m : gmap string PlayerState) (g : GameState) : GameState :=
  mkGame (deck g) (pile g) (burned g) (currentPlayerId g) m
         (finished g) (winnerId g) (loserId g).
Definition setFinished (f : list string) (g : GameState) : GameState :=
  mkGame (deck g) (pile g) (burned g) (currentPlayerId g) (playersState g)
         f (winnerId g) (loserId g).
Definition setWinnerLoser (w l : option string) (g : GameState) : GameState :=
  mkGame (deck g) (pile g) (burned g) (currentPlayerId g) (playersState g)
         (finished g) w l.

Definition setPhase (ph : Phase) (room : Room) : Room :=
  mkRoom (code room) (hostSocketId room) (players room) ph (game room).
Definition setGame (g : GameState) (room : Room) : Room :=
  mkRoom (code room) (hostSocketId room) (players room) (phase room) (Some g).

(** [playersState[pid] = ps], for the player state that the handlers hold by
    reference and mutate. *)
Definition putPlayer (pid : string) (ps : PlayerState) (g : GameState) : GameState :=
  setPlayersState (<[pid := ps]> (playersState g)) g.

(** ** Turn and zones *)

(** [playerZoneToUse(room, pid)]; it reads [room.game] only, which every
    caller has checked to be present. *)
Definition playerZoneToUse (g : GameState) (pid : string) : Zone :=
  match playersState g !! pid with
  | None => ZHand
  | Some ps =>
      if bool_decide (0 < length (deck g))%nat then ZHand
      else if bool_decide (0 < length (hand ps))%nat then ZHand
      else if bool_decide (0 < length (faceUp ps))%nat then ZFaceUp
      else ZFaceDown
  end.

Definition isPlayerOut (ps : PlayerState) : bool :=
  bool_decide (length (hand ps) = 0%nat)
  && bool_decide (length (faceUp ps) = 0%nat)
  && bool_decide (length (faceDown ps) = 0%nat).

(** [Array.prototype.indexOf]: the first index holding [x], if any. *)
Fixpoint indexOf (l : list string) (x : string) : option nat :=
  match l with
  | [] => None
  | y :: l' => if bool_decide (y = x) then Some O else S <$> indexOf l' x
  end.

(** [ids.filter((id) => !finished.has(id))] *)
Definition activeIds (ids finishedIds : list string) : list string :=
  filter (λ i, i ∉ finishedIds) ids.

(** The loop of [nextPlayerId]: [steps] rounds of [idx = (idx + 1) % len]. *)
Fixpoint stepIdx (len : nat) (steps : nat) (idx : nat) : nat :=
  match steps with
  | O => idx
  | S k => stepIdx len k ((idx + 1) mod len)%nat
  end.

(** [nextPlayerId(room, fromId, steps)]; [g?.finished ?? []] is the empty
    list when the room has no game. *)
Definition nextPlayerId (room : Room) (fromId : string) (steps : nat) : option string :=
  let ids := p_id <$> players room in
  if bool_decide (length ids = 0%nat) then None
  else
    let fin := match game room with Some g => finished g | None => [] end in
    let active := activeIds ids fin in
    if bool_decide (length active = 0%nat) then None
    else
      let idx := match indexOf active fromId with Some i => i | None => O end in
      active !! stepIdx (length active) steps idx.

(** The first loop of [ensureFinishAndMaybeEnd]: players met in room order,
    each pushed onto [finished] when out and not yet included. *)
Fixpoint recordFinished (m : gmap string PlayerState) (ps : list Player)
    (fin : list string) : list string :=
  match ps with
  | [] => fin
  | p :: rest =>
      match m !! p_id p with
      | None => recordFinished m rest fin
      | Some st =>
          if isPlayerOut st && negb (bool_decide (p_id p ∈ fin))
          then recordFinished m rest (fin ++ [p_id p])
          else recordFinished m rest fin
      end
  end.

(** [finishedSet.has(g.currentPlayerId)]; [null] is in no set of ids. *)
Definition hasCurrent (fin : list string) (cur : option string) : bool :=
  match cur with
  | Some c => bool_decide (c ∈ fin)
  | None => false
  end.

Definition ensureFinishAndMaybeEnd (room : Room) : Room :=
  match game room with
  | None => room
  | Some g =>
      let fin := recordFinished (playersState g) (players room) (finished g) in
      let g1 := setFinished fin g in
      let allIds := p_id <$> players room in
      let active := activeIds allIds fin in
      if bool_decide (length active = 1%nat) && bool_decide (2 ≤ length allIds)%nat then
        let g2 := setWinnerLoser (fin !! 0%nat) (active !! 0%nat) g1 in
        let g3 := if hasCurrent fin (currentPlayerId g2)
                  then setCurrent (loserId g2) g2 else g2 in
        setGame g3 (setPhase PhEnded room)
      else
        match currentPlayerId g1 with
        | Some c =>
            if bool_decide (c ∈ fin)
            then setGame (setCurrent (nextPlayerId (setGame g1 room) c 1) g1) room
            else setGame g1 room
        | None => setGame g1 room
        end
  end.

(** The loop of [drawUpToThree]: [ps.hand.push(room.game.deck.shift())] while
    the hand is short of three and the deck has a card. *)
Fixpoint drawLoop (h d : list Card) : list Card * list Card :=
  match d with
  | [] => (h, [])
  | c :: d' => if bool_decide (length h < 3)%nat then drawLoop (h ++ [c]) d' else (h, d)
  end.

Definition drawUpToThree (g : GameState) (pid : string) : GameState :=
  match playersState g !! pid with
  | None => g
  | Some ps =>
      if bool_decide (length (deck g) ≤ 0)%nat then g
      else
        let '(h, d) := drawLoop (hand ps) (deck g) in
        setDeck d (putPlayer pid (setHand h ps) g)
  end.

(** The loop of [removeCardsByIds]: every card goes, in order, to [removed]
    or to [kept]. *)
Fixpoint splitByIds (arr : list Card) (ids : list string)
    (removed kept : list Card) : list Card * list Card :=
  match arr with
  | [] => (removed, kept)
  | c :: arr' =>
      if bool_decide (id c ∈ ids) then splitByIds arr' ids (removed ++ [c]) kept
      else splitByIds arr' ids removed (kept ++ [c])
  end.

Definition removeCardsByIds (arr : list Card) (ids : list string) : list Card * list Card :=
  splitByIds arr ids [] [].

(** ** Socket handlers *)

(** What a handler passes to its callback [cb]: [{ ok: false, error }] or
    [{ ok: true, forcedPickup?, burned? }] (an absent flag reads as false).
    [Thrown] stands for a handler that raises before it calls [cb]. *)
Inductive Reply : Type :=
  | Failure (error : string)
  | Success (forcedPickup burned : bool)
  | Thrown.

Definition isFailure (rep : Reply) : bool :=
  match rep with Failure _ => true | _ => false end.

(** The payload of [play:cards] after the handler's own coercions:
    [cardIds] is the array sent ([[]] when it is not an array), [source] is
    [None] for anything but the three zone names, and [faceDownIndex] is
    [Number(faceDownIndex)] when that is an integer. The record is a request
    that reaches the handler's checks: a payload that is no object, on which
    the parameter list throws, and a [code] or [faceDownIndex] whose
    conversion raises are not among its values, and nothing below speaks of
    them. *)
Record PlayCards : Type := mkPlayCards {
  cardIds : list string;
  source : option Zone;
  faceDownIndex : option Z
}.

Definition zoneName (z : Zone) : string :=
  match z with
  | ZHand => "hand"
  | ZFaceUp => "faceUp"
  | ZFaceDown => "faceDown"
  end.

(** [zoneArr.find((c) => c.id === id)] *)
Fixpoint findById (zoneArr : list Card) (i : string) : option Card :=
  match zoneArr with
  | [] => None
  | c :: rest => if bool_decide (id c = i) then Some c else findById rest i
  end.

(** [ps.faceDown[idx]] for an integer [idx]; a negative index reads
    [undefined]. *)
Definition faceDownAt (ps : PlayerState) (idx : Z) : option Card :=
  if bool_decide (idx < 0) then None else faceDown ps !! Z.to_nat idx.

(** "Select cards from correct source": either the error passed to [cb], with
    nothing changed, or the player state after the removal together with
    [played]. [zone] is the source, already known to be the required zone. *)
Definition selectCards (ps : PlayerState) (zone : Zone) (req : PlayCards)
    : string + PlayerState * list Card :=
  match zone with
  | ZFaceDown =>
      match faceDownIndex req with
      | None => inl "Pick a face-down card"
      | Some idx =>
          match faceDownAt ps idx with
          | None => inl "No card there"
          | Some c => inr (setFaceDown (delete (Z.to_nat idx) (faceDown ps)) ps, [c])
          end
      end
  | _ =>
      let ids := cardIds req in
      if bool_decide (length ids < 1)%nat then inl "Select a card"
      else
        let zoneArr := if bool_decide (zone = ZHand) then hand ps else faceUp ps in
        if negb (forallb (λ i, bool_decide (i ∈ id <$> zoneArr)) ids)
        then inl "Invalid selection"
        else
          let ranks := (λ i, r <$> findById zoneArr i) <$> ids in
          let firstRank := ranks !! 0%nat in
          if negb (forallb (λ x, bool_decide (Some x = firstRank)) ranks)
          then inl "You can only play multiple cards of the same rank"
          else
            let '(removed, kept) := removeCardsByIds zoneArr ids in
            inr (if bool_decide (zone = ZHand) then setHand kept ps
                 else setFaceUp kept ps, removed)
  end.

(** [played.filter((c) => c.r === "8").length] *)
Definition countEights (played : list Card) : nat :=
  length (filter (λ c, r c = R8) played).

(** The handler from [const playRank = played[0].r] to its end: [room] is
    the room on entry, [g] its game, [ps] the player state after the removal
    and [zone] the source. *)
Definition resolvePlay (room : Room) (g : GameState) (sid : string)
    (ps : PlayerState) (zone : Zone) (played : list Card) : Reply * Room :=
  match played with
  | [] => (Thrown, setGame (putPlayer sid ps g) room)
  | first :: _ =>
      let playRank := r first in
      if negb (canPlayOnPile playRank (pile g)) then
        let ps1 := setHand (hand ps ++ played ++ pile g) ps in
        let g1 := setPile [] (putPlayer sid ps1 g) in
        let g2 := setCurrent (nextPlayerId (setGame g1 room) sid 1) g1 in
        (Success true false, ensureFinishAndMaybeEnd (setGame g2 room))
      else
        let g1 := setPile (pile g ++ played) (putPlayer sid ps g) in
        let num8 := countEights played in
        let isTenBurn := bool_decide (playRank = R10) in
        let isFourBurn := lastFourNon3Same (pile g1) in
        if isTenBurn || isFourBurn then
          let g2 := setPile [] (setBurned (burned g1 ++ pile g1) g1) in
          let g3 := if bool_decide (zone = ZHand) then drawUpToThree g2 sid else g2 in
          (Success false true, ensureFinishAndMaybeEnd (setGame g3 room))
        else
          let g2 := if bool_decide (zone = ZHand) then drawUpToThree g1 sid else g1 in
          let steps := (1 + num8)%nat in
          let g3 := setCurrent (nextPlayerId (setGame g2 room) sid steps) g2 in
          (Success false false, ensureFinishAndMaybeEnd (setGame g3 room))
  end.

(** The [play:cards] handler for the socket [sid] on the room found under the
    payload's code. *)
Definition playCards (room : Room) (sid : string) (req : PlayCards) : Reply * Room :=
  match game room with
  | None => (Failure "Game not started", room)
  | Some g =>
      if bool_decide (phase room ≠ PhPlaying) then (Failure "Not in playing phase", room)
      else if bool_decide (currentPlayerId g ≠ Some sid) then (Failure "Not your turn", room)
      else
        match playersState g !! sid with
        | None => (Failure "You are not in this game", room)
        | Some ps =>
            let mustZone := playerZoneToUse g sid in
            if bool_decide (source req ≠ Some mustZone)
            then (Failure ("You must play from " +:+ zoneName mustZone), room)
            else
              match selectCards ps mustZone req with
              | inl err => (Failure err, room)
              | inr (ps', played) => resolvePlay room g sid ps' mustZone played
              end
        end
  end.

(** The [play:pickup] handler. *)
Definition playPickup (room : Room) (sid : string) : Reply * Room :=
  match game room with
  | None => (Failure "Game not started", room)
  | Some g =>
      if bool_decide (phase room ≠ PhPlaying) then (Failure "Not in playing phase", room)
      else if bool_decide (currentPlayerId g ≠ Some sid) then (Failure "Not your turn", room)
      else
        match playersState g !! sid with
        | None => (Failure "You are not in this game", room)
        | Some ps =>
            let ps1 := setHand (hand ps ++ pile g) ps in
            let g1 := setPile [] (putPlayer sid ps1 g) in
            let g2 := setCurrent (nextPlayerId (setGame g1 room) sid 1) g1 in
            (Success false false, ensureFinishAndMaybeEnd (setGame g2 room))
        end
  end.

(** [Object.values(playersState).every((p) => p.stage === "ready")] *)
Definition allReady (m : gmap string PlayerState) : bool :=
  forallb (λ kv, bool_decide (stage kv.2 = StReady)) (map_to_list m).

(** The [setup:setFaceUp] handler; [chosenCardIds] is the array sent, [[]]
    when it is not an array. *)
Definition setFaceUpHandler (room : Room) (sid : string) (chosenCardIds : list string)
    : Reply * Room :=
  match game room with
  | None => (Failure "Game not started", room)
  | Some g =>
      match playersState g !! sid with
      | None => (Failure "You are not in this game", room)
      | Some you =>
          if bool_decide (stage you ≠ StChooseFaceUp) then (Failure "Already locked in", room)
          else
            let ids := chosenCardIds in
            if bool_decide (length ids ≠ 3%nat) then (Failure "Pick exactly 3 cards", room)
            else if negb (forallb (λ i, bool_decide (i ∈ id <$> hand you)) ids)
            then (Failure "Invalid selection", room)
            else
              let chosen := filter (λ c, id c ∈ ids) (hand you) in
              let remaining := filter (λ c, id c ∉ ids) (hand you) in
              let you1 := setStage StReady (setHand remaining (setFaceUp chosen you)) in
              let g1 := putPlayer sid you1 g in
              if allReady (playersState g1)
              then (Success false false,
                    setGame (setPlayersState (setStage StPlaying <$> playersState g1) g1)
                            (setPhase PhPlaying room))
              else (Success false false, setGame g1 room)
      end
  end.

(** The dealing loop of [game:start]: each player takes three face-down cards
    and then six hand cards off the front of the deck
    ([deck.splice(0, 3)], [deck.splice(0, 6)]). *)
Fixpoint deal (ps : list Player) (d : list Card) (m : gmap string PlayerState)
    : list Card * gmap string PlayerState :=
  match ps with
  | [] => (d, m)
  | p :: rest =>
      let fd := take 3 d in
      let d1 := drop 3 d in
      let h := take 6 d1 in
      let d2 := drop 6 d1 in
      deal rest d2 (<[p_id p := mkPlayerState (p_id p) (p_name p) h [] fd StChooseFaceUp]> m)
  end.

(** The [game:start] handler; [shuffled] is what [makeDeck()] returned. *)
Definition gameStart (room : Room) (sid : string) (shuffled : list Card) : Reply * Room :=
  if bool_decide (hostSocketId room ≠ Some sid) then (Failure "Only host can start", room)
  else if bool_decide (length (players room) < 2)%nat
  then (Failure "Need at least 2 players", room)
  else if bool_decide (phase room ≠ PhLobby) then (Failure "Game already started", room)
  else
    let '(d, m) := deal (players room) shuffled ∅ in
    (Success false false,
     setGame (mkGame d [] [] (p_id <$> players room !! 0%nat) m [] None None)
             (setPhase PhSetup room)).

(** The room [room:create] makes, and the change [room:join] makes to a
    room, both for a name that has passed the handler's check. *)
Definition roomCreate (roomCode sid safeName : string) : Room :=
  mkRoom roomCode (Some sid) [mkPlayer sid safeName] PhLobby None.

Definition roomJoin (room : Room) (sid safeName : string) : Room :=
  if bool_decide (sid ∈ p_id <$> players room) then room
  else mkRoom (code room) (hostSocketId room)
              (players room ++ [mkPlayer sid safeName]) (phase room) (game room).

(** The three messages of a game in progress, each with its payload, and the
    handler the server runs for each on the sender's room. *)
Inductive Message : Type :=
  | SetupSetFaceUp (chosenCardIds : list string)
  | PlayCardsMsg (req : PlayCards)
  | PlayPickup.

Definition handle (room : Room) (sid : string) (msg : Message) : Reply * Room :=
  match msg with
  | SetupSetFaceUp chosenCardIds => setFaceUpHandler room sid chosenCardIds
  | PlayCardsMsg req => playCards room sid req
  | PlayPickup => playPickup room sid
  end.

(** ** Notions used to state the properties *)

Definition zoneCards (z : Zone) (ps : PlayerState) : list Card :=
  match z with
  | ZHand => hand ps
  | ZFaceUp => faceUp ps
  | ZFaceDown => faceDown ps
  end.

(** The checks of [play:cards], in the handler's order, for a request that
    gets past all of them: [g] is the room's game and [ps] the requester's
    state on entry, [z] the required zone, which the request names, [ps1]
    the requester's state once the selection is taken out of that zone, and
    [played] the selection. *)
Record accepts (room : Room) (sid : string) (req : PlayCards)
    (g : GameState) (ps ps1 : PlayerState) (z : Zone) (played : list Card) : Prop :=
  mkAccepts {
    acc_game : game room = Some g;
    acc_phase : phase room = PhPlaying;
    acc_turn : currentPlayerId g = Some sid;
    acc_player : playersState g !! sid = Some ps;
    acc_zone : playerZoneToUse g sid = z;
    acc_source : source req = Some z;
    acc_select : selectCards ps z req = inr (ps1, played)
  }.

(** The ids of the room's players that are not recorded as finished, in join
    order: the [active] array of [nextPlayerId] and
    [ensureFinishAndMaybeEnd]. *)
Definition activeOf (room : Room) (g : GameState) : list string :=
  activeIds (p_id <$> players room) (finished g).

(** One step of the turn order in the specification's words: the player
    after [x] among [active], the first one again after the last. *)
Definition cyclicNext (active : list string) (x : string) : option string :=
  match indexOf active x with
  | Some i => active !! ((i + 1) mod length active)%nat
  | None => None
  end.

(** [k] steps of the turn order from [x]. *)
Fixpoint advance (active : list string) (k : nat) (x : string) : option string :=
  match k with
  | O => Some x
  | S k' => cyclicNext active x ≫= advance active k'
  end.

(** The next active player in seat order after [x], in the specification's
    words: the first id that is not finished, looking from the seat after
    [x] round the table. *)
Definition nextActiveAfter (ids finishedIds : list string) (x : string) : option string :=
  match indexOf ids x with
  | Some i => head (activeIds (drop (S i) ids ++ take (S i) ids) finishedIds)
  | None => None
  end.

(** The turn order in the words of the specification, without the arrays
    and indices of the code. [firstActive seats fin y]: [y] is the first of
    [seats] who is not among the finished players [fin], everybody seated
    before [y] being finished. *)
Definition firstActive (seats fin : list string) (y : string) : Prop :=
  ∃ skipped rest,
    seats = skipped ++ y :: rest ∧ Forall (λ q, q ∈ fin) skipped ∧ y ∉ fin.

(** [nextActive ids fin x y]: [y] is the next active player after [x] in
    join order: going round the table from the seat after [x], past the last
    seat to the first and on to the seat of [x] itself, [y] is the first
    player who is not finished. *)
Definition nextActive (ids fin : list string) (x y : string) : Prop :=
  ∃ before after,
    ids = before ++ x :: after ∧ firstActive (after ++ before ++ [x]) fin y.

(** [stepsOn ids fin k x y]: [k] such steps lead from [x] to [y]. *)
Fixpoint stepsOn (ids fin : list string) (k : nat) (x y : string) : Prop :=
  match k with
  | O => y = x
  | S k' => ∃ z, nextActive ids fin x z ∧ stepsOn ids fin k' z y
  end.

(** Every player of the room other than [sid] who holds no card is already
    recorded in [finished]: what [ensureFinishAndMaybeEnd] establishes at the
    end of every play and pickup. *)
Definition othersRecorded (room : Room) (g : GameState) (sid : string) : bool :=
  forallb (λ p,
      bool_decide (p_id p = sid)
      || match playersState g !! p_id p with
         | Some st => negb (isPlayerOut st) || bool_decide (p_id p ∈ finished g)
         | None => true
         end)
    (players room).

(** No player who has still to choose holds a face-up card: [game:start]
    deals [faceUp: []] and only [setup:setFaceUp] fills it, leaving the stage
    [chooseFaceUp] as it does. *)
Definition setupInv (room : Room) : bool :=
  match game room with
  | None => true
  | Some g =>
      forallb (λ kv, negb (bool_decide (stage kv.2 = StChooseFaceUp))
                     || bool_decide (faceUp kv.2 = []))
        (map_to_list (playersState g))
  end.

(** The same, of one player state and as a proposition. *)
Definition noFaceUpYet (ps : PlayerState) : Prop :=
  stage ps = StChooseFaceUp → faceUp ps = [].

(** How the player states of a game change under a handler: the sender's
    entry is replaced, and everybody's stage may become [playing]. An entry
    that stays in [chooseFaceUp] keeps an empty [faceUp] empty. *)
Definition onlySender (m : gmap string PlayerState) (sid : string)
    (m' : gmap string PlayerState) : Prop :=
  ∀ q ps', m' !! q = Some ps' →
    (q ≠ sid ∧ ∃ ps, m !! q = Some ps ∧ faceUp ps' = faceUp ps
                     ∧ (stage ps' = stage ps ∨ stage ps' = StPlaying))
    ∨ (q = sid ∧ ∃ ps, m !! q = Some ps
                       ∧ (stage ps' ≠ StChooseFaceUp
                          ∨ stage ps' = stage ps ∧ (faceUp ps = [] → faceUp ps' = []))).

(** The server handles the messages of a room one after the other. *)
Fixpoint run (room : Room) (msgs : list (string * Message)) : Room :=
  match msgs with
  | [] => room
  | (sid, msg) :: rest => run (handle room sid msg).2 rest
  end.

(** Every player of the room who holds no card is recorded in
    [finished]. *)
Definition recorded (room : Room) (g : GameState) : Prop :=
  ∀ p st, p ∈ players room → playersState g !! p_id p = Some st →
          isPlayerOut st = true → p_id p ∈ finished g.

(** What holds of a room from [game:start] on. During setup each player is
    choosing or is ready with a face-up card; afterwards every stage is
    [playing] and the players without cards are all recorded. *)
Definition gameInv (room : Room) : Prop :=
  match game room with
  | None => True
  | Some g =>
      if decide (phase room = PhSetup) then
        ∀ q ps, playersState g !! q = Some ps →
                stage ps = StChooseFaceUp ∨ (stage ps = StReady ∧ faceUp ps ≠ [])
      else
        (∀ q ps, playersState g !! q = Some ps → stage ps = StPlaying)
        ∧ recorded room g
  end.

(** Every card of the game: deck, pile, burned pile and the three zones of
    every player state. *)
Definition playerCards (ps : PlayerState) : list Card :=
  hand ps ++ faceUp ps ++ faceDown ps.

Definition playersCards (m : gmap string PlayerState) : list Card :=
  mjoin ((λ kv, playerCards kv.2) <$> map_to_list m).

Definition allCards (g : GameState) : list Card :=
  deck g ++ pile g ++ burned g ++ playersCards (playersState g).

Definition roomCards (room : Room) : list Card :=
  match game room with
  | Some g => allCards g
  | None => []
  end.

Definition isBurned (rep : Reply) : bool :=
  match rep with Success _ b => b | _ => false end.

(** ** Sample games *)

(** The rank and suit letters of [makeDeck]; a sample card gets the id
    prefix [makeDeck] gives it, which already tells the 52 cards apart. *)
Definition rankName (x : Rank) : string :=
  match x with
  | RA => "A" | R2 => "2" | R3 => "3" | R4 => "4" | R5 => "5" | R6 => "6"
  | R7 => "7" | R8 => "8" | R9 => "9" | R10 => "10" | RJ => "J" | RQ => "Q"
  | RK => "K"
  end.

Definition suitName (x : Suit) : string :=
  match x with
  | Spades => "S" | Hearts => "H" | Diamonds => "D" | Clubs => "C"
  end.

Definition card (x : Rank) (y : Suit) : Card :=
  mkCard x y (rankName x +:+ suitName y).

(** A pile showing the given ranks, bottom first. *)
Definition pileOf (ranks : list Rank) : list Card := (λ x, card x Spades) <$> ranks.

Module Sample.

Definition ann : Player := mkPlayer "a" "Ann".
Definition bob : Player := mkPlayer "b" "Bob".
Definition cat : Player := mkPlayer "c" "Cat".

Definition holding (p : Player) (h u d : list Card) : PlayerState :=
  mkPlayerState (p_id p) (p_name p) h u d StPlaying.

Definition gameOf (dk pl : list Card) (cur : string)
    (states : list PlayerState) : GameState :=
  mkGame dk pl [] (Some cur)
    (list_to_map ((λ st, (ps_id st, st)) <$> states)) [] None None.

Definition roomOf (ps : list Player) (g : GameState) : Room :=
  mkRoom "ROOM" (Some "a") ps PhPlaying (Some g).

(** Ann holds the four 9s and the pile shows a king. *)
Definition nines : list Card :=
  [card R9 Spades; card R9 Hearts; card R9 Diamonds; card R9 Clubs].
Definition annNines : PlayerState := holding ann nines [] [].
Definition bobFour : PlayerState := holding bob [card R4 Spades] [] [].
Definition gameNines : GameState :=
  gameOf [] [card RK Spades] "a" [annNines; bobFour].
Definition roomNines : Room := roomOf [ann; bob] gameNines.
Definition playNines : PlayCards := mkPlayCards (id <$> nines) (Some ZHand) None.

(** Ann is down to one face-down card, a 10; the deck is empty. *)
Definition annLastTen : PlayerState := holding ann [] [] [card R10 Clubs].
Definition gameLastTen : GameState :=
  gameOf [] [card R5 Spades] "a" [annLastTen; bobFour].
Definition roomLastTen : Room := roomOf [ann; bob] gameLastTen.
Definition playFaceDown : PlayCards := mkPlayCards [] (Some ZFaceDown) (Some 0).

(** Ann's last card is an 8, on an empty pile. *)
Definition annLastEight : PlayerState := holding ann [card R8 Spades] [] [].
Definition gameLastEight : GameState := gameOf [] [] "a" [annLastEight; bobFour].
Definition roomLastEight : Room := roomOf [ann; bob] gameLastEight.
Definition playEight : PlayCards := mkPlayCards [id (card R8 Spades)] (Some ZHand) None.

(** Three players; Cat, in the last seat, is down to a face-down 10. *)
Definition annKing : PlayerState := holding ann [card RK Spades] [] [].
Definition bobQueen : PlayerState := holding bob [card RQ Spades] [] [].
Definition catLastTen : PlayerState := holding cat [] [] [card R10 Clubs].
Definition gameThree : GameState :=
  gameOf [] [card R5 Spades] "c" [annKing; bobQueen; catLastTen].
Definition roomThree : Room := roomOf [ann; bob; cat] gameThree.

(** Ann holds a 10 among her three hand cards; two cards are left in the
    deck. *)
Definition annTen : PlayerState :=
  holding ann [card R10 Spades; card R5 Hearts; card R6 Hearts] [] [].
Definition gameTen : GameState :=
  gameOf [card R2 Clubs; card R6 Diamonds] [card R5 Spades] "a" [annTen; bobFour].
Definition roomTen : Room := roomOf [ann; bob] gameTen.
Definition playTen : PlayCards := mkPlayCards [id (card R10 Spades)] (Some ZHand) None.

(** Three players; Ann holds an 8 and a 4, the pile is empty. *)
Definition annEight : PlayerState :=
  holding ann [card R8 Spades; card R4 Hearts] [] [].
Definition gameEightOfThree : GameState :=
  gameOf [] [] "a" [annEight; bobQueen; catLastTen].
Definition roomEightOfThree : Room := roomOf [ann; bob; cat] gameEightOfThree.

(** Setup: Bob has locked in, Ann has her six cards still to choose
    from. *)
Definition annSix : list Card :=
  [card RA Spades; card R2 Spades; card R3 Spades;
   card R4 Hearts; card R5 Hearts; card R6 Hearts].
Definition annChoosing : PlayerState :=
  mkPlayerState "a" "Ann" annSix []
    [card R7 Clubs; card R8 Clubs; card R9 Clubs] StChooseFaceUp.
Definition bobReady : PlayerState :=
  mkPlayerState "b" "Bob"
    [card RJ Spades; card RQ Spades; card RK Spades]
    [card RJ Hearts; card RQ Hearts; card RK Hearts]
    [card RJ Clubs; card RQ Clubs; card RK Clubs] StReady.
Definition gameSetup : GameState :=
  mkGame [card R9 Diamonds] [] [] (Some "a")
    (list_to_map [("a", annChoosing); ("b", bobReady)]) [] None None.
Definition roomSetup : Room :=
  mkRoom "ROOM" (Some "a") [ann; bob] PhSetup (Some gameSetup).
Definition annChoice : list string := id <$> take 3 annSix.

(** A lobby of two and a deck of twenty cards to start from. *)
Definition roomLobby : Room := mkRoom "ROOM" (Some "a") [ann; bob] PhLobby None.
Definition twenty : list Card :=
  ((λ x, card x Spades) <$> [RA; R2; R3; R4; R5; R6; R7; R8; R9; R10])
  ++ ((λ x, card x Hearts) <$> [RA; R2; R3; R4; R5; R6; R7; R8; R9; R10]).
Definition someMessages : list (string * Message) :=
  [("a", SetupSetFaceUp (id <$> [card R4 Spades; card R5 Spades; card R6 Spades]));
   ("b", SetupSetFaceUp (id <$> [card R3 Hearts; card R4 Hearts; card R5 Hearts]));
   ("b", PlayPickup);
   ("a", PlayCardsMsg (mkPlayCards [id (card R7 Spades)] (Some ZHand) None));
   ("b", PlayCardsMsg (mkPlayCards [] (Some ZFaceDown) (Some 1)));
   ("b", PlayCardsMsg (mkPlayCards [id (card R6 Hearts)] (Some ZHand) None));
   ("a", PlayPickup)].

End Sample.

(** ** The deck *)

(** The arrays [suits] and [ranks] of [makeDeck], in their order. *)
Definition suits : list Suit := [Spades; Hearts; Diamonds; Clubs].

Definition ranks : list Rank :=
  [RA; R2; R3; R4; R5; R6; R7; R8; R9; R10; RJ; RQ; RK].

Definition suitSymbol (x : Suit) : string :=
  match x with
  | Spades => "♠" | Hearts => "♥" | Diamonds => "♦" | Clubs => "♣"
  end.

(** The nested loops of [makeDeck]: suit by suit, rank by rank, each card
    with the id [`${r}${s}-${nanoid(6)}`]; [nano s x] is what [nanoid(6)]
    returned for that card. *)
Definition freshDeck (nano : Suit → Rank → string) : list Card :=
  y ← suits;
  (λ x, mkCard x y (rankName x +:+ suitSymbol y +:+ "-" +:+ nano y x)) <$> ranks.

(** [[deck[i], deck[j]] = [deck[j], deck[i]]]: the right-hand side is read
    first, then [deck[i]] and [deck[j]] are written in that order. [None]
    when an index lies outside the array, where JavaScript would write
    [undefined] into it. *)
Definition swap (d : list Card) (i j : nat) : option (list Card) :=
  match d !! j, d !! i with
  | Some dj, Some di => Some (<[j := di]> (<[i := dj]> d))
  | _, _ => None
  end.

(** The Fisher-Yates loop of [makeDeck], entered with [i = n] and run down to
    [i = 1]; [rnd i] is the value of [Math.floor(Math.random() * (i + 1))] in
    the round of [i]. *)
Fixpoint shuffleFrom (rnd : nat → nat) (n : nat) (d : list Card) : option (list Card) :=
  match n with
  | O => Some d
  | S k => swap d n (rnd n) ≫= shuffleFrom rnd k
  end.

Definition makeDeck (nano : Suit → Rank → string) (rnd : nat → nat)
    : option (list Card) :=
  let d := freshDeck nano in
  shuffleFrom rnd (length d - 1) d.

(** ** What the clients are sent *)

(** [publicRoomState(room)] *)
Record PublicRoom : Type := mkPublicRoom {
  pr_code : string;
  pr_hostSocketId : option string;
  pr_phase : Phase;
  pr_players : list Player
}.

Definition publicRoomState (room : Room) : PublicRoom :=
  mkPublicRoom (code room) (hostSocketId room) (phase room)
    ((λ p, mkPlayer (p_id p) (p_name p)) <$> players room).

(** An entry of [playersPublic] in [gamePublicState]. *)
Record PlayerPublic : Type := mkPlayerPublic {
  pp_id : string;
  pp_name : string;
  handCount : nat;
  faceDownCount : nat;
  pp_faceUp : list Card
}.

Record GamePublic : Type := mkGamePublic {
  gp_phase : Phase;
  gp_currentPlayerId : option string;
  deckCount : nat;
  gp_pile : list Card;
  pileCount : nat;
  gp_players : list PlayerPublic;
  effectiveTop : option Rank;
  gp_winnerId : option string;
  gp_loserId : option string;
  gp_finished : list string
}.

Definition playerPublic (g : GameState) (p : Player) : PlayerPublic :=
  match playersState g !! p_id p with
  | Some ps =>
      mkPlayerPublic (p_id p) (p_name p) (length (hand ps)) (length (faceDown ps))
        (faceUp ps)
  | None => mkPlayerPublic (p_id p) (p_name p) 0 0 []
  end.

(** [gamePublicState(room)]; [None] is its [null] for a room without a
    game. *)
Definition gamePublicState (room : Room) : option GamePublic :=
  match game room with
  | None => None
  | Some g =>
      Some (mkGamePublic (phase room) (currentPlayerId g) (length (deck g)) (pile g)
              (length (pile g)) (playerPublic g <$> players room)
              (pileEffectiveTopRank (pile g))
              (winnerId g) (loserId g) (finished g))
  end.

(** The payload of the [game:private] event. *)
Record PrivateView : Type := mkPrivateView {
  pv_room : PublicRoom;
  pv_you : PlayerState;
  pv_gamePublic : option GamePublic
}.

(** The last loop of [emitState]: the [game:private] event sent to each
    socket id that is a key of [playersState], filed here under the socket
    id it goes to; a room without a game sends none. *)
Definition privateViews (room : Room) : gmap string PrivateView :=
  match game room with
  | None => ∅
  | Some g =>
      (λ you, mkPrivateView (publicRoomState room) you (gamePublicState room))
        <$> playersState g
  end.

(** ** The rooms of the server *)

(** What [room:create] and [room:join] pass to [cb]. *)
Inductive RoomReply : Type :=
  | RoomFailure (error : string)
  | RoomOk (room : PublicRoom) (yourId : string).

(** The loop [let code = makeRoomCode(); while (rooms.has(code)) code =
    makeRoomCode()] of [room:create] on the successive results [codes] of
    [makeRoomCode()]; [None] when all of them are taken, the loop still
    running. *)
Fixpoint pickCode (rooms : gmap string Room) (codes : list string) : option string :=
  match codes with
  | [] => None
  | c :: rest =>
      if bool_decide (is_Some (rooms !! c)) then pickCode rooms rest else Some c
  end.

(** The [room:create] handler on the map [rooms]; [safeName] is
    [String(name || "").trim().slice(0, 20)]. [None] when the code loop has
    not found a free code among [codes]. *)
Definition roomCreateHandler (rooms : gmap string Room) (sid safeName : string)
    (codes : list string) : option (RoomReply * gmap string Room) :=
  if bool_decide (safeName = "") then Some (RoomFailure "Name required", rooms)
  else
    match pickCode rooms codes with
    | None => None
    | Some c =>
        let room := roomCreate c sid safeName in
        Some (RoomOk (publicRoomState room) sid, <[c := room]> rooms)
    end.

(** The [room:join] handler; [roomCode] is
    [String(code || "").trim().toUpperCase()]. *)
Definition roomJoinHandler (rooms : gmap string Room) (sid roomCode safeName : string)
    : RoomReply * gmap string Room :=
  match rooms !! roomCode with
  | None => (RoomFailure "Room not found", rooms)
  | Some room =>
      if bool_decide (safeName = "") then (RoomFailure "Name required", rooms)
      else
        let room' := roomJoin room sid safeName in
        (RoomOk (publicRoomState room') sid, <[roomCode := room']> rooms)
  end.

(** The [game:start] handler on the map [rooms]. *)
Definition gameStartHandler (rooms : gmap string Room) (sid roomCode : string)
    (shuffled : list Card) : Reply * gmap string Room :=
  match rooms !! roomCode with
  | None => (Failure "Room not found", rooms)
  | Some room =>
      let '(rep, room') := gameStart room sid shuffled in
      (rep, <[roomCode := room']> rooms)
  end.

(** The handlers of [setup:setFaceUp], [play:cards] and [play:pickup] on the
    map [rooms]: [!room?.game] answers for a missing room as for a missing
    game. *)
Definition messageHandler (rooms : gmap string Room) (sid roomCode : string)
    (msg : Message) : Reply * gmap string Room :=
  match rooms !! roomCode with
  | None => (Failure "Game not started", rooms)
  | Some room =>
      let '(rep, room') := handle room sid msg in
      (rep, <[roomCode := room']> rooms)
  end.

(** [room.players[0]?.id || null] *)
Definition firstIdOrNull (ps : list Player) : option string :=
  match ps with
  | p :: _ => if bool_decide (p_id p = "") then None else Some (p_id p)
  | [] => None
  end.

(** The body of the [disconnect] loop for one room; [None] stands for
    [rooms.delete(code)]. *)
Definition disconnectRoom (sid : string) (room : Room) : option Room :=
  let remaining := filter (λ p, p_id p ≠ sid) (players room) in
  if bool_decide (length remaining ≠ length (players room)) then
    let host :=
      if bool_decide (hostSocketId room = Some sid) then firstIdOrNull remaining
      else hostSocketId room in
    let g :=
      match game room with
      | Some g =>
          if bool_decide (is_Some (playersState g !! sid))
          then Some (setPlayersState (delete sid (playersState g)) g)
          else Some g
      | None => None
      end in
    if bool_decide (length remaining = 0%nat) then None
    else Some (mkRoom (code room) host remaining (phase room) g)
  else Some (mkRoom (code room) (hostSocketId room) remaining (phase room) (game room)).

(** The [disconnect] handler: every room of the map in turn. *)
Definition disconnect (rooms : gmap string Room) (sid : string) : gmap string Room :=
  omap (disconnectRoom sid) rooms.

(** What a socket can make the server do, and the map of rooms after it. The
    handlers run one at a time, each to its end; a [room:create] whose code
    loop has found no free code has not yet changed the map. *)
Inductive Event : Type :=
  | EvCreate (safeName : string) (codes : list string)
  | EvJoin (roomCode safeName : string)
  | EvStart (roomCode : string) (shuffled : list Card)
  | EvMessage (roomCode : string) (msg : Message)
  | EvDisconnect.

Definition serverStep (rooms : gmap string Room) (sid : string) (ev : Event)
    : gmap string Room :=
  match ev with
  | EvCreate safeName codes =>
      match roomCreateHandler rooms sid safeName codes with
      | Some (_, rooms') => rooms'
      | None => rooms
      end
  | EvJoin roomCode safeName => (roomJoinHandler rooms sid roomCode safeName).2
  | EvStart roomCode shuffled => (gameStartHandler rooms sid roomCode shuffled).2
  | EvMessage roomCode msg => (messageHandler rooms sid roomCode msg).2
  | EvDisconnect => disconnect rooms sid
  end.

Fixpoint serverRun (rooms : gmap string Room) (evs : list (string * Event))
    : gmap string Room :=
  match evs with
  | [] => rooms
  | (sid, ev) :: rest => serverRun (serverStep rooms sid ev) rest
  end.

(** ** The game a play hands to the finish resolution *)

(** The player state and the deck after the draw that follows a play from
    the zone [z]: [drawUpToThree] for the hand, nothing for the other
    zones. *)
Definition drawn (z : Zone) (ps : PlayerState) (d : list Card) : PlayerState * list Card :=
  if bool_decide (z = ZHand)
  then (setHand (hand ps ++ take (3 - length (hand ps)) d) ps,
        drop (3 - length (hand ps)) d)
  else (ps, d).

(** The game [play:cards] passes to [ensureFinishAndMaybeEnd], written out
    field by field for its three outcomes: forced pickup, burn, and the play
    that stays on the pile. [ps1] is the player state once the selection
    [played], with first card [first], has left the zone [z]. *)
Definition resolved (room : Room) (g : GameState) (sid : string) (ps1 : PlayerState)
    (z : Zone) (played : list Card) (first : Card) : GameState :=
  if negb (canPlayOnPile (r first) (pile g)) then
    mkGame (deck g) [] (burned g) (nextPlayerId room sid 1)
      (<[sid := setHand (hand ps1 ++ played ++ pile g) ps1]> (playersState g))
      (finished g) (winnerId g) (loserId g)
  else if bool_decide (r first = R10) || lastFourNon3Same (pile g ++ played) then
    mkGame (drawn z ps1 (deck g)).2 [] (burned g ++ pile g ++ played) (currentPlayerId g)
      (<[sid := (drawn z ps1 (deck g)).1]> (playersState g))
      (finished g) (winnerId g) (loserId g)
  else
    mkGame (drawn z ps1 (deck g)).2 (pile g ++ played) (burned g)
      (nextPlayerId room sid (1 + countEights played))
      (<[sid := (drawn z ps1 (deck g)).1]> (playersState g))
      (finished g) (winnerId g) (loserId g).

(** The same for [play:pickup]. *)
Definition pickedUp (room : Room) (g : GameState) (sid : string) (ps : PlayerState)
    : GameState :=
  mkGame (deck g) [] (burned g) (nextPlayerId room sid 1)
    (<[sid := setHand (hand ps ++ pile g) ps]> (playersState g))
    (finished g) (winnerId g) (loserId g).

(** ** What holds at the table from the start of a game *)

(** The seats are taken by two or more players with ids of their own, each
    with a player state and nobody else with one; the turn is on a player who
    is not recorded as finished; [finished] names players of the room, each
    once, and they hold no card; the pile holds no 10 and does not end in
    four of a kind; during setup nobody is finished and nothing is on the
    pile or burned; while the game is played two players or more are still
    active; and a winner and a loser are set exactly once the game has ended,
    the winner being the first to have finished and the loser the one player
    still active. *)
Record tableInv (room : Room) (g : GameState) : Prop := mkTableInv {
  ti_ids : NoDup (p_id <$> players room);
  ti_two : (2 ≤ length (players room))%nat;
  ti_states : ∀ q, q ∈ p_id <$> players room ↔ is_Some (playersState g !! q);
  ti_turn : ∃ c, currentPlayerId g = Some c ∧ c ∈ activeOf room g;
  ti_finished : NoDup (finished g);
  ti_out : ∀ c, c ∈ finished g →
             c ∈ p_id <$> players room
             ∧ ∃ ps, playersState g !! c = Some ps ∧ isPlayerOut ps = true;
  ti_ten : Forall (λ c, r c ≠ R10) (pile g);
  ti_four : lastFourNon3Same (pile g) = false;
  ti_lobby : phase room ≠ PhLobby;
  ti_setup : phase room = PhSetup → finished g = [] ∧ pile g = [] ∧ burned g = [];
  ti_playing : phase room = PhPlaying → (2 ≤ length (activeOf room g))%nat;
  ti_ended : phase room = PhEnded →
             ∃ w l, winnerId g = Some w ∧ loserId g = Some l
                    ∧ head (finished g) = Some w ∧ activeOf room g = [l];
  ti_open : phase room ≠ PhEnded → winnerId g = None ∧ loserId g = None
}.

(** All of it together with the invariants of the setup and the ids of the
    cards, no two alike. *)
Definition fullInv (room : Room) : Prop :=
  ∃ g, game room = Some g ∧ gameInv room ∧ setupInv room = true
       ∧ NoDup (id <$> allCards g) ∧ tableInv room g.

(** ** Notions for the rest of the server *)

(** The phases in the order a room goes through them. *)
Definition phaseOrder (ph : Phase) : nat :=
  match ph with PhLobby => 0 | PhSetup => 1 | PhPlaying => 2 | PhEnded => 3 end.

(** What is kept from the game [g] to a later game [g']: cards leave the deck
    from its front and never come back, burned cards stay burned, finished
    players stay finished in their order, the same sockets have a player
    state, and nobody gains a face-down card or changes id or name. *)
Definition later (g g' : GameState) : Prop :=
  deck g' `suffix_of` deck g
  ∧ burned g `prefix_of` burned g'
  ∧ finished g `prefix_of` finished g'
  ∧ (∀ q, is_Some (playersState g' !! q) ↔ is_Some (playersState g !! q))
  ∧ ∀ q ps ps', playersState g !! q = Some ps → playersState g' !! q = Some ps' →
      faceDown ps' `sublist_of` faceDown ps
      ∧ ps_id ps' = ps_id ps ∧ ps_name ps' = ps_name ps.

(** A game [g'] that differs from [g] for the player [sid] alone, but for
    the stages. *)
Definition sameOthers (sid : string) (g g' : GameState) : Prop :=
  ∀ q ps, q ≠ sid → playersState g !! q = Some ps →
    ∃ ps', playersState g' !! q = Some ps'
      ∧ hand ps' = hand ps ∧ faceUp ps' = faceUp ps ∧ faceDown ps' = faceDown ps
      ∧ (stage ps' = stage ps ∨ stage ps' = StPlaying).

(** A room as the server keeps it under the code [c]: it carries that code,
    somebody is seated, no id is seated twice or empty, the host is seated,
    the room is in the lobby exactly as long as it has no game, and only
    seated sockets have a player state. *)
Record roomWf (c : string) (room : Room) : Prop := mkRoomWf {
  wf_code : code room = c;
  wf_seated : players room ≠ [];
  wf_ids : NoDup (p_id <$> players room);
  wf_named : Forall (λ q, q ≠ "") (p_id <$> players room);
  wf_host : ∃ h, hostSocketId room = Some h ∧ h ∈ p_id <$> players room;
  wf_lobby : phase room = PhLobby ↔ game room = None;
  wf_states : ∀ g q, game room = Some g → is_Some (playersState g !! q) →
                     q ∈ p_id <$> players room
}.

(** ** More sample games *)

Module Scenario.
Import Sample.

(** A deck of eighteen cards with which Ann is out after nine messages. *)
Definition shortDeck : list Card :=
  [card R10 Clubs; card R6 Spades; card R7 Spades;
   card R10 Spades; card R10 Hearts; card R10 Diamonds;
   card R5 Spades; card R5 Hearts; card R5 Diamonds;
   card RJ Clubs; card RQ Clubs; card RK Clubs;
   card RJ Spades; card RQ Spades; card RK Spades;
   card RJ Hearts; card RQ Hearts; card RK Hearts].
Definition shortGame : list (string * Message) :=
  [("a", SetupSetFaceUp (id <$> [card R5 Spades; card R5 Hearts; card R5 Diamonds]));
   ("b", SetupSetFaceUp (id <$> [card RJ Hearts; card RQ Hearts; card RK Hearts]));
   ("a", PlayCardsMsg (mkPlayCards (id <$> [card R10 Spades; card R10 Hearts; card R10 Diamonds])
                         (Some ZHand) None));
   ("a", PlayCardsMsg (mkPlayCards (id <$> [card R5 Spades; card R5 Hearts; card R5 Diamonds])
                         (Some ZFaceUp) None));
   ("b", PlayPickup);
   ("a", PlayCardsMsg (mkPlayCards [] (Some ZFaceDown) (Some 0)));
   ("a", PlayCardsMsg (mkPlayCards [] (Some ZFaceDown) (Some 0)));
   ("b", PlayPickup);
   ("a", PlayCardsMsg (mkPlayCards [] (Some ZFaceDown) (Some 0)))].


(** A deck of twelve cards for a table of two. *)
Definition twelve : list Card := take 12 twenty.

(** Ann opens a room, Bob joins, Ann starts the game and leaves. *)
Definition someEvents : list (string * Event) :=
  [("a", EvCreate "Ann" ["ROOM"]);
   ("b", EvJoin "ROOM" "Bob");
   ("a", EvStart "ROOM" twenty);
   ("a", EvDisconnect)].

End Scenario.

(** * Properties *)

(** ** Pile rules *)

Section PileRules.
Implicit Types (pile : list Card) (x top : Rank).

Lemma scanTop_take pile n :
  scanTop pile n = last (filter (λ y, y ≠ R3) (r <$> take n pile)).
Proof.
  induction n as [|i IH]; simpl.
  - done.
  - destruct (pile !! i) as [c|] eqn:Hc.
    + rewrite (take_S_r _ _ _ Hc), fmap_app, filter_app. simpl.
      rewrite filter_cons, filter_nil.
      destruct (decide (r c ≠ R3)) as [Hr|Hr].
      * rewrite bool_decide_eq_true_2 by done. by rewrite last_snoc.
      * rewrite bool_decide_eq_false_2 by done. by rewrite app_nil_r.
    + apply lookup_ge_None in Hc. rewrite IH.
      by rewrite !take_ge by lia.
Qed.

Lemma pileEffectiveTopRank_spec pile :
  pileEffectiveTopRank pile = specEffectiveTop pile.
Proof.
  unfold pileEffectiveTopRank, specEffectiveTop.
  by rewrite scanTop_take, firstn_all.
Qed.

Lemma specEffectiveTop_None pile :
  specEffectiveTop pile = None ↔ Forall (λ c, r c = R3) pile.
Proof.
  unfold specEffectiveTop. rewrite last_None.
  induction pile as [|c pile IH]; simpl.
  - split; [constructor | done].
  - rewrite filter_cons. destruct (decide (r c ≠ R3)) as [Hr|Hr].
    + split; [done | intros H; inversion H; done].
    + rewrite IH. apply dec_stable in Hr.
      split; [by constructor | intros H; by inversion H].
Qed.

Lemma specEffectiveTop_not3 pile top :
  specEffectiveTop pile = Some top → top ≠ R3.
Proof.
  unfold specEffectiveTop. intros H.
  apply last_Some_elem_of, list_elem_of_filter in H. tauto.
Qed.
End PileRules.

(** C1. [canPlayOnPile x pile] holds exactly when [x] is magic (2, 3 or 10),
    or the pile has no effective top (it is empty or holds only 3s), or [x]
    is the effective top, or the effective top is 7 and [x] ranks below 7, or
    the effective top is another rank and [x] ranks at least as high; the
    effective top is the rank of the last card that is not a 3, and
    [rankValue] gives A 14, K 13, Q 12, J 11 and each numeral its face
    value. *)
Theorem canPlayOnPile_iff (x : Rank) (pile : list Card) :
  (canPlayOnPile x pile = true ↔
     (x = R2 ∨ x = R3 ∨ x = R10)
     ∨ specEffectiveTop pile = None
     ∨ specEffectiveTop pile = Some x
     ∨ (specEffectiveTop pile = Some R7 ∧ rankValue x < rankValue R7)
     ∨ (∃ top, specEffectiveTop pile = Some top ∧ top ≠ R7
               ∧ rankValue x >= rankValue top))
  ∧ pileEffectiveTopRank pile = specEffectiveTop pile
  ∧ (specEffectiveTop pile = None ↔ Forall (λ c, r c = R3) pile)
  ∧ rankValue <$> [RA; RK; RQ; RJ; R2; R3; R4; R5; R6; R7; R8; R9; R10]
    = [14; 13; 12; 11; 2; 3; 4; 5; 6; 7; 8; 9; 10].
Proof.
  split; [|split; [apply pileEffectiveTopRank_spec|split;
                   [apply specEffectiveTop_None|reflexivity]]].
  unfold canPlayOnPile. rewrite pileEffectiveTopRank_spec.
  destruct (isMagic x) eqn:Hm.
  { split; [intros _; left|done].
    unfold isMagic in Hm. rewrite !orb_true_iff, !bool_decide_eq_true in Hm. tauto. }
  assert (Hnm : ¬ (x = R2 ∨ x = R3 ∨ x = R10)).
  { unfold isMagic in Hm. rewrite !orb_false_iff, !bool_decide_eq_false in Hm. tauto. }
  destruct (specEffectiveTop pile) as [top|] eqn:Ht; [|by split; [right; left|]].
  case_bool_decide as Hx.
  { subst top. split; [intros _; right; right; by left|done]. }
  case_bool_decide as H7.
  - subst top. rewrite bool_decide_eq_true. change (rankValue R7) with 7. split.
    + intros Hlt. do 3 right. by left.
    + intros [?|[?|[?|[[_ ?]|(t & Heq & Hne & _)]]]]; try done; congruence.
  - rewrite bool_decide_eq_true. split.
    + intros Hge. do 4 right. by exists top.
    + intros [?|[?|[?|[[? _]|(t & Heq & _ & Hge)]]]]; try done; congruence.
Qed.

(** ** Burn detection *)

Section Burn.
Implicit Types (pile : list Card) (acc : list Rank).

(** The ranks that are not 3, bottom of the pile first. *)
Local Abbreviation visible pile := (filter (λ y, y ≠ R3) (r <$> pile)).

Lemma collectNon3_take pile n acc :
  collectNon3 pile n acc
  = acc ++ take (4 - length acc) (reverse (visible (take n pile))).
Proof.
  revert acc. induction n as [|i IH]; intros acc; cbn [collectNon3].
  - rewrite take_0, fmap_nil, filter_nil. change (reverse []) with (@nil Rank).
    by rewrite take_nil, app_nil_r.
  - case_bool_decide as Hlen.
    + destruct (pile !! i) as [c|] eqn:Hc.
      * rewrite (take_S_r _ _ _ Hc), fmap_app, filter_app. simpl.
        rewrite filter_cons, filter_nil.
        destruct (decide (r c ≠ R3)) as [Hr|Hr].
        -- rewrite bool_decide_eq_true_2 by done.
           rewrite IH, reverse_snoc, length_app. simpl.
           replace (4 - length acc)%nat with (S (4 - (length acc + 1)))%nat by lia.
           simpl. by rewrite <- app_assoc.
        -- rewrite bool_decide_eq_false_2 by done. by rewrite IH, app_nil_r.
      * apply lookup_ge_None in Hc. rewrite IH.
        by rewrite (take_ge pile i), (take_ge pile (S i)) by lia.
    + replace (4 - length acc)%nat with O by lia. by rewrite take_0, app_nil_r.
Qed.

Lemma four_same_reverse (l : list Rank) :
  (if bool_decide (length (take 4 l) < 4)%nat then false
   else match take 4 l with
        | [] => true
        | r0 :: _ => forallb (λ x, bool_decide (x = r0)) (take 4 l)
        end) = true
  ↔ ∃ front x, reverse l = front ++ [x; x; x; x].
Proof.
  split.
  - case_bool_decide as Hlen; [done|].
    destruct l as [|a [|b [|c [|d l]]]]; simpl in Hlen; try lia.
    simpl. rewrite !andb_true_iff, !bool_decide_eq_true.
    intros (_ & -> & -> & -> & _). exists (reverse l), a.
    by rewrite !reverse_cons, <- !app_assoc.
  - intros (front & x & Heq). apply (f_equal reverse) in Heq.
    rewrite reverse_involutive, reverse_app in Heq. subst l. simpl.
    by rewrite !bool_decide_eq_true_2.
Qed.

Lemma lastFourNon3Same_spec pile :
  lastFourNon3Same pile = true ↔ specFourOfAKind pile.
Proof.
  unfold lastFourNon3Same, specFourOfAKind.
  rewrite collectNon3_take, firstn_all. simpl.
  rewrite four_same_reverse. by rewrite reverse_involutive.
Qed.

Lemma lastFourNon3Same_short pile :
  (length (visible pile) < 4)%nat → lastFourNon3Same pile = false.
Proof.
  intros Hlen. destruct (lastFourNon3Same pile) eqn:Hb; [|done].
  apply lastFourNon3Same_spec in Hb as (front & x & Heq).
  rewrite Heq, length_app in Hlen. simpl in Hlen. lia.
Qed.
End Burn.

(** The worked cases of the specification. *)
Example effective_top_cases :
  pileEffectiveTopRank (pileOf [R5; R3; R3]) = Some R5
  ∧ pileEffectiveTopRank (pileOf [R3; R3]) = None
  ∧ pileEffectiveTopRank [] = None.
Proof. done. Qed.

Example canPlay_cases :
  Forall (λ pl, canPlayOnPile R2 pl && canPlayOnPile R3 pl && canPlayOnPile R10 pl = true)
         [[]; pileOf [RA]; pileOf [R7; R3]; pileOf [RK; RK]]
  ∧ canPlayOnPile R6 (pileOf [R7]) = true
  ∧ canPlayOnPile R8 (pileOf [R7]) = false
  ∧ canPlayOnPile R7 (pileOf [R7]) = true
  ∧ canPlayOnPile RJ (pileOf [RQ]) = false
  ∧ canPlayOnPile RK (pileOf [RQ]) = true.
Proof. repeat split; by repeat constructor. Qed.

Example burn_cases :
  lastFourNon3Same (pileOf [R7; R3; R7; R3; R7; R3; R7]) = true
  ∧ lastFourNon3Same (pileOf [RA; R3; RA; R3; RA; R3; RA]) = true
  ∧ lastFourNon3Same (pileOf [R7; R7; R7; R8]) = false
  ∧ lastFourNon3Same (pileOf [R7; R7; R7]) = false.
Proof. done. Qed.

(** ** Turn order *)

Section TurnOrder.
Implicit Types (l active : list string) (x y : string) (i k len : nat).

Lemma indexOf_Some l x i : indexOf l x = Some i → l !! i = Some x.
Proof.
  revert i. induction l as [|y l IH]; intros i; simpl; [done|].
  case_bool_decide as Hy.
  - intros [= <-]. by subst.
  - destruct (indexOf l x) as [j|]; simpl; [|done].
    intros [= <-]. by apply IH.
Qed.

Lemma indexOf_elem l x : x ∈ l → is_Some (indexOf l x).
Proof.
  induction 1 as [x l|x y l _ IH]; simpl.
  - rewrite bool_decide_eq_true_2 by done. by eexists.
  - case_bool_decide; [by eexists|]. destruct IH as [j ->]. by eexists.
Qed.

Lemma indexOf_None l x : indexOf l x = None → x ∉ l.
Proof.
  intros Hn Hin. apply indexOf_elem in Hin as [j Hj]. congruence.
Qed.

Lemma indexOf_NoDup l x i : NoDup l → l !! i = Some x → indexOf l x = Some i.
Proof.
  intros Hnd. revert i. induction Hnd as [|y l Hy _ IH]; intros i; [done|].
  destruct i as [|i]; simpl.
  - intros [= ->]. by rewrite bool_decide_eq_true_2.
  - intros Hl. rewrite bool_decide_eq_false_2.
    + by rewrite (IH _ Hl).
    + intros ->. apply Hy. by eapply list_elem_of_lookup_2.
Qed.

Lemma stepIdx_S len k i :
  stepIdx len (S k) i = ((stepIdx len k i + 1) mod len)%nat.
Proof.
  revert i. induction k as [|k IH]; intros i; [done|].
  change (stepIdx len (S (S k)) i) with (stepIdx len (S k) ((i + 1) mod len)%nat).
  by rewrite IH.
Qed.

Lemma stepIdx_lt len k i : (i < len)%nat → (stepIdx len k i < len)%nat.
Proof.
  intros Hi. destruct k as [|k]; [done|].
  rewrite stepIdx_S. apply Nat.mod_upper_bound. lia.
Qed.

(** The loop lands [steps] places further round the circle. *)
Lemma stepIdx_mod len k i :
  (i < len)%nat → stepIdx len k i = ((i + k) mod len)%nat.
Proof.
  intros Hi. induction k as [|k IH].
  - simpl. rewrite Nat.add_0_r. by rewrite Nat.mod_small.
  - rewrite stepIdx_S, IH.
    rewrite Nat.Div0.add_mod_idemp_l. f_equal. lia.
Qed.

Lemma advance_stepIdx active k x i :
  NoDup active → active !! i = Some x →
  advance active k x = active !! stepIdx (length active) k i.
Proof.
  intros Hnd. revert x i. induction k as [|k IH]; intros x i Hx; simpl; [done|].
  unfold cyclicNext. rewrite (indexOf_NoDup _ _ _ Hnd Hx).
  assert (Hlt : ((i + 1) mod length active < length active)%nat).
  { apply Nat.mod_upper_bound. apply lookup_lt_Some in Hx. lia. }
  destruct (lookup_lt_is_Some_2 _ _ Hlt) as [y Hy].
  rewrite Hy. simpl. by apply IH.
Qed.

(** [nextPlayerId] from an active player is [steps] single steps round the
    active players, however many steps are asked for. *)
Lemma nextPlayerId_advance room g x k :
  game room = Some g → NoDup (activeOf room g) → x ∈ activeOf room g →
  nextPlayerId room x k = advance (activeOf room g) k x.
Proof.
  intros Hg Hnd Hx. unfold nextPlayerId. rewrite Hg. fold (activeOf room g).
  assert (Hids : x ∈ p_id <$> players room).
  { unfold activeOf, activeIds in Hx. apply list_elem_of_filter in Hx. tauto. }
  rewrite bool_decide_eq_false_2
    by (intros Hl; apply nil_length_inv in Hl; rewrite Hl in Hids; by apply elem_of_nil in Hids).
  rewrite bool_decide_eq_false_2
    by (intros Hl; apply nil_length_inv in Hl; rewrite Hl in Hx; by apply elem_of_nil in Hx).
  destruct (indexOf_elem _ _ Hx) as [i Hi]. rewrite Hi.
  symmetry. apply advance_stepIdx; [done|]. by apply indexOf_Some.
Qed.

(** Whatever [fromId] is, [nextPlayerId] answers with an active player. *)
Lemma nextPlayerId_active room g x k y :
  game room = Some g → nextPlayerId room x k = Some y → y ∈ activeOf room g.
Proof.
  intros Hg. unfold nextPlayerId. rewrite Hg. fold (activeOf room g).
  repeat case_bool_decide; try done.
  intros Hy. by eapply list_elem_of_lookup_2.
Qed.
End TurnOrder.

(** ** The turn order in the words of the specification *)

Section SeatOrder.
Implicit Types (ids fin l seats : list string) (x y z : string) (k : nat).

Lemma firstActive_head seats fin y :
  firstActive seats fin y ↔ head (filter (λ q, q ∉ fin) seats) = Some y.
Proof.
  split.
  - intros (skipped & rest & -> & Hskip & Hy). rewrite filter_app.
    assert (Hnil : filter (λ q, q ∉ fin) skipped = []).
    { induction Hskip as [|q skipped Hq _ IH]; [done|].
      rewrite filter_cons_False; [done|]. by intros Hn. }
    rewrite Hnil. simpl. by rewrite filter_cons_True.
  - induction seats as [|a seats IH]; [done|].
    destruct (decide (a ∉ fin)) as [Ha|Ha].
    + rewrite filter_cons_True by done. intros [= ->].
      exists [], seats. by split.
    + rewrite filter_cons_False by done. intros Hhead.
      destruct (IH Hhead) as (skipped & rest & -> & Hskip & Hy).
      exists (a :: skipped), rest. split; [done|]. split; [|done].
      constructor; [|done]. by apply dec_stable.
Qed.

Lemma firstActive_unique seats fin y y' :
  firstActive seats fin y → firstActive seats fin y' → y = y'.
Proof. rewrite !firstActive_head. congruence. Qed.

(** A seat is found at one place when no id is seated twice. *)
Lemma seat_unique l (before after before' after' : list string) x :
  NoDup l → l = before ++ x :: after → l = before' ++ x :: after' →
  before = before' ∧ after = after'.
Proof.
  intros Hnd Hl Hl'.
  assert (Hlen : length before = length before').
  { apply (NoDup_lookup l _ _ x Hnd).
    - rewrite Hl. rewrite lookup_app_r by lia. by rewrite Nat.sub_diag.
    - rewrite Hl'. rewrite lookup_app_r by lia. by rewrite Nat.sub_diag. }
  rewrite Hl in Hl'. apply app_inj_1 in Hl' as [? [= ?]]; done.
Qed.

(** With no id seated twice the next active player is determined. *)
Lemma nextActive_unique ids fin x y y' :
  NoDup ids → nextActive ids fin x y → nextActive ids fin x y' → y = y'.
Proof.
  intros Hnd (before & after & Hids & Hy) (before' & after' & Hids' & Hy').
  destruct (seat_unique ids before after before' after' x Hnd Hids Hids') as [<- <-].
  by eapply firstActive_unique.
Qed.

Lemma stepsOn_unique ids fin k x y y' :
  NoDup ids → stepsOn ids fin k x y → stepsOn ids fin k x y' → y = y'.
Proof.
  intros Hnd. revert x. induction k as [|k IH]; intros x; simpl; [congruence|].
  intros (z & Hz & Hy) (z' & Hz' & Hy').
  rewrite <- (nextActive_unique _ _ _ _ _ Hnd Hz Hz') in Hy'. by eapply IH.
Qed.

(** One step of the code's circle of active players is a step to the next
    active player in join order. *)
Lemma cyclicNext_nextActive ids fin x :
  NoDup ids → x ∈ ids → x ∉ fin →
  ∃ z, cyclicNext (activeIds ids fin) x = Some z
       ∧ nextActive ids fin x z ∧ z ∈ ids ∧ z ∉ fin.
Proof.
  intros Hnd Hx Hfin. apply list_elem_of_split in Hx as (before & after & ->).
  unfold cyclicNext, activeIds. rewrite filter_app, filter_cons_True by done.
  set (fb := filter (λ i, i ∉ fin) before). set (fa := filter (λ i, i ∉ fin) after).
  assert (Hnda : NoDup (fb ++ x :: fa)).
  { assert (Heq : fb ++ x :: fa = filter (λ i, i ∉ fin) (before ++ x :: after)).
    { by rewrite filter_app, filter_cons_True. }
    rewrite Heq. by apply NoDup_filter. }
  rewrite (indexOf_NoDup _ x (length fb) Hnda)
    by (rewrite lookup_app_r by lia; by rewrite Nat.sub_diag).
  assert (Hhead : ∀ z, head (fa ++ fb ++ [x]) = Some z →
            nextActive (before ++ x :: after) fin x z
            ∧ z ∈ before ++ x :: after ∧ z ∉ fin).
  { intros z Hz.
    assert (Hf : head (filter (λ q, q ∉ fin) (after ++ before ++ [x])) = Some z).
    { rewrite !filter_app. fold fa fb. simpl. by rewrite filter_cons_True. }
    split; [exists before, after; split; [done|by apply firstActive_head]|].
    apply head_Some_elem_of, list_elem_of_filter in Hf as [Hzf Hz'].
    split; [|done]. rewrite elem_of_app, elem_of_cons.
    apply elem_of_app in Hz' as [?|Hz']; [by right; right|].
    apply elem_of_app in Hz' as [?|Hz']; [by left|].
    apply list_elem_of_singleton in Hz'. by right; left. }
  rewrite length_app. cbn [length].
  destruct fa as [|a fa'] eqn:Hfa.
  - cbn [length]. rewrite Nat.Div0.mod_same.
    destruct (fb ++ [x]) as [|z l'] eqn:Hl; [by destruct fb|].
    exists z. split.
    + by destruct fb.
    + by apply Hhead.
  - rewrite Nat.mod_small by (cbn [length]; lia).
    exists a. split.
    + rewrite lookup_app_r by lia.
      by replace (length fb + 1 - length fb)%nat with 1%nat by lia.
    + by apply Hhead.
Qed.

(** And so are [k] of them. *)
Lemma advance_stepsOn ids fin k x :
  NoDup ids → x ∈ ids → x ∉ fin →
  ∃ y, advance (activeIds ids fin) k x = Some y
       ∧ stepsOn ids fin k x y ∧ y ∈ ids ∧ y ∉ fin.
Proof.
  intros Hnd. revert x. induction k as [|k IH]; intros x Hx Hfin.
  { by exists x. }
  destruct (cyclicNext_nextActive ids fin x Hnd Hx Hfin) as (z & Hz & Hnext & Hzin & Hzfin).
  destruct (IH z Hzin Hzfin) as (y & Hy & Hsteps & Hyin & Hyfin).
  exists y. split; [simpl; by rewrite Hz|]. split; [by exists z|done].
Qed.

(** [nextPlayerId] from a player who is seated and not finished: [steps]
    steps on in join order among the players who are not finished. *)
Lemma nextPlayerId_stepsOn room g x k :
  game room = Some g → NoDup (p_id <$> players room) →
  x ∈ p_id <$> players room → x ∉ finished g →
  ∃ y, nextPlayerId room x k = Some y
       ∧ stepsOn (p_id <$> players room) (finished g) k x y
       ∧ y ∈ p_id <$> players room ∧ y ∉ finished g.
Proof.
  intros Hg Hnd Hx Hfin.
  destruct (advance_stepsOn _ (finished g) k x Hnd Hx Hfin) as (y & Hy & Hsteps & Hin).
  exists y. split; [|done].
  rewrite (nextPlayerId_advance room g); [done|done| |].
  - by apply NoDup_filter.
  - by apply list_elem_of_filter.
Qed.
End SeatOrder.

(** ** Recording finished players *)

Section Finish.
Implicit Types (m : gmap string PlayerState) (ps : list Player)
  (fin : list string) (room : Room) (g : GameState).

Lemma recordFinished_prefix m ps fin :
  ∃ extra, recordFinished m ps fin = fin ++ extra.
Proof.
  revert fin. induction ps as [|p ps IH]; intros fin; simpl.
  - exists []. by rewrite app_nil_r.
  - destruct (m !! p_id p) as [st|]; [|apply IH].
    destruct (isPlayerOut st && negb (bool_decide (p_id p ∈ fin))); [|apply IH].
    destruct (IH (fin ++ [p_id p])) as [extra ->].
    exists (p_id p :: extra). by rewrite <- app_assoc.
Qed.

Lemma recordFinished_keeps m ps fin x :
  x ∈ fin → x ∈ recordFinished m ps fin.
Proof.
  intros Hx. destruct (recordFinished_prefix m ps fin) as [extra ->].
  apply elem_of_app. by left.
Qed.

(** Whoever is in [finished] afterwards was there before or is a player of
    the room found with all three zones empty. *)
Lemma recordFinished_elem m ps fin x :
  x ∈ recordFinished m ps fin →
  x ∈ fin ∨ ∃ p st, p ∈ ps ∧ p_id p = x ∧ m !! x = Some st ∧ isPlayerOut st = true.
Proof.
  revert fin. induction ps as [|p ps IH]; intros fin; simpl; [by left|].
  assert (Hrest : x ∈ recordFinished m ps fin →
    x ∈ fin ∨ ∃ q st, q ∈ p :: ps ∧ p_id q = x ∧ m !! x = Some st ∧ isPlayerOut st = true).
  { intros H. destruct (IH _ H) as [?|(q & st & Hq & ?)]; [by left|right].
    exists q, st. split; [by right|done]. }
  destruct (m !! p_id p) as [st|] eqn:Hst; [|done].
  destruct (isPlayerOut st) eqn:Hout; simpl; [|done].
  case_bool_decide as Hin; simpl; [done|].
  intros H. destruct (IH _ H) as [Hx|(q & st' & Hq & ?)].
  - apply elem_of_app in Hx as [?|Hx]; [by left|right].
    apply list_elem_of_singleton in Hx as ->.
    exists p, st. split; [by left|done].
  - right. exists q, st'. split; [by right|done].
Qed.

(** Every player of the room found with all three zones empty is in
    [finished] afterwards. *)
Lemma recordFinished_records m ps fin p st :
  p ∈ ps → m !! p_id p = Some st → isPlayerOut st = true →
  p_id p ∈ recordFinished m ps fin.
Proof.
  intros Hp Hst Hout. revert fin.
  induction ps as [|q ps IH]; intros fin; [by apply elem_of_nil in Hp|].
  apply elem_of_cons in Hp as [<-|Hp]; simpl.
  - rewrite Hst, Hout. simpl. case_bool_decide as Hin; simpl.
    + by apply recordFinished_keeps.
    + apply recordFinished_keeps, elem_of_app. right. by left.
  - destruct (m !! p_id q) as [sq|]; [|by apply IH].
    destruct (isPlayerOut sq && negb (bool_decide (p_id q ∈ fin))); by apply IH.
Qed.

Lemma recordFinished_none m ps fin :
  (∀ p st, p ∈ ps → m !! p_id p = Some st → isPlayerOut st = true → p_id p ∈ fin) →
  recordFinished m ps fin = fin.
Proof.
  revert fin. induction ps as [|p ps IH]; intros fin H; simpl; [done|].
  assert (Hrest : recordFinished m ps fin = fin).
  { apply IH. intros q st Hq. apply H. by right. }
  destruct (m !! p_id p) as [st|] eqn:Hst; [|done].
  destruct (isPlayerOut st) eqn:Hout; simpl; [|done].
  rewrite bool_decide_eq_true_2; [done|].
  eapply H; [by left|done..].
Qed.

(** What [ensureFinishAndMaybeEnd] leaves alone and what it sets. *)
Lemma ensureFinish_game room g :
  game room = Some g →
  ∃ g', game (ensureFinishAndMaybeEnd room) = Some g'
    ∧ players (ensureFinishAndMaybeEnd room) = players room
    ∧ deck g' = deck g ∧ pile g' = pile g ∧ burned g' = burned g
    ∧ playersState g' = playersState g
    ∧ finished g' = recordFinished (playersState g) (players room) (finished g)
    ∧ (hasCurrent (finished g') (currentPlayerId g) = false →
       currentPlayerId g' = currentPlayerId g).
Proof.
  intros Hg. unfold ensureFinishAndMaybeEnd. rewrite Hg.
  set (fin := recordFinished (playersState g) (players room) (finished g)).
  destruct (bool_decide _ && bool_decide _).
  - cbn [currentPlayerId setWinnerLoser setFinished].
    destruct (hasCurrent fin (currentPlayerId g)) eqn:Hc;
      eexists; (split; [reflexivity|]); repeat split; try done.
    cbn [finished setCurrent setWinnerLoser setFinished]. congruence.
  - cbn [currentPlayerId setFinished].
    destruct (currentPlayerId g) as [c|] eqn:Hc.
    + case_bool_decide as Hin;
        eexists; (split; [reflexivity|]); repeat split; try done.
      cbn [hasCurrent finished setCurrent setFinished].
      by rewrite bool_decide_eq_true_2.
    + eexists; (split; [reflexivity|]); repeat split; done.
Qed.
End Finish.

(** ** Selecting the played cards *)

Section Selection.
Implicit Types (arr removed kept played : list Card) (ids : list string)
  (ps : PlayerState) (z : Zone).

Lemma splitByIds_filter arr ids removed kept :
  splitByIds arr ids removed kept
  = (removed ++ filter (λ c, id c ∈ ids) arr,
     kept ++ filter (λ c, id c ∉ ids) arr).
Proof.
  revert removed kept. induction arr as [|c arr IH]; intros removed kept; simpl.
  - by rewrite !filter_nil, !app_nil_r.
  - rewrite !filter_cons. case_bool_decide as Hc.
    + rewrite IH, decide_True, decide_False by tauto. by rewrite <- app_assoc.
    + rewrite IH, decide_False, decide_True by tauto. by rewrite <- app_assoc.
Qed.

Lemma removeCardsByIds_filter arr ids :
  removeCardsByIds arr ids
  = (filter (λ c, id c ∈ ids) arr, filter (λ c, id c ∉ ids) arr).
Proof. apply splitByIds_filter. Qed.

Lemma forallb_bool_decide {A} (P : A → Prop) `{!∀ x, Decision (P x)} (l : list A) :
  forallb (λ x, bool_decide (P x)) l = true ↔ Forall P l.
Proof.
  rewrite forallb_forall, Forall_forall.
  split; intros Hall x Hx.
  - apply list_elem_of_In, Hall in Hx. by apply bool_decide_eq_true in Hx.
  - apply bool_decide_eq_true, Hall. by apply list_elem_of_In.
Qed.

Lemma selectCards_byId ps z req (ps1 : PlayerState) played :
  z ≠ ZFaceDown → selectCards ps z req = inr (ps1, played) →
  cardIds req ≠ []
  ∧ Forall (λ i, i ∈ id <$> zoneCards z ps) (cardIds req)
  ∧ played = filter (λ c, id c ∈ cardIds req) (zoneCards z ps)
  ∧ ps1 = (if bool_decide (z = ZHand) then setHand else setFaceUp)
            (filter (λ c, id c ∉ cardIds req) (zoneCards z ps)) ps.
Proof.
  intros Hz. unfold selectCards.
  destruct z; [| |done].
  all: match goal with |- context [bool_decide (?a = ZHand)] =>
         let b := eval vm_compute in (bool_decide (a = ZHand)) in
         change (bool_decide (a = ZHand)) with b end.
  all: cbn [zoneCards]; rewrite removeCardsByIds_filter.
  all: case_bool_decide as Hlen; [done|].
  all: destruct (forallb _ (cardIds req)) eqn:Hall; [|done]; simpl.
  all: destruct (forallb _ (_ <$> cardIds req)); [|done]; simpl.
  all: intros [= <- <-]; split; [by destruct (cardIds req); simpl in *; [lia|]|].
  all: split; [|done].
  all: by apply forallb_bool_decide in Hall.
Qed.

(** A selection by position out of the face-down cards. *)
Lemma selectCards_faceDown ps req (ps1 : PlayerState) played :
  selectCards ps ZFaceDown req = inr (ps1, played) →
  ∃ n c, faceDownIndex req = Some (Z.of_nat n)
    ∧ faceDown ps !! n = Some c
    ∧ played = [c]
    ∧ ps1 = setFaceDown (delete n (faceDown ps)) ps.
Proof.
  unfold selectCards, faceDownAt.
  destruct (faceDownIndex req) as [idx|]; [|done].
  case_bool_decide as Hneg; [done|].
  destruct (faceDown ps !! Z.to_nat idx) as [c|] eqn:Hc; [|done].
  intros [= <- <-]. exists (Z.to_nat idx), c.
  by rewrite Z2Nat.id by lia.
Qed.

Lemma selectCards_nonempty ps z req (ps1 : PlayerState) played :
  selectCards ps z req = inr (ps1, played) → played ≠ [].
Proof.
  intros Hsel. destruct (decide (z = ZFaceDown)) as [->|Hz].
  - by apply selectCards_faceDown in Hsel as (n & c & _ & _ & -> & _).
  - apply selectCards_byId in Hsel as (Hne & Hall & -> & _); [|done].
    destruct (cardIds req) as [|i ids] eqn:Hids; [done|].
    apply Forall_cons in Hall as [Hi _].
    apply list_elem_of_fmap in Hi as (c & -> & Hc).
    intros Hnil. assert (Hin : c ∈ filter (λ c0, id c0 ∈ id c :: ids) (zoneCards z ps)).
    { apply list_elem_of_filter. split; [by left|done]. }
    rewrite Hnil in Hin. by apply elem_of_nil in Hin.
Qed.

(** The selection is taken out of the source zone and nothing else of the
    player changes. *)
Lemma selectCards_zones ps z req (ps1 : PlayerState) played :
  selectCards ps z req = inr (ps1, played) →
  zoneCards z ps ≡ₚ played ++ zoneCards z ps1
  ∧ (∀ z', z' ≠ z → zoneCards z' ps1 = zoneCards z' ps)
  ∧ stage ps1 = stage ps ∧ ps_id ps1 = ps_id ps ∧ ps_name ps1 = ps_name ps.
Proof.
  intros Hsel. destruct (decide (z = ZFaceDown)) as [->|Hz].
  - apply selectCards_faceDown in Hsel as (n & c & _ & Hc & -> & ->).
    split; [by apply delete_Permutation|].
    split; [|done]. by intros [].
  - apply selectCards_byId in Hsel as (_ & _ & -> & ->); [|done].
    split.
    { transitivity (filter (λ c, id c ∈ cardIds req) (zoneCards z ps)
                    ++ filter (λ c, id c ∉ cardIds req) (zoneCards z ps)).
      - symmetry. apply (filter_app_complement (λ c, id c ∈ cardIds req)).
      - by destruct z. }
    split; [|by destruct z].
    intros z' Hz'. by destruct z, z'.
Qed.

Lemma selectCards_playerCards ps z req (ps1 : PlayerState) played :
  selectCards ps z req = inr (ps1, played) →
  playerCards ps ≡ₚ played ++ playerCards ps1.
Proof.
  intros Hsel. apply selectCards_zones in Hsel as (Hz & Hoth & _).
  pose proof (Hoth ZHand) as Ha. pose proof (Hoth ZFaceUp) as Hb.
  pose proof (Hoth ZFaceDown) as Hc. clear Hoth.
  unfold playerCards. destruct z; simpl in *.
  - rewrite Hz, Hb, Hc by done. by rewrite <- app_assoc.
  - rewrite Hz, Ha, Hc by done. rewrite !app_assoc.
    do 2 apply Permutation_app_tail. apply Permutation_app_comm.
  - rewrite Hz, Ha, Hb by done. rewrite !app_assoc.
    apply Permutation_app_tail. rewrite <- (app_assoc played).
    apply Permutation_app_comm.
Qed.
End Selection.

(** ** Drawing *)

Section Drawing.
Implicit Types (h d : list Card) (g : GameState).

(** The loop moves the first [min (3 - |hand|) |deck|] cards of the deck to
    the end of the hand. *)
Lemma drawLoop_take h d :
  drawLoop h d
  = (h ++ take (3 - length h) d, drop (3 - length h) d).
Proof.
  revert h. induction d as [|c d IH]; intros h; simpl.
  - by rewrite take_nil, drop_nil, app_nil_r.
  - case_bool_decide as Hlen.
    + rewrite IH, length_app. simpl.
      replace (3 - length h)%nat with (S (3 - (length h + 1)))%nat by lia.
      simpl. by rewrite <- app_assoc.
    + replace (3 - length h)%nat with O by lia. simpl. by rewrite app_nil_r.
Qed.

Lemma drawLoop_perm h d h' d' :
  drawLoop h d = (h', d') → h' ++ d' = h ++ d.
Proof.
  rewrite drawLoop_take. intros [= <- <-].
  by rewrite <- app_assoc, take_drop.
Qed.

(** After drawing, the hand holds three cards or more, or the deck is
    empty. *)
Lemma drawLoop_full h d h' d' :
  drawLoop h d = (h', d') → (3 ≤ length h')%nat ∨ d' = [].
Proof.
  rewrite drawLoop_take. intros [= <- <-].
  destruct (decide (3 - length h ≤ length d)%nat) as [Hle|Hgt].
  - left. rewrite length_app, length_take. lia.
  - right. apply drop_ge. lia.
Qed.

Lemma drawUpToThree_spec g pid ps :
  playersState g !! pid = Some ps →
  drawUpToThree g pid
  = setDeck (drop (3 - length (hand ps)) (deck g))
      (putPlayer pid (setHand (hand ps ++ take (3 - length (hand ps)) (deck g)) ps) g).
Proof.
  intros Hps. unfold drawUpToThree. rewrite Hps, drawLoop_take.
  case_bool_decide as Hd; [|done].
  assert (deck g = []) as Hnil by (apply nil_length_inv; lia).
  rewrite Hnil, take_nil, drop_nil, app_nil_r.
  unfold setDeck, putPlayer, setPlayersState. simpl.
  rewrite insert_id; [|by destruct ps]. destruct g; simpl in *. by subst.
Qed.
End Drawing.

(** ** Where the cards are *)

Section Cards.
Implicit Types (m : gmap string PlayerState) (ps : PlayerState)
  (g : GameState) (room : Room) (pid sid : string).

Lemma playersCards_delete m pid ps :
  m !! pid = Some ps →
  playersCards m ≡ₚ playerCards ps ++ playersCards (delete pid m).
Proof.
  intros Hps. unfold playersCards.
  by rewrite <- (map_to_list_delete m pid ps Hps).
Qed.

Lemma playersCards_insert_fresh m pid ps :
  m !! pid = None →
  playersCards (<[pid := ps]> m) ≡ₚ playerCards ps ++ playersCards m.
Proof.
  intros Hps. unfold playersCards.
  by rewrite (map_to_list_insert m pid ps Hps).
Qed.

Lemma playersCards_insert m pid ps :
  playersCards (<[pid := ps]> m) ≡ₚ playerCards ps ++ playersCards (delete pid m).
Proof.
  rewrite <- insert_delete_eq.
  apply playersCards_insert_fresh, lookup_delete_eq.
Qed.

Lemma playersCards_setStage m st :
  playersCards (setStage st <$> m) = playersCards m.
Proof.
  unfold playersCards. rewrite map_to_list_fmap, <- list_fmap_compose.
  f_equal.
Qed.

Lemma ensureFinish_cards room :
  roomCards (ensureFinishAndMaybeEnd room) = roomCards room.
Proof.
  unfold roomCards at 2. destruct (game room) as [g|] eqn:Hg.
  - destruct (ensureFinish_game room g Hg)
      as (g' & Hg' & _ & Hd & Hp & Hb & Hm & _).
    unfold roomCards, allCards. by rewrite Hg', Hd, Hp, Hb, Hm.
  - unfold ensureFinishAndMaybeEnd. rewrite Hg. unfold roomCards. by rewrite Hg.
Qed.

Lemma drawUpToThree_cards g pid :
  allCards (drawUpToThree g pid) ≡ₚ allCards g.
Proof.
  unfold drawUpToThree.
  destruct (playersState g !! pid) as [ps|] eqn:Hps; [|done].
  case_bool_decide as Hd; [done|].
  destruct (drawLoop (hand ps) (deck g)) as [h d] eqn:Hloop.
  apply drawLoop_perm in Hloop.
  unfold allCards. cbn [deck pile burned playersState setDeck putPlayer setPlayersState].
  rewrite playersCards_insert, (playersCards_delete _ pid ps Hps).
  unfold playerCards. cbn [hand faceUp faceDown setHand].
  transitivity ((h ++ d) ++ pile g ++ burned g ++ faceUp ps ++ faceDown ps
                ++ playersCards (delete pid (playersState g))).
  - solve_Permutation.
  - rewrite Hloop. solve_Permutation.
Qed.
End Cards.

(** ** The handlers *)

Section Handlers.
Implicit Types (room : Room) (g : GameState) (ps : PlayerState)
  (sid : string) (req : PlayCards) (z : Zone) (played : list Card).

Lemma nextPlayerId_setGame room g g' x k :
  game room = Some g → finished g' = finished g →
  nextPlayerId (setGame g' room) x k = nextPlayerId room x k.
Proof.
  intros Hg Hfin. unfold nextPlayerId. simpl. by rewrite Hg, Hfin.
Qed.

Lemma nextPlayerId_one room g x :
  game room = Some g → x ∈ activeOf room g →
  nextPlayerId room x 1 = cyclicNext (activeOf room g) x.
Proof.
  intros Hg Hx. unfold nextPlayerId, cyclicNext. rewrite Hg.
  fold (activeOf room g).
  assert (Hids : x ∈ p_id <$> players room).
  { unfold activeOf, activeIds in Hx. apply list_elem_of_filter in Hx. tauto. }
  rewrite bool_decide_eq_false_2
    by (intros Hl; apply nil_length_inv in Hl; rewrite Hl in Hids; by apply elem_of_nil in Hids).
  rewrite bool_decide_eq_false_2
    by (intros Hl; apply nil_length_inv in Hl; rewrite Hl in Hx; by apply elem_of_nil in Hx).
  by destruct (indexOf_elem _ _ Hx) as [i ->].
Qed.

Lemma playCards_accepts room sid req g ps (ps1 : PlayerState) z played :
  accepts room sid req g ps ps1 z played →
  playCards room sid req = resolvePlay room g sid ps1 z played.
Proof.
  intros [Hg Hph Hturn Hps Hz Hsrc Hsel]. unfold playCards.
  rewrite Hg, Hps, Hz, Hsel.
  by rewrite !bool_decide_eq_false_2 by (intros Hn; by apply Hn).
Qed.

(** A request that is not turned down passes every check. *)
Lemma playCards_accepted room sid req :
  isFailure (playCards room sid req).1 = false →
  ∃ g ps ps1 z played, accepts room sid req g ps ps1 z played.
Proof.
  unfold playCards. destruct (game room) as [g|] eqn:Hg; [|done].
  case_bool_decide as Hph; [done|]. case_bool_decide as Hturn; [done|].
  destruct (playersState g !! sid) as [ps|] eqn:Hps; [|done].
  case_bool_decide as Hsrc; [done|].
  destruct (selectCards ps _ req) as [err|[ps1 played]] eqn:Hsel; [done|].
  intros _. exists g, ps, ps1, (playerZoneToUse g sid), played.
  split; try done; by apply dec_stable.
Qed.

Lemma resolvePlay_success room g sid ps z played :
  played ≠ [] → ∃ f b, (resolvePlay room g sid ps z played).1 = Success f b.
Proof.
  intros Hne. unfold resolvePlay. destruct played as [|first rest]; [done|].
  destruct (negb _); [by eexists _, _|].
  destruct (_ || _); by eexists _, _.
Qed.

(** [played[0]] is always there: the handler never raises. *)
Lemma playCards_replies room sid req : (playCards room sid req).1 ≠ Thrown.
Proof.
  destruct (isFailure (playCards room sid req).1) eqn:Hf.
  - by destruct (playCards room sid req).1.
  - destruct (playCards_accepted _ _ _ Hf) as (g & ps & ps1 & z & played & Hacc).
    rewrite (playCards_accepts _ _ _ _ _ _ _ _ Hacc).
    destruct Hacc as [_ _ _ _ _ _ Hsel]. apply selectCards_nonempty in Hsel.
    by destruct (resolvePlay_success room g sid ps1 z played Hsel) as (f & b & ->).
Qed.

Lemma playCards_failure room sid req :
  isFailure (playCards room sid req).1 = true → (playCards room sid req).2 = room.
Proof.
  unfold playCards. destruct (game room) as [g|] eqn:Hg; [|done].
  case_bool_decide; [done|]. case_bool_decide; [done|].
  destruct (playersState g !! sid) as [ps|] eqn:Hps; [|done].
  case_bool_decide; [done|].
  destruct (selectCards ps _ req) as [err|[ps1 played]] eqn:Hsel; [done|].
  apply selectCards_nonempty in Hsel.
  destruct (resolvePlay_success room g sid ps1 (playerZoneToUse g sid) played Hsel)
    as (f & b & ->). done.
Qed.

Lemma playPickup_failure room sid :
  isFailure (playPickup room sid).1 = true → (playPickup room sid).2 = room.
Proof.
  unfold playPickup. destruct (game room) as [g|]; [|done].
  case_bool_decide; [done|]. case_bool_decide; [done|].
  by destruct (playersState g !! sid).
Qed.

Lemma setFaceUpHandler_failure room sid ids :
  isFailure (setFaceUpHandler room sid ids).1 = true →
  (setFaceUpHandler room sid ids).2 = room.
Proof.
  unfold setFaceUpHandler. destruct (game room) as [g|]; [|done].
  destruct (playersState g !! sid) as [you|]; [|done].
  case_bool_decide; [done|]. case_bool_decide; [done|].
  destruct (negb _); [done|]. by destruct (allReady _).
Qed.
End Handlers.

(** ** Card conservation *)

Section Conservation.
Implicit Types (room : Room) (g : GameState) (ps : PlayerState)
  (sid : string) (req : PlayCards) (z : Zone) (played : list Card).

Lemma roomCards_setGame room g : roomCards (setGame g room) = allCards g.
Proof. done. Qed.

Lemma allCards_setCurrent c g : allCards (setCurrent c g) = allCards g.
Proof. done. Qed.

Lemma resolvePlay_cards room g sid ps (ps1 : PlayerState) z played :
  playersState g !! sid = Some ps →
  playerCards ps ≡ₚ played ++ playerCards ps1 →
  roomCards (resolvePlay room g sid ps1 z played).2 ≡ₚ allCards g.
Proof.
  intros Hps Hsel.
  assert (Hall : allCards g ≡ₚ deck g ++ pile g ++ burned g ++ played
                   ++ playerCards ps1 ++ playersCards (delete sid (playersState g))).
  { unfold allCards. rewrite (playersCards_delete _ sid ps Hps), Hsel.
    by rewrite <- !app_assoc. }
  rewrite Hall. clear Hall.
  unfold resolvePlay. destruct played as [|first rest].
  { cbn [snd]. rewrite roomCards_setGame. unfold allCards.
    cbn [deck pile burned playersState putPlayer setPlayersState].
    by rewrite playersCards_insert. }
  destruct (negb _).
  { cbn [snd]. rewrite ensureFinish_cards, roomCards_setGame. unfold allCards.
    cbn [deck pile burned playersState putPlayer setPlayersState setPile setCurrent].
    rewrite playersCards_insert. unfold playerCards.
    cbn [hand faceUp faceDown setHand]. solve_Permutation. }
  destruct (_ || _); cbn [snd]; rewrite ensureFinish_cards, roomCards_setGame.
  - match goal with |- allCards (if _ then drawUpToThree ?a _ else _) ≡ₚ _ =>
      transitivity (allCards a) end.
    { case_bool_decide; [apply drawUpToThree_cards|done]. }
    unfold allCards.
    cbn [deck pile burned playersState putPlayer setPlayersState setPile setBurned].
    rewrite playersCards_insert. solve_Permutation.
  - match goal with |- allCards (setCurrent _ (if _ then drawUpToThree ?a _ else _)) ≡ₚ _ =>
      transitivity (allCards a) end.
    { rewrite allCards_setCurrent.
      case_bool_decide; [apply drawUpToThree_cards|done]. }
    unfold allCards.
    cbn [deck pile burned playersState putPlayer setPlayersState setPile setBurned].
    rewrite playersCards_insert. solve_Permutation.
Qed.

Lemma playCards_cards room sid req :
  roomCards (playCards room sid req).2 ≡ₚ roomCards room.
Proof.
  destruct (isFailure (playCards room sid req).1) eqn:Hf.
  - by rewrite playCards_failure.
  - destruct (playCards_accepted _ _ _ Hf) as (g & ps & ps1 & z & played & Hacc).
    rewrite (playCards_accepts _ _ _ _ _ _ _ _ Hacc).
    destruct Hacc as [Hg _ _ Hps _ _ Hsel].
    unfold roomCards at 2. rewrite Hg.
    eapply resolvePlay_cards; [done|]. by eapply selectCards_playerCards.
Qed.

Lemma playPickup_cards room sid :
  roomCards (playPickup room sid).2 ≡ₚ roomCards room.
Proof.
  unfold playPickup. destruct (game room) as [g|] eqn:Hg; [|done].
  case_bool_decide; [done|]. case_bool_decide; [done|].
  destruct (playersState g !! sid) as [ps|] eqn:Hps; [|done].
  cbn [snd]. rewrite ensureFinish_cards, roomCards_setGame.
  unfold roomCards. rewrite Hg. unfold allCards.
  cbn [deck pile burned playersState putPlayer setPlayersState setPile setCurrent].
  rewrite playersCards_insert, (playersCards_delete _ sid ps Hps).
  unfold playerCards. cbn [hand faceUp faceDown setHand]. solve_Permutation.
Qed.

(** The face-up choice overwrites [faceUp]; nothing is lost when it was
    empty. *)
Lemma setFaceUpHandler_cards room sid ids :
  (∀ g you, game room = Some g → playersState g !! sid = Some you →
            stage you = StChooseFaceUp → faceUp you = []) →
  roomCards (setFaceUpHandler room sid ids).2 ≡ₚ roomCards room.
Proof.
  intros Hinv.
  unfold setFaceUpHandler. destruct (game room) as [g|] eqn:Hg; [|done].
  destruct (playersState g !! sid) as [you|] eqn:Hyou; [|done].
  case_bool_decide as Hst; [done|]. case_bool_decide; [done|].
  destruct (negb _); [done|].
  specialize (Hinv g you eq_refl Hyou Hst).
  match goal with |- roomCards (if _ then (_, setGame ?a _) else (_, setGame ?b _)).2 ≡ₚ _ =>
    assert (Ha : allCards a = allCards b) end.
  { unfold allCards. cbn [deck pile burned playersState setPlayersState].
    by rewrite playersCards_setStage. }
  destruct (allReady _); cbn [snd]; rewrite roomCards_setGame, ?Ha.
  all: unfold roomCards; rewrite Hg; unfold allCards.
  all: cbn [deck pile burned playersState putPlayer setPlayersState].
  all: rewrite playersCards_insert, (playersCards_delete _ sid you Hyou).
  all: unfold playerCards; cbn [hand faceUp faceDown setHand setFaceUp setStage].
  all: rewrite Hinv.
  all: rewrite <- (filter_app_complement (λ c, id c ∈ ids) (hand you)) at 3.
  all: solve_Permutation.
Qed.
End Conservation.

(** ** Resolving a play *)

Section Resolution.
Implicit Types (room : Room) (g : GameState) (ps : PlayerState)
  (sid x : string) (z : Zone) (played : list Card).

Lemma othersRecorded_spec room g sid :
  othersRecorded room g sid = true ↔
  ∀ p st, p ∈ players room → p_id p ≠ sid →
          playersState g !! p_id p = Some st →
          isPlayerOut st = true → p_id p ∈ finished g.
Proof.
  unfold othersRecorded. rewrite forallb_forall. split.
  - intros H p st Hp Hne Hst Hout. apply list_elem_of_In, H in Hp.
    rewrite Hst, Hout, bool_decide_eq_false_2 in Hp by done.
    by apply bool_decide_eq_true in Hp.
  - intros H p Hp. apply list_elem_of_In in Hp.
    case_bool_decide as Hne; [done|]. simpl.
    destruct (playersState g !! p_id p) as [st|] eqn:Hst; [|done].
    destruct (isPlayerOut st) eqn:Hout; [|done]. simpl.
    apply bool_decide_eq_true. by eapply H.
Qed.

(** With the others all recorded, only the player who moved can be newly
    finished. *)
Lemma recordFinished_others room g sid ps x :
  othersRecorded room g sid = true → x ≠ sid →
  x ∈ recordFinished (<[sid := ps]> (playersState g)) (players room) (finished g) →
  x ∈ finished g.
Proof.
  intros Hrec Hne Hx. apply recordFinished_elem in Hx as [?|(p & st & Hp & <- & Hst & Hout)];
    [done|].
  rewrite lookup_insert_ne in Hst by done.
  by eapply othersRecorded_spec.
Qed.

Lemma recordFinished_stays room g sid ps :
  othersRecorded room g sid = true → isPlayerOut ps = false →
  recordFinished (<[sid := ps]> (playersState g)) (players room) (finished g)
  = finished g.
Proof.
  intros Hrec Hout. apply recordFinished_none. intros p st Hp Hst Hst_out.
  destruct (decide (p_id p = sid)) as [Heq|Hne].
  - rewrite Heq, lookup_insert_eq in Hst. congruence.
  - rewrite lookup_insert_ne in Hst by done. by eapply othersRecorded_spec.
Qed.

Lemma activeOf_not_finished room g x : x ∈ activeOf room g → x ∉ finished g.
Proof.
  unfold activeOf, activeIds. intros Hx. apply list_elem_of_filter in Hx. tauto.
Qed.

(** The state the finish resolution is entered with, [g1] with the turn
    set to [cur], and what comes out of it. *)
Lemma ensureFinish_after room g g1 cur :
  game room = Some g → finished g1 = finished g →
  ∃ g', game (ensureFinishAndMaybeEnd (setGame (setCurrent cur g1) room)) = Some g'
    ∧ deck g' = deck g1 ∧ pile g' = pile g1 ∧ burned g' = burned g1
    ∧ playersState g' = playersState g1
    ∧ finished g' = recordFinished (playersState g1) (players room) (finished g)
    ∧ (hasCurrent (finished g') cur = false → currentPlayerId g' = cur).
Proof.
  intros Hg Hfin.
  destruct (ensureFinish_game (setGame (setCurrent cur g1) room) (setCurrent cur g1) eq_refl)
    as (g' & Hg' & _ & Hd & Hp & Hb & Hm & Hf & Hc).
  exists g'. repeat split; try done.
  by rewrite Hf; cbn [finished setCurrent playersState players setGame]; rewrite Hfin.
Qed.

End Resolution.

Section Plays.
Implicit Types (room : Room) (g : GameState) (ps : PlayerState)
  (sid x : string) (req : PlayCards) (z : Zone) (played : list Card)
  (first : Card).

Lemma hasCurrent_next room g g1 sid k fin :
  game room = Some g → finished g1 = finished g →
  (∀ y, y ∈ fin → y ∉ finished g → nextPlayerId room sid k ≠ Some y) →
  hasCurrent fin (nextPlayerId (setGame g1 room) sid k) = false.
Proof.
  intros Hg Hfin Hsub. rewrite (nextPlayerId_setGame _ _ _ _ _ Hg Hfin).
  destruct (nextPlayerId room sid k) as [y|] eqn:Hy; [|done].
  apply bool_decide_eq_false. intros Hin.
  pose proof (nextPlayerId_active _ _ _ _ _ Hg Hy) as Hact.
  apply activeOf_not_finished in Hact. by apply (Hsub y).
Qed.

(** C3. A request of the current player, from the required zone, whose
    first played card may not be played on the pile is answered with
    [ok: true, forcedPickup: true]; the played cards and the whole pile
    are pushed onto the player's hand (as it is once the selection has left
    its zone), the pile is empty, nobody is newly finished, and the turn has
    moved one step to the next active player: going round the table in join
    order from the seat after the player, the first who is not finished
    ([nextActive], which names no array or index of the code). The room is
    one in which the other players without cards are recorded as finished,
    as they are in every room reached from [game:start]
    ([reached_recorded]). *)
Theorem illegal_play_is_forced_pickup room sid req g ps (ps1 : PlayerState)
    z played first :
  accepts room sid req g ps ps1 z played →
  head played = Some first →
  canPlayOnPile (r first) (pile g) = false →
  othersRecorded room g sid = true →
  ∃ room' g',
    playCards room sid req = (Success true false, room')
    ∧ game room' = Some g'
    ∧ playersState g'
      = <[sid := setHand (hand ps1 ++ played ++ pile g) ps1]> (playersState g)
    ∧ zoneCards z ps ≡ₚ played ++ zoneCards z ps1
    ∧ (∀ z', z' ≠ z → zoneCards z' ps1 = zoneCards z' ps)
    ∧ pile g' = [] ∧ deck g' = deck g ∧ burned g' = burned g
    ∧ currentPlayerId g' = nextPlayerId room sid 1
    ∧ (sid ∈ activeOf room g →
       currentPlayerId g' = cyclicNext (activeOf room g) sid)
    ∧ finished g' = finished g
    ∧ (NoDup (p_id <$> players room) → sid ∈ p_id <$> players room →
       sid ∉ finished g →
       ∃ y, currentPlayerId g' = Some y
            ∧ nextActive (p_id <$> players room) (finished g) sid y).
Proof.
  intros Hacc Hfirst Hcan Hrec.
  rewrite (playCards_accepts _ _ _ _ _ _ _ _ Hacc).
  destruct Hacc as [Hg _ _ Hps _ _ Hsel].
  apply selectCards_zones in Hsel as (Hz & Hoth & _).
  destruct played as [|c rest]; [done|]. injection Hfirst as ->.
  unfold resolvePlay. rewrite Hcan. cbn [negb].
  set (psF := setHand (hand ps1 ++ (first :: rest) ++ pile g) ps1).
  set (g1 := setPile [] (putPlayer sid psF g)).
  destruct (ensureFinish_after room g g1 (nextPlayerId (setGame g1 room) sid 1) Hg eq_refl)
    as (g' & Hg' & Hd & Hp & Hb & Hm & Hf & Hc).
  assert (Hout : isPlayerOut psF = false).
  { unfold isPlayerOut, psF. cbn [hand setHand].
    rewrite bool_decide_eq_false_2; [done|].
    rewrite !length_app. simpl. lia. }
  cbn [playersState g1 setPile putPlayer setPlayersState] in Hf.
  rewrite (recordFinished_stays _ _ _ _ Hrec Hout) in Hf.
  assert (Hcur : currentPlayerId g' = nextPlayerId room sid 1).
  { rewrite Hc; [by apply (nextPlayerId_setGame room g)|].
    rewrite Hf. by apply (hasCurrent_next room g). }
  exists (ensureFinishAndMaybeEnd
            (setGame (setCurrent (nextPlayerId (setGame g1 room) sid 1) g1) room)), g'.
  do 9 (split; [done|]). split; [|split; [done|]].
  - intros Hact. rewrite Hcur. by apply nextPlayerId_one.
  - intros Hnd Hin Hnf.
    destruct (nextPlayerId_stepsOn room g sid 1 Hg Hnd Hin Hnf)
      as (y & Hy & (y' & Hnext & ->) & _).
    exists y'. split; [by rewrite Hcur|done].
Qed.

Lemma resolvePlay_reply room g sid ps z played first :
  head played = Some first →
  (resolvePlay room g sid ps z played).1
  = if canPlayOnPile (r first) (pile g)
    then if bool_decide (r first = R10) || lastFourNon3Same (pile g ++ played)
         then Success false true else Success false false
    else Success true false.
Proof.
  destruct played as [|c rest]; [done|]. intros [= ->].
  unfold resolvePlay. destruct (canPlayOnPile _ _); [|done]. cbn [negb].
  cbn [pile setPile]. by destruct (_ || _).
Qed.

(** C2. A play whose cards are put on the pile, that is a play that is
    legal on the pile, burns exactly when its rank is 10 or, once its cards
    are on the pile, the last four cards that are not a 3 exist and share a
    rank; with fewer than four such cards there is no four-of-a-kind burn; a
    10 is always legal, so playing it always burns. A play that is not
    legal is a forced pickup: its cards never reach the pile and it does not
    burn. *)
Theorem burn_iff_legal_and_ten_or_four room sid req g ps (ps1 : PlayerState)
    z played first :
  accepts room sid req g ps ps1 z played →
  head played = Some first →
  (isBurned (playCards room sid req).1 = true ↔
     canPlayOnPile (r first) (pile g) = true
     ∧ (r first = R10 ∨ specFourOfAKind (pile g ++ played)))
  ∧ (lastFourNon3Same (pile g ++ played) = true ↔ specFourOfAKind (pile g ++ played))
  ∧ ((length (filter (λ y, y ≠ R3) (r <$> pile g ++ played)) < 4)%nat →
     lastFourNon3Same (pile g ++ played) = false)
  ∧ (r first = R10 → (playCards room sid req).1 = Success false true)
  ∧ (canPlayOnPile (r first) (pile g) = true →
     (isBurned (playCards room sid req).1 = true ↔
        r first = R10 ∨ specFourOfAKind (pile g ++ played)))
  ∧ (canPlayOnPile (r first) (pile g) = false →
     (playCards room sid req).1 = Success true false).
Proof.
  intros Hacc Hfirst.
  rewrite (playCards_accepts _ _ _ _ _ _ _ _ Hacc).
  rewrite (resolvePlay_reply _ _ _ _ _ _ _ Hfirst).
  assert (Hiff : isBurned
                   (if canPlayOnPile (r first) (pile g)
                    then if bool_decide (r first = R10)
                            || lastFourNon3Same (pile g ++ played)
                         then Success false true else Success false false
                    else Success true false) = true
                 ↔ canPlayOnPile (r first) (pile g) = true
                   ∧ (r first = R10 ∨ specFourOfAKind (pile g ++ played))).
  { destruct (canPlayOnPile _ _); [|by split; [|intros [? _]]].
    destruct (bool_decide (r first = R10) || lastFourNon3Same (pile g ++ played)) eqn:Hb.
    + split; [intros _; split; [done|]|done].
      apply orb_true_iff in Hb as [Hb|Hb].
      * left. by apply bool_decide_eq_true in Hb.
      * right. by apply lastFourNon3Same_spec.
    + split; [done|]. intros [_ Hor]. apply orb_false_iff in Hb as [Hten Hfour].
      destruct Hor as [Hr|Hs].
      * by rewrite bool_decide_eq_true_2 in Hten.
      * apply lastFourNon3Same_spec in Hs. congruence. }
  split; [exact Hiff|].
  split; [apply lastFourNon3Same_spec|]. split; [apply lastFourNon3Same_short|].
  split; [|split].
  - intros Hten. unfold canPlayOnPile, isMagic. by rewrite Hten.
  - intros Hcan. rewrite Hiff. tauto.
  - intros Hcan. by rewrite Hcan.
Qed.

(** The optional draw after a play, on a game whose entry for the player
    is [ps]: the entry and the deck it leaves. *)
Lemma maybeDraw_spec g sid ps z :
  playersState g !! sid = Some ps →
  ∃ ps' d',
    (if bool_decide (z = ZHand) then drawUpToThree g sid else g)
    = setDeck d' (putPlayer sid ps' g)
    ∧ (z = ZHand →
       ps' = setHand (hand ps ++ take (3 - length (hand ps)) (deck g)) ps
       ∧ d' = drop (3 - length (hand ps)) (deck g)
       ∧ ((3 ≤ length (hand ps'))%nat ∨ d' = []))
    ∧ (z ≠ ZHand → ps' = ps ∧ d' = deck g)
    ∧ faceUp ps' = faceUp ps ∧ faceDown ps' = faceDown ps ∧ stage ps' = stage ps.
Proof.
  intros Hps. case_bool_decide as Hz.
  - eexists _, _. split; [by apply drawUpToThree_spec|].
    split; [|done]. intros _. split; [done|]. split; [done|].
    eapply drawLoop_full. by rewrite drawLoop_take.
  - exists ps, (deck g). split; [|done].
    unfold setDeck, putPlayer, setPlayersState. cbn.
    rewrite insert_id by done. by destruct g.
Qed.

(** A current player who is recorded as finished does not keep the turn. *)
Lemma ensureFinish_moves room g g' c :
  game room = Some g → currentPlayerId g = Some c →
  game (ensureFinishAndMaybeEnd room) = Some g' →
  c ∈ finished g' → currentPlayerId g' ≠ Some c.
Proof.
  intros Hg Hc. unfold ensureFinishAndMaybeEnd. rewrite Hg.
  set (fin := recordFinished (playersState g) (players room) (finished g)).
  assert (Hact : ∀ l i, activeIds l fin !! i ≠ Some c ∨ c ∉ fin).
  { intros l i. destruct (decide (c ∈ fin)); [left|by right].
    intros Hl. apply list_elem_of_lookup_2, list_elem_of_filter in Hl. tauto. }
  destruct (bool_decide _ && bool_decide _).
  - cbn [currentPlayerId setWinnerLoser setFinished]. rewrite Hc. cbn [hasCurrent].
    case_bool_decide as Hin; cbn [game setGame setPhase]; intros [= <-];
      cbn [finished currentPlayerId loserId setCurrent setWinnerLoser setFinished];
      [|done].
    intros _. by destruct (Hact (p_id <$> players room) O).
  - cbn [currentPlayerId setFinished]. rewrite Hc.
    case_bool_decide as Hin; cbn [game setGame]; intros [= <-];
      cbn [finished currentPlayerId setCurrent setFinished]; [|done].
    intros _ Hnext.
    apply (nextPlayerId_active _ (setFinished fin g)), activeOf_not_finished in Hnext;
      done.
Qed.

(** C4, with the case of the last card set apart. A legal play that burns moves the whole pile, the
    cards just played included, onto the burned pile and leaves the pile
    empty; the hand is filled up to three cards from the deck exactly when
    the cards came from the hand; the answer carries [burned: true]; and
    the turn stays with the player as long as the player still holds a
    card. A player whose last card went into the burn is recorded as
    finished and does not keep the turn. *)
Theorem burning_play room sid req g ps (ps1 : PlayerState) z played first :
  accepts room sid req g ps ps1 z played →
  head played = Some first →
  canPlayOnPile (r first) (pile g) = true →
  r first = R10 ∨ specFourOfAKind (pile g ++ played) →
  ∃ room' g' ps',
    playCards room sid req = (Success false true, room')
    ∧ game room' = Some g'
    ∧ pile g' = [] ∧ burned g' = burned g ++ pile g ++ played
    ∧ playersState g' = <[sid := ps']> (playersState g)
    ∧ (z = ZHand →
       ps' = setHand (hand ps1 ++ take (3 - length (hand ps1)) (deck g)) ps1
       ∧ deck g' = drop (3 - length (hand ps1)) (deck g)
       ∧ ((3 ≤ length (hand ps'))%nat ∨ deck g' = []))
    ∧ (z ≠ ZHand → ps' = ps1 ∧ deck g' = deck g)
    ∧ (sid ∉ finished g → isPlayerOut ps' = false →
       currentPlayerId g' = Some sid ∧ sid ∉ finished g')
    ∧ (sid ∈ p_id <$> players room → isPlayerOut ps' = true →
       sid ∈ finished g' ∧ currentPlayerId g' ≠ Some sid).
Proof.
  intros Hacc Hfirst Hcan Hburn.
  rewrite (playCards_accepts _ _ _ _ _ _ _ _ Hacc).
  destruct Hacc as [Hg _ Hturn Hps _ _ Hsel].
  destruct played as [|c rest]; [done|]. injection Hfirst as ->.
  unfold resolvePlay. rewrite Hcan. cbn [negb pile setPile].
  assert (Hb : bool_decide (r first = R10)
               || lastFourNon3Same (pile g ++ first :: rest) = true).
  { apply orb_true_iff. destruct Hburn as [?|Hs].
    - left. by apply bool_decide_eq_true.
    - right. by apply lastFourNon3Same_spec. }
  rewrite Hb. cbn [burned setPile putPlayer setPlayersState].
  set (g2 := setPile [] (setBurned _ _)).
  destruct (maybeDraw_spec g2 sid ps1 z) as (ps' & d' & -> & Hhand & Hnohand & _).
  { apply lookup_insert_eq. }
  set (g3 := setDeck d' (putPlayer sid ps' g2)).
  destruct (ensureFinish_game (setGame g3 room) g3 eq_refl)
    as (g' & Hg' & _ & Hd & Hp & Hbn & Hm & Hf & Hc).
  cbn [players setGame currentPlayerId finished g3 g2 setDeck putPlayer
       setPlayersState setPile setBurned playersState] in Hf, Hc, Hm.
  rewrite insert_insert_eq in Hm, Hf.
  exists (ensureFinishAndMaybeEnd (setGame g3 room)), g', ps'.
  split; [done|]. split; [done|]. split; [done|]. split; [done|]. split; [done|].
  split; [|split; [|split]].
  - intros Hz. destruct (Hhand Hz) as (-> & -> & Hfull). by rewrite Hd.
  - intros Hz. destruct (Hnohand Hz) as (-> & ->). by rewrite Hd.
  - intros Hnfin Hout.
    assert (Hstill : sid ∉ finished g').
    { rewrite Hf. intros Hin.
      apply recordFinished_elem in Hin as [?|(p & st & _ & _ & Hst & Hst_out)]; [done|].
      rewrite lookup_insert_eq in Hst. congruence. }
    split; [|done]. rewrite Hc, Hturn; [done|]. rewrite Hturn.
    by apply bool_decide_eq_false.
  - intros Hin Hout. apply list_elem_of_fmap in Hin as (p & -> & Hp').
    assert (Hrecd : p_id p ∈ finished g').
    { rewrite Hf. eapply recordFinished_records; [done| |done]. apply lookup_insert_eq. }
    split; [done|].
    by apply (ensureFinish_moves (setGame g3 room) g3 g' (p_id p)).
Qed.

(** C5, with the case of the last card set apart. A legal play that does
    not burn puts the played cards
    on the pile in order; the hand is filled up to three cards from the
    deck when the cards came from the hand; and the turn is set
    [1 + (number of 8s played)] steps on, each step going to the next
    player in join order among the active players and wrapping round,
    however many steps there are ([stepsOn], which names no array or index
    of the code). The turn ends up there unless the steps lead back to the
    player and the player has just emptied all three zones; a player who
    has is recorded as finished and the finish resolution takes the turn
    away. The room is one in which the other players without cards are
    recorded as finished ([reached_recorded]). *)
Theorem plain_play room sid req g ps (ps1 : PlayerState) z played first :
  accepts room sid req g ps ps1 z played →
  head played = Some first →
  canPlayOnPile (r first) (pile g) = true →
  r first ≠ R10 →
  ¬ specFourOfAKind (pile g ++ played) →
  othersRecorded room g sid = true →
  ∃ room' g' ps',
    playCards room sid req = (Success false false, room')
    ∧ game room' = Some g'
    ∧ pile g' = pile g ++ played ∧ burned g' = burned g
    ∧ playersState g' = <[sid := ps']> (playersState g)
    ∧ (z = ZHand →
       ps' = setHand (hand ps1 ++ take (3 - length (hand ps1)) (deck g)) ps1
       ∧ deck g' = drop (3 - length (hand ps1)) (deck g)
       ∧ ((3 ≤ length (hand ps'))%nat ∨ deck g' = []))
    ∧ (z ≠ ZHand → ps' = ps1 ∧ deck g' = deck g)
    ∧ (nextPlayerId room sid (1 + countEights played) ≠ Some sid
       ∨ isPlayerOut ps' = false →
       currentPlayerId g' = nextPlayerId room sid (1 + countEights played))
    ∧ (NoDup (activeOf room g) → sid ∈ activeOf room g →
       nextPlayerId room sid (1 + countEights played)
       = advance (activeOf room g) (1 + countEights played) sid)
    ∧ (NoDup (p_id <$> players room) → sid ∈ p_id <$> players room →
       sid ∉ finished g →
       ∃ y, stepsOn (p_id <$> players room) (finished g)
              (1 + length (filter (λ c : Card, r c = R8) played)) sid y
            ∧ (y ≠ sid ∨ isPlayerOut ps' = false → currentPlayerId g' = Some y)
            ∧ (isPlayerOut ps' = false → finished g' = finished g)
            ∧ (isPlayerOut ps' = true →
               sid ∈ finished g' ∧ currentPlayerId g' ≠ Some sid)).
Proof.
  intros Hacc Hfirst Hcan Hten Hfour Hrec.
  rewrite (playCards_accepts _ _ _ _ _ _ _ _ Hacc).
  destruct Hacc as [Hg _ Hturn Hps _ _ Hsel].
  destruct played as [|c rest]; [done|]. injection Hfirst as ->.
  unfold resolvePlay. rewrite Hcan. cbn [negb pile setPile].
  assert (Hb : bool_decide (r first = R10)
               || lastFourNon3Same (pile g ++ first :: rest) = false).
  { apply orb_false_iff. split.
    - by apply bool_decide_eq_false.
    - destruct (lastFourNon3Same _) eqn:Hl; [|done].
      by apply lastFourNon3Same_spec in Hl. }
  rewrite Hb. set (steps := (1 + countEights (first :: rest))%nat).
  set (g1 := setPile _ _).
  destruct (maybeDraw_spec g1 sid ps1 z) as (ps' & d' & -> & Hhand & Hnohand & _).
  { apply lookup_insert_eq. }
  set (g2 := setDeck d' (putPlayer sid ps' g1)).
  destruct (ensureFinish_after room g g2 (nextPlayerId (setGame g2 room) sid steps)
              Hg eq_refl)
    as (g' & Hg' & Hd & Hp & Hbn & Hm & Hf & Hc).
  cbn [g2 g1 setDeck putPlayer setPlayersState setPile playersState] in Hf, Hm.
  rewrite insert_insert_eq in Hm, Hf.
  exists (ensureFinishAndMaybeEnd
            (setGame (setCurrent (nextPlayerId (setGame g2 room) sid steps) g2) room)),
    g', ps'.
  assert (Hlands : nextPlayerId room sid steps ≠ Some sid ∨ isPlayerOut ps' = false →
            currentPlayerId g' = nextPlayerId room sid steps).
  { intros Hcase. rewrite Hc; [by apply (nextPlayerId_setGame room g)|].
    rewrite Hf. apply (hasCurrent_next room g); [done..|].
    intros y Hy Hny Hland.
    destruct (decide (y = sid)) as [->|Hne].
    + destruct Hcase as [Hl|Hout]; [done|].
      apply recordFinished_elem in Hy as [?|(p & st & _ & _ & Hst & Hst_out)]; [done|].
      rewrite lookup_insert_eq in Hst. congruence.
    + by apply recordFinished_others in Hy. }
  split; [done|]. split; [done|]. split; [done|]. split; [done|]. split; [done|].
  split; [|split; [|split; [done|split]]].
  - intros Hz. destruct (Hhand Hz) as (-> & -> & Hfull). by rewrite Hd.
  - intros Hz. destruct (Hnohand Hz) as (-> & ->). by rewrite Hd.
  - intros Hnd Hact. by apply nextPlayerId_advance.
  - intros Hnd Hin Hnf.
    destruct (nextPlayerId_stepsOn room g sid steps Hg Hnd Hin Hnf)
      as (y & Hy & Hsteps & _).
    exists y. split; [exact Hsteps|]. split; [|split].
    + intros Hcase. rewrite <- Hy. apply Hlands.
      destruct Hcase as [Hne|Hout]; [left|by right]. by rewrite Hy; intros [= ->].
    + intros Hout. rewrite Hf. by apply recordFinished_stays.
    + intros Hout.
      assert (Hrecd : sid ∈ finished g').
      { apply list_elem_of_fmap in Hin as (p & -> & Hp').
        rewrite Hf. eapply recordFinished_records; [done| |done].
        apply lookup_insert_eq. }
      split; [done|].
      destruct (decide (nextPlayerId room sid steps = Some sid)) as [Hback|Hon].
      * apply (ensureFinish_moves
                 (setGame (setCurrent (nextPlayerId (setGame g2 room) sid steps) g2) room)
                 (setCurrent (nextPlayerId (setGame g2 room) sid steps) g2) g' sid);
          [done| |done|done].
        cbn [currentPlayerId setCurrent].
        by rewrite (nextPlayerId_setGame room g).
      * rewrite Hlands; [done|by left].
Qed.
End Plays.

(** ** The setup invariant and runs of messages *)

Section Runs.
Implicit Types (room : Room) (g : GameState) (ps : PlayerState)
  (m : gmap string PlayerState) (sid q : string) (msg : Message).

Lemma setupInv_spec room :
  setupInv room = true ↔
  ∀ g q ps, game room = Some g → playersState g !! q = Some ps → noFaceUpYet ps.
Proof.
  unfold setupInv. destruct (game room) as [g|]; [|by split].
  rewrite forallb_forall. split.
  - intros H g' q ps [= <-] Hq. apply elem_of_map_to_list, list_elem_of_In, H in Hq.
    apply orb_true_iff in Hq as [Hq|Hq]; simpl in Hq.
    + apply negb_true_iff, bool_decide_eq_false in Hq. by intros ?.
    + apply bool_decide_eq_true in Hq. by intros _.
  - intros H [q ps] Hq. apply list_elem_of_In, elem_of_map_to_list in Hq.
    specialize (H g q ps eq_refl Hq). simpl.
    destruct (decide (stage ps = StChooseFaceUp)) as [Hst|Hst].
    + rewrite (bool_decide_eq_true_2 (faceUp ps = [])) by by apply H.
      apply orb_true_r.
    + by rewrite (bool_decide_eq_false_2 (stage ps = StChooseFaceUp)).
Qed.

Lemma onlySender_inv m sid m' :
  onlySender m sid m' →
  (∀ q ps, m !! q = Some ps → noFaceUpYet ps) →
  ∀ q ps, m' !! q = Some ps → noFaceUpYet ps.
Proof.
  intros Hchg Hinv q ps' Hq Hst.
  destruct (Hchg q ps' Hq) as [(_ & ps & Hps & Hfu & Hstage)|(_ & ps & Hps & Hcase)].
  - rewrite Hfu. apply (Hinv q ps Hps). destruct Hstage; congruence.
  - destruct Hcase as [?|[Hstage Hfu]]; [done|].
    apply Hfu, (Hinv q ps Hps). congruence.
Qed.

Lemma onlySender_insert m sid ps ps' :
  m !! sid = Some ps →
  stage ps' ≠ StChooseFaceUp ∨ stage ps' = stage ps ∧ (faceUp ps = [] → faceUp ps' = []) →
  onlySender m sid (<[sid := ps']> m).
Proof.
  intros Hps Hcase q st Hq. destruct (decide (q = sid)) as [->|Hne].
  - rewrite lookup_insert_eq in Hq. injection Hq as <-. right. eauto.
  - rewrite lookup_insert_ne in Hq by done. left. eauto 10.
Qed.

(** Name the game that comes out of the finish resolution in the goal,
    with its player states. *)
Ltac finish_fields g' Hg' Hm :=
  match goal with
  | |- context [ensureFinishAndMaybeEnd (setGame ?gx ?rm)] =>
      destruct (ensureFinish_game (setGame gx rm) gx eq_refl)
        as (g' & Hg' & _ & _ & _ & _ & Hm & _)
  end.

Lemma onlySender_refl m sid : onlySender m sid m.
Proof.
  intros q ps Hq. destruct (decide (q = sid)) as [->|Hne].
  - right. eauto 10.
  - left. eauto 10.
Qed.

Lemma resolvePlay_players room g sid ps z played :
  ∃ g' ps', game (resolvePlay room g sid ps z played).2 = Some g'
    ∧ playersState g' = <[sid := ps']> (playersState g)
    ∧ stage ps' = stage ps ∧ faceUp ps' = faceUp ps.
Proof.
  unfold resolvePlay. destruct played as [|first rest]; [by eexists _, _|].
  destruct (negb _).
  { finish_fields g' Hg' Hm.
    cbn [snd]. exists g'. eexists. split; [exact Hg'|]. rewrite Hm.
    cbn [playersState setCurrent setPile putPlayer setPlayersState].
    split; [reflexivity|done]. }
  destruct (_ || _); cbn [snd].
  - set (g2 := setPile [] _).
    destruct (maybeDraw_spec g2 sid ps z) as (ps' & d' & -> & _ & _ & Hfu & _ & Hst).
    { apply lookup_insert_eq. }
    finish_fields g' Hg' Hm.
    exists g', ps'. split; [done|]. rewrite Hm. split; [|done].
    cbn. by rewrite insert_insert_eq.
  - set (g1 := setPile _ _).
    destruct (maybeDraw_spec g1 sid ps z) as (ps' & d' & -> & _ & _ & Hfu & _ & Hst).
    { apply lookup_insert_eq. }
    finish_fields g' Hg' Hm.
    exists g', ps'. split; [done|]. rewrite Hm. split; [|done].
    cbn. by rewrite insert_insert_eq.
Qed.

Lemma playCards_players room sid req g :
  game room = Some g →
  ∃ g', game (playCards room sid req).2 = Some g'
    ∧ onlySender (playersState g) sid (playersState g').
Proof.
  intros Hg. destruct (isFailure (playCards room sid req).1) eqn:Hf.
  - rewrite playCards_failure by done. exists g. split; [done|apply onlySender_refl].
  - destruct (playCards_accepted _ _ _ Hf) as (g0 & ps & ps1 & z & played & Hacc).
    rewrite (playCards_accepts _ _ _ _ _ _ _ _ Hacc).
    destruct Hacc as [Hg0 _ _ Hps _ _ Hsel].
    assert (g0 = g) as -> by congruence.
    destruct (resolvePlay_players room g sid ps1 z played)
      as (g' & ps' & Hg' & Hm & Hst & Hfu).
    exists g'. split; [done|]. rewrite Hm.
    apply selectCards_zones in Hsel as (Hz & Hoth & Hst1 & _).
    apply (onlySender_insert _ _ ps); [done|]. right.
    split; [congruence|]. intros Hnil. rewrite Hfu.
    destruct (decide (z = ZFaceUp)) as [->|Hne].
    + simpl in Hz. rewrite Hnil in Hz. apply Permutation_nil_l in Hz.
      symmetry in Hz. by apply app_eq_nil in Hz as [_ ?].
    + specialize (Hoth ZFaceUp (not_eq_sym Hne)). simpl in Hoth. congruence.
Qed.

Lemma playPickup_players room sid g :
  game room = Some g →
  ∃ g', game (playPickup room sid).2 = Some g'
    ∧ onlySender (playersState g) sid (playersState g').
Proof.
  intros Hg. unfold playPickup. rewrite Hg.
  case_bool_decide; [exists g; split; [done|apply onlySender_refl]|].
  case_bool_decide; [exists g; split; [done|apply onlySender_refl]|].
  destruct (playersState g !! sid) as [ps|] eqn:Hps;
    [|exists g; split; [done|apply onlySender_refl]].
  finish_fields g' Hg' Hm.
  cbn [snd]. exists g'. split; [done|]. rewrite Hm.
  cbn. apply (onlySender_insert _ _ ps); [done|]. by right.
Qed.

Lemma setFaceUpHandler_players room sid ids g :
  game room = Some g →
  ∃ g', game (setFaceUpHandler room sid ids).2 = Some g'
    ∧ onlySender (playersState g) sid (playersState g').
Proof.
  intros Hg. unfold setFaceUpHandler. rewrite Hg.
  destruct (playersState g !! sid) as [you|] eqn:Hyou;
    [|exists g; split; [done|apply onlySender_refl]].
  case_bool_decide; [exists g; split; [done|apply onlySender_refl]|].
  case_bool_decide; [exists g; split; [done|apply onlySender_refl]|].
  destruct (negb _); [exists g; split; [done|apply onlySender_refl]|].
  destruct (allReady _); cbn [snd game setGame]; eexists; (split; [reflexivity|]).
  - cbn [playersState putPlayer setPlayersState]. intros q ps'.
    rewrite lookup_fmap. destruct (decide (q = sid)) as [->|Hne].
    + rewrite lookup_insert_eq. intros [= <-]. right. split; [done|].
      exists you. split; [done|]. by left.
    + rewrite lookup_insert_ne by done.
      destruct (playersState g !! q) as [ps|] eqn:Hq; [|done].
      intros [= <-]. left. split; [done|]. exists ps. split; [done|].
      split; [done|]. by right.
  - cbn. apply (onlySender_insert _ _ you); [done|]. by left.
Qed.

Lemma handle_players room sid msg g :
  game room = Some g →
  ∃ g', game (handle room sid msg).2 = Some g'
    ∧ onlySender (playersState g) sid (playersState g').
Proof.
  destruct msg; simpl.
  - apply setFaceUpHandler_players.
  - apply playCards_players.
  - apply playPickup_players.
Qed.

Lemma handle_no_game room sid msg :
  game room = None → (handle room sid msg).2 = room.
Proof.
  intros Hg. destruct msg; simpl.
  - unfold setFaceUpHandler. by rewrite Hg.
  - unfold playCards. by rewrite Hg.
  - unfold playPickup. by rewrite Hg.
Qed.

Lemma handle_setupInv room sid msg :
  setupInv room = true → setupInv (handle room sid msg).2 = true.
Proof.
  intros Hinv. destruct (game room) as [g|] eqn:Hg.
  - destruct (handle_players room sid msg g Hg) as (g' & Hg' & Hchg).
    apply setupInv_spec. intros g0 q ps. rewrite Hg'. intros [= <-].
    apply (onlySender_inv _ _ _ Hchg). intros q' ps'.
    by apply (proj1 (setupInv_spec room) Hinv g).
  - by rewrite handle_no_game.
Qed.

Lemma handle_cards room sid msg :
  setupInv room = true → roomCards (handle room sid msg).2 ≡ₚ roomCards room.
Proof.
  intros Hinv. destruct msg; simpl.
  - apply setFaceUpHandler_cards. intros g you Hg Hyou.
    by apply (proj1 (setupInv_spec room) Hinv g sid).
  - apply playCards_cards.
  - apply playPickup_cards.
Qed.

Lemma run_cards room msgs :
  setupInv room = true →
  setupInv (run room msgs) = true ∧ roomCards (run room msgs) ≡ₚ roomCards room.
Proof.
  revert room. induction msgs as [|[sid msg] msgs IH]; intros room Hinv; simpl; [done|].
  destruct (IH (handle room sid msg).2) as [Hinv' Hcards];
    [by apply handle_setupInv|].
  split; [done|]. rewrite Hcards. by apply handle_cards.
Qed.

Lemma deal_cards (players : list Player) (d : list Card) m :
  NoDup (p_id <$> players) →
  (∀ p, p ∈ players → m !! p_id p = None) →
  (deal players d m).1 ++ playersCards (deal players d m).2 ≡ₚ d ++ playersCards m.
Proof.
  revert d m. induction players as [|p rest IH]; intros d m Hnd Hfresh; [done|].
  rewrite fmap_cons in Hnd. apply NoDup_cons in Hnd as [Hp Hnd].
  cbn [deal]. rewrite IH; [|done|].
  - rewrite playersCards_insert_fresh by (apply Hfresh; by left).
    unfold playerCards. cbn [hand faceUp faceDown].
    rewrite <- (take_drop 3 d) at 4.
    rewrite <- (take_drop 6 (drop 3 d)) at 3.
    solve_Permutation.
  - intros q Hq. rewrite lookup_insert_ne; [apply Hfresh; by right|].
    intros Heq. apply Hp. rewrite Heq. by apply list_elem_of_fmap_2.
Qed.

Lemma deal_noFaceUp (players : list Player) (d : list Card) m :
  (∀ q ps, m !! q = Some ps → noFaceUpYet ps) →
  ∀ q ps, (deal players d m).2 !! q = Some ps → noFaceUpYet ps.
Proof.
  revert d m. induction players as [|p rest IH]; intros d m Hinv; [done|].
  cbn [deal]. apply IH. intros q ps. destruct (decide (q = p_id p)) as [->|Hne].
  - rewrite lookup_insert_eq. by intros [= <-] _.
  - rewrite lookup_insert_ne by done. apply Hinv.
Qed.

(** [game:start] puts every card of the shuffled deck in the deck or in
    a player's zones. *)
Lemma gameStart_cards room sid shuffled room0 :
  NoDup (p_id <$> players room) →
  gameStart room sid shuffled = (Success false false, room0) →
  roomCards room0 ≡ₚ shuffled ∧ setupInv room0 = true.
Proof.
  intros Hnd. unfold gameStart.
  case_bool_decide; [done|]. case_bool_decide; [done|]. case_bool_decide; [done|].
  pose proof (deal_cards (players room) shuffled ∅ Hnd (λ p _, lookup_empty _)) as Hc.
  pose proof (deal_noFaceUp (players room) shuffled ∅) as Hi.
  destruct (deal (players room) shuffled ∅) as [d m]. intros [= <-]. split.
  - unfold roomCards, allCards. cbn. cbn in Hc. rewrite Hc.
    unfold playersCards. rewrite map_to_list_empty. cbn. by rewrite app_nil_r.
  - apply setupInv_spec. intros g q ps [= <-]. cbn. apply Hi.
    intros q' ps'. by rewrite lookup_empty.
Qed.

(** C10. From the deal of [game:start] on, whatever messages
    [setup:setFaceUp], [play:cards] and [play:pickup] the room handles, the
    cards in the deck, the pile, the burned pile and the players' hands,
    face-up and face-down zones are, counted with multiplicity, the cards of
    the shuffled deck, and so are their ids: each of these operations
    preserves them, whether it plays legally, burns, forces a pickup or is
    turned down. *)
Theorem cards_conserved room sid shuffled room0
    (msgs : list (string * Message)) :
  NoDup (p_id <$> players room) →
  gameStart room sid shuffled = (Success false false, room0) →
  roomCards room0 ≡ₚ shuffled
  ∧ roomCards (run room0 msgs) ≡ₚ shuffled
  ∧ id <$> roomCards (run room0 msgs) ≡ₚ id <$> shuffled
  ∧ ∀ sid' msg,
      roomCards (handle (run room0 msgs) sid' msg).2 ≡ₚ roomCards (run room0 msgs).
Proof.
  intros Hnd Hstart.
  destruct (gameStart_cards _ _ _ _ Hnd Hstart) as [Hcards Hinv].
  destruct (run_cards room0 msgs Hinv) as [Hinv' Hrun].
  split; [done|]. split; [by rewrite Hrun|].
  split; [by rewrite Hrun, Hcards|].
  intros sid' msg. by apply handle_cards.
Qed.

(** C9. A [play:cards] or [setup:setFaceUp] request (or a [play:pickup])
    that is answered with [ok: false] leaves the room exactly as it was:
    deck, pile, burned pile, every player's zones and stage, the turn, the
    finished list, winner, loser and phase. *)
Theorem failure_changes_nothing room sid msg :
  isFailure (handle room sid msg).1 = true → (handle room sid msg).2 = room.
Proof.
  destruct msg; simpl.
  - apply setFaceUpHandler_failure.
  - apply playCards_failure.
  - apply playPickup_failure.
Qed.
End Runs.

(** ** Zones and the face-up choice *)

Section Zones.
Implicit Types (room : Room) (g : GameState) (ps you : PlayerState)
  (sid q : string) (req : PlayCards) (ids : list string).

(** C7. For a player with a state in the game, the required zone is the
    hand whenever the deck has a card, even if the hand is empty; with the
    deck empty it is the hand if that has a card, else the face-up cards if
    there is one, else the face-down cards; and a [play:cards] request
    naming any other source is turned down, the room unchanged, with
    "You must play from ..." once the phase and the turn are right. *)
Theorem required_zone room sid req g ps :
  game room = Some g →
  playersState g !! sid = Some ps →
  (deck g ≠ [] → playerZoneToUse g sid = ZHand)
  ∧ (deck g = [] → hand ps ≠ [] → playerZoneToUse g sid = ZHand)
  ∧ (deck g = [] → hand ps = [] → faceUp ps ≠ [] → playerZoneToUse g sid = ZFaceUp)
  ∧ (deck g = [] → hand ps = [] → faceUp ps = [] → playerZoneToUse g sid = ZFaceDown)
  ∧ (source req ≠ Some (playerZoneToUse g sid) →
     isFailure (playCards room sid req).1 = true
     ∧ (playCards room sid req).2 = room
     ∧ (phase room = PhPlaying → currentPlayerId g = Some sid →
        (playCards room sid req).1
        = Failure ("You must play from " +:+ zoneName (playerZoneToUse g sid)))).
Proof.
  intros Hg Hps.
  assert (Hlen : ∀ l : list Card, (0 < length l)%nat ↔ l ≠ []).
  { intros [|c l]; simpl; split; try done; lia. }
  unfold playerZoneToUse at 1 2 3 4. rewrite Hps.
  split; [|split; [|split; [|split]]].
  - intros Hd. by rewrite bool_decide_eq_true_2 by by apply Hlen.
  - intros -> Hh. simpl. by rewrite bool_decide_eq_true_2 by by apply Hlen.
  - intros -> -> Hf. simpl. by rewrite bool_decide_eq_true_2 by by apply Hlen.
  - by intros -> -> ->.
  - intros Hsrc.
    assert (Hfail : isFailure (playCards room sid req).1 = true
                    ∧ (phase room = PhPlaying → currentPlayerId g = Some sid →
                       (playCards room sid req).1
                       = Failure ("You must play from "
                                  +:+ zoneName (playerZoneToUse g sid)))).
    { unfold playCards. rewrite Hg, Hps.
      case_bool_decide as Hph; [done|]. case_bool_decide as Hturn; [done|].
      by rewrite bool_decide_eq_true_2. }
    destruct Hfail as [Hfail Hmsg]. split; [done|]. split; [|done].
    by apply playCards_failure.
Qed.

Lemma allReady_spec (m : gmap string PlayerState) :
  allReady m = true ↔ ∀ q ps, m !! q = Some ps → stage ps = StReady.
Proof.
  unfold allReady.
  rewrite (forallb_bool_decide (λ kv : string * PlayerState, stage kv.2 = StReady)).
  rewrite Forall_forall. split.
  - intros H q ps Hq. by apply elem_of_map_to_list, H in Hq.
  - intros H [q ps] Hq. apply elem_of_map_to_list in Hq. by apply (H q).
Qed.

(** Three distinct ids of a hand with distinct ids pick three cards. *)
Lemma chosen_length (h : list Card) ids :
  NoDup ids → NoDup (id <$> h) → Forall (λ i, i ∈ id <$> h) ids →
  length (filter (λ c, id c ∈ ids) h) = length ids
  ∧ length (filter (λ c, id c ∉ ids) h) = (length h - length ids)%nat.
Proof.
  intros Hids Hh Hall.
  assert (Hlen : length (filter (λ c, id c ∈ ids) h) = length ids).
  { rewrite <- (length_fmap id (filter _ h)). apply Permutation_length.
    apply NoDup_Permutation; [|done|].
    - apply (sublist_NoDup _ (id <$> h)); [done|].
      apply fmap_sublist, sublist_filter.
    - intros i. rewrite list_elem_of_fmap. split.
      + intros (c & -> & Hc). apply list_elem_of_filter in Hc. tauto.
      + intros Hi. rewrite Forall_forall in Hall.
        pose proof (Hall i Hi) as Hc.
        apply list_elem_of_fmap in Hc as (c & Heq & Hc). subst i.
        exists c. split; [done|]. apply list_elem_of_filter. by split. }
  split; [done|].
  pose proof (filter_app_complement (λ c, id c ∈ ids) h) as Hp.
  apply Permutation_length in Hp. rewrite length_app in Hp. lia.
Qed.

(** The [setup:setFaceUp] handler for a requester with a state in the game:
    when it succeeds, what its failures are, and what a success leaves. *)
Lemma setFaceUpHandler_spec room sid ids g you :
  game room = Some g →
  playersState g !! sid = Some you →
  (isFailure (setFaceUpHandler room sid ids).1 = false ↔
     stage you = StChooseFaceUp ∧ length ids = 3%nat
     ∧ Forall (λ i, i ∈ id <$> hand you) ids)
  ∧ (isFailure (setFaceUpHandler room sid ids).1 = true →
     (setFaceUpHandler room sid ids).2 = room
     ∧ (setFaceUpHandler room sid ids).1
       ∈ [Failure "Already locked in"; Failure "Pick exactly 3 cards";
          Failure "Invalid selection"])
  ∧ (isFailure (setFaceUpHandler room sid ids).1 = false →
     ∃ room' g' you',
       setFaceUpHandler room sid ids = (Success false false, room')
       ∧ game room' = Some g'
       ∧ playersState g' !! sid = Some you'
       ∧ faceUp you' = filter (λ c, id c ∈ ids) (hand you)
       ∧ hand you' = filter (λ c, id c ∉ ids) (hand you)
       ∧ faceDown you' = faceDown you
       ∧ (NoDup ids → NoDup (id <$> hand you) →
          length (faceUp you') = 3%nat
          ∧ length (hand you') = (length (hand you) - 3)%nat)
       ∧ ((∃ q ps, q ≠ sid ∧ playersState g !! q = Some ps ∧ stage ps ≠ StReady) →
          stage you' = StReady ∧ phase room' = phase room)
       ∧ ((∀ q ps, q ≠ sid → playersState g !! q = Some ps → stage ps = StReady) →
          stage you' = StPlaying ∧ phase room' = PhPlaying)).
Proof.
  intros Hg Hyou. unfold setFaceUpHandler. rewrite Hg, Hyou.
  case_bool_decide as Hst.
  { split; [split; [done|tauto]|]. split; [|done].
    intros _. split; [done|]. set_solver. }
  case_bool_decide as Hlen.
  { split; [split; [done|tauto]|]. split; [|done].
    intros _. split; [done|]. set_solver. }
  destruct (forallb _ ids) eqn:Hall; cbn [negb].
  2:{ split; [split; [done|]|].
      - intros (_ & _ & HF).
        apply (forallb_bool_decide (λ i, i ∈ id <$> hand you)) in HF. congruence.
      - split; [|done]. intros _. split; [done|]. set_solver. }
  apply (forallb_bool_decide (λ i, i ∈ id <$> hand you)) in Hall.
  set (you1 := setStage StReady _). set (g1 := putPlayer sid you1 g).
  assert (Hready : allReady (playersState g1) = true ↔
            ∀ q ps, q ≠ sid → playersState g !! q = Some ps → stage ps = StReady).
  { rewrite allReady_spec. cbn. split.
    - intros H q ps Hne Hq. apply (H q). by rewrite lookup_insert_ne.
    - intros H q ps. destruct (decide (q = sid)) as [->|Hne].
      + rewrite lookup_insert_eq. by intros [= <-].
      + rewrite lookup_insert_ne by done. by apply H. }
  assert (Hreply : ∀ b : bool,
            (if b then (Success false false,
                         setGame (setPlayersState (setStage StPlaying <$> playersState g1) g1)
                                 (setPhase PhPlaying room))
             else (Success false false, setGame g1 room)).1 = Success false false)
    by by intros [].
  rewrite Hreply.
  split; [by split|]. split; [done|]. intros _.
  destruct (allReady (playersState g1)) eqn:Har.
  - eexists _, _, (setStage StPlaying you1).
    split; [reflexivity|]. split; [reflexivity|].
    split; [cbn; by rewrite lookup_fmap, lookup_insert_eq|].
    split; [done|]. split; [done|]. split; [done|].
    split; [|split; [|done]].
    + intros Hnd Hndh. cbn. rewrite <- Hlen. by apply chosen_length.
    + intros (q & ps & Hne & Hq & Hps).
      by specialize (proj1 Hready eq_refl q ps Hne Hq).
  - eexists _, _, you1.
    split; [reflexivity|]. split; [reflexivity|].
    split; [cbn; by rewrite lookup_insert_eq|].
    split; [done|]. split; [done|]. split; [done|].
    split; [|split; [done|]].
    + intros Hnd Hndh. cbn. rewrite <- Hlen. by apply chosen_length.
    + intros Hothers. by apply Hready in Hothers.
Qed.
(** C8, with the stage of the last player to lock in. For a requester with
    a state in the game, [setup:setFaceUp] succeeds only when the
    requester's stage is [chooseFaceUp] and [chosenCardIds] holds exactly
    three ids, each the id of a card in the requester's hand; otherwise it
    fails, changing nothing, with "Already locked in", "Pick exactly 3
    cards" or "Invalid selection". With three distinct such ids it succeeds:
    the chosen cards are then the face-up zone and the others stay in the
    hand, three and three out of a six-card hand. The stage is [ready] as
    long as another player has still to lock in; when this was the last
    lock, the room enters the playing phase and the stage is [playing]. *)
Theorem lock_face_up room sid ids g you :
  game room = Some g →
  playersState g !! sid = Some you →
  (isFailure (setFaceUpHandler room sid ids).1 = false →
     stage you = StChooseFaceUp ∧ length ids = 3%nat
     ∧ Forall (λ i, i ∈ id <$> hand you) ids)
  ∧ (isFailure (setFaceUpHandler room sid ids).1 = true →
     (setFaceUpHandler room sid ids).2 = room
     ∧ (setFaceUpHandler room sid ids).1
       ∈ [Failure "Already locked in"; Failure "Pick exactly 3 cards";
          Failure "Invalid selection"])
  ∧ (stage you = StChooseFaceUp → length ids = 3%nat →
     Forall (λ i, i ∈ id <$> hand you) ids → NoDup ids →
     ∃ room' g' you',
       setFaceUpHandler room sid ids = (Success false false, room')
       ∧ game room' = Some g'
       ∧ playersState g' !! sid = Some you'
       ∧ faceUp you' = filter (λ c, id c ∈ ids) (hand you)
       ∧ hand you' = filter (λ c, id c ∉ ids) (hand you)
       ∧ faceDown you' = faceDown you
       ∧ (NoDup (id <$> hand you) →
          length (faceUp you') = 3%nat
          ∧ length (hand you') = (length (hand you) - 3)%nat)
       ∧ ((∃ q ps, q ≠ sid ∧ playersState g !! q = Some ps ∧ stage ps ≠ StReady) →
          stage you' = StReady ∧ phase room' = phase room)
       ∧ ((∀ q ps, q ≠ sid → playersState g !! q = Some ps → stage ps = StReady) →
          stage you' = StPlaying ∧ phase room' = PhPlaying)).
Proof.
  intros Hg Hyou.
  destruct (setFaceUpHandler_spec room sid ids g you Hg Hyou) as (Hiff & Hfail & Hok).
  split; [apply Hiff|]. split; [done|].
  intros Hst Hlen Hall Hnd.
  destruct (Hok (proj2 Hiff (conj Hst (conj Hlen Hall))))
    as (room' & g' & you' & Hreply & Hg' & Hyou' & Hu & Hh & Hd & Hlens & Hready & Hlast).
  exists room', g', you'. repeat (split; [done|]). split; [|done].
  intros Hndh. by apply Hlens.
Qed.

End Zones.

(** ** The end of the game and the turn of a finished player *)

Section EndOfGame.
Implicit Types (room : Room) (g : GameState) (c : string).

(** With one active player left in a room of two or more, the game ends:
    the winner is the first player recorded as finished and the loser the
    one still active. *)
Lemma ensureFinish_ends room g g' x :
  game room = Some g →
  game (ensureFinishAndMaybeEnd room) = Some g' →
  activeOf room g' = [x] → (2 ≤ length (players room))%nat →
  phase (ensureFinishAndMaybeEnd room) = PhEnded
  ∧ winnerId g' = finished g' !! 0%nat
  ∧ loserId g' = Some x.
Proof.
  intros Hg Hg' Hact Hlen.
  destruct (ensureFinish_game room g Hg) as (g0 & Hg0 & _ & _ & _ & _ & _ & Hf & _).
  assert (g0 = g') as -> by congruence.
  unfold activeOf in Hact. rewrite Hf in Hact.
  assert (Hcond : bool_decide (length (activeIds (p_id <$> players room)
                     (recordFinished (playersState g) (players room) (finished g)))
                     = 1%nat)
                  && bool_decide (2 ≤ length (p_id <$> players room))%nat = true).
  { rewrite Hact, length_fmap. by rewrite !bool_decide_eq_true_2. }
  revert Hg'. unfold ensureFinishAndMaybeEnd. rewrite Hg, Hcond, Hact.
  cbn [game phase setGame setPhase]. intros [= <-].
  split; [done|]. by destruct (hasCurrent _ _).
Qed.

(** What [nextPlayerId] answers for a player who is recorded as finished:
    the second of the active players, wherever the finished player sits. *)
Lemma nextPlayerId_finished room g c :
  game room = Some g → c ∈ finished g → activeOf room g ≠ [] →
  nextPlayerId room c 1
  = activeOf room g !! (1 mod length (activeOf room g))%nat.
Proof.
  intros Hg Hc Hne. unfold nextPlayerId. rewrite Hg. fold (activeOf room g).
  assert (Hids : p_id <$> players room ≠ []).
  { intros Hnil. apply Hne. unfold activeOf. by rewrite Hnil. }
  rewrite !bool_decide_eq_false_2
    by (intros Hl; apply nil_length_inv in Hl; done).
  destruct (indexOf (activeOf room g) c) as [i|] eqn:Hi; [|done].
  apply indexOf_Some, list_elem_of_lookup_2 in Hi.
  apply list_elem_of_filter in Hi. tauto.
Qed.
End EndOfGame.

(** ** Joining *)

Section Joining.
Implicit Types (room : Room) (sid : string).

Lemma roomCreate_distinct roomCode sid safeName :
  NoDup (p_id <$> players (roomCreate roomCode sid safeName)).
Proof. apply NoDup_singleton. Qed.

(** [room:join] never enters a socket id twice. *)
Lemma roomJoin_distinct room sid safeName :
  NoDup (p_id <$> players room) → NoDup (p_id <$> players (roomJoin room sid safeName)).
Proof.
  intros Hnd. unfold roomJoin. case_bool_decide as Hin; [done|]. cbn [players].
  rewrite fmap_app. apply NoDup_app. split; [done|]. split.
  - intros x Hx Hsid. apply list_elem_of_singleton in Hsid. by subst.
  - apply NoDup_singleton.
Qed.

Lemma roomJoin_twice room sid name1 name2 :
  roomJoin (roomJoin room sid name1) sid name2 = roomJoin room sid name1.
Proof.
  unfold roomJoin at 1. rewrite bool_decide_eq_true_2; [done|].
  unfold roomJoin. case_bool_decide as Hin; [done|]. cbn [players].
  rewrite fmap_app. apply elem_of_app. right. by left.
Qed.
End Joining.

(** ** Rooms reached from the start of a game *)

Section Reachable.
Implicit Types (room : Room) (g : GameState) (ps : PlayerState)
  (m : gmap string PlayerState) (sid q : string) (msg : Message).

(** The finish resolution records every player without cards, and leaves
    the phase alone or ends the game. *)
Lemma ensureFinish_recorded room g :
  game room = Some g →
  ∃ g', game (ensureFinishAndMaybeEnd room) = Some g'
    ∧ playersState g' = playersState g
    ∧ recorded (ensureFinishAndMaybeEnd room) g'
    ∧ (phase (ensureFinishAndMaybeEnd room) = phase room
       ∨ phase (ensureFinishAndMaybeEnd room) = PhEnded).
Proof.
  intros Hg.
  destruct (ensureFinish_game room g Hg) as (g' & Hg' & Hpl & _ & _ & _ & Hm & Hf & _).
  exists g'. split; [done|]. split; [done|]. split.
  - intros p st. rewrite Hpl, Hm, Hf. apply recordFinished_records.
  - unfold ensureFinishAndMaybeEnd. rewrite Hg.
    destruct (bool_decide _ && bool_decide _); [by right|left].
    destruct (currentPlayerId _); [|done]. by case_bool_decide.
Qed.

Lemma recorded_others room g sid :
  recorded room g → othersRecorded room g sid = true.
Proof.
  intros Hrec. apply othersRecorded_spec. intros p st Hp _. by apply Hrec.
Qed.

(** What a play that is resolved leaves behind. *)
Lemma resolvePlay_recorded room g sid ps z played :
  played ≠ [] →
  ∃ g' ps', game (resolvePlay room g sid ps z played).2 = Some g'
    ∧ playersState g' = <[sid := ps']> (playersState g)
    ∧ stage ps' = stage ps
    ∧ recorded (resolvePlay room g sid ps z played).2 g'
    ∧ (phase (resolvePlay room g sid ps z played).2 = phase room
       ∨ phase (resolvePlay room g sid ps z played).2 = PhEnded).
Proof.
  intros Hne. unfold resolvePlay. destruct played as [|first rest]; [done|].
  destruct (negb _).
  { cbn [snd].
    match goal with |- context [ensureFinishAndMaybeEnd (setGame ?gx ?rm)] =>
      destruct (ensureFinish_recorded (setGame gx rm) gx eq_refl)
        as (g' & Hg' & Hm & Hrec & Hph) end.
    exists g'. eexists. split; [exact Hg'|]. rewrite Hm.
    cbn [playersState setCurrent setPile putPlayer setPlayersState].
    split; [reflexivity|]. by split. }
  destruct (_ || _); cbn [snd].
  - set (g2 := setPile [] _).
    destruct (maybeDraw_spec g2 sid ps z) as (ps' & d' & -> & _ & _ & _ & _ & Hst).
    { apply lookup_insert_eq. }
    match goal with |- context [ensureFinishAndMaybeEnd (setGame ?gx ?rm)] =>
      destruct (ensureFinish_recorded (setGame gx rm) gx eq_refl)
        as (g' & Hg' & Hm & Hrec & Hph) end.
    exists g', ps'. split; [done|]. rewrite Hm. split; [|done].
    cbn. by rewrite insert_insert_eq.
  - set (g1 := setPile _ _).
    destruct (maybeDraw_spec g1 sid ps z) as (ps' & d' & -> & _ & _ & _ & _ & Hst).
    { apply lookup_insert_eq. }
    match goal with |- context [ensureFinishAndMaybeEnd (setGame ?gx ?rm)] =>
      destruct (ensureFinish_recorded (setGame gx rm) gx eq_refl)
        as (g' & Hg' & Hm & Hrec & Hph) end.
    exists g', ps'. split; [done|]. rewrite Hm. split; [|done].
    cbn. by rewrite insert_insert_eq.
Qed.

Lemma playing_inv room g (room' : Room) g' sid ps ps' :
  gameInv room → game room = Some g → phase room = PhPlaying →
  playersState g !! sid = Some ps →
  game room' = Some g' → playersState g' = <[sid := ps']> (playersState g) →
  stage ps' = stage ps → recorded room' g' →
  phase room' = phase room ∨ phase room' = PhEnded →
  gameInv room'.
Proof.
  unfold gameInv. intros Hinv Hg Hph Hps Hg' Hm Hst Hrec Hph'.
  rewrite Hg, Hph in Hinv. rewrite Hg'.
  rewrite decide_False in Hinv by done. destruct Hinv as [Hstages _].
  rewrite decide_False by (destruct Hph' as [->| ->]; [by rewrite Hph|done]).
  split; [|done]. intros q st. rewrite Hm.
  destruct (decide (q = sid)) as [->|Hq].
  - rewrite lookup_insert_eq. intros [= <-]. rewrite Hst. by apply (Hstages sid).
  - rewrite lookup_insert_ne by done. apply Hstages.
Qed.

Lemma playCards_inv room sid req : gameInv room → gameInv (playCards room sid req).2.
Proof.
  intros Hinv. destruct (isFailure (playCards room sid req).1) eqn:Hf.
  - by rewrite playCards_failure.
  - destruct (playCards_accepted _ _ _ Hf) as (g & ps & ps1 & z & played & Hacc).
    rewrite (playCards_accepts _ _ _ _ _ _ _ _ Hacc).
    destruct Hacc as [Hg Hph _ Hps _ _ Hsel].
    destruct (resolvePlay_recorded room g sid ps1 z played)
      as (g' & ps' & Hg' & Hm & Hst & Hrec & Hph');
      [by eapply selectCards_nonempty|].
    apply selectCards_zones in Hsel as (_ & _ & Hst1 & _).
    eapply (playing_inv room g _ g' sid ps ps'); try done. congruence.
Qed.

Lemma playPickup_inv room sid : gameInv room → gameInv (playPickup room sid).2.
Proof.
  intros Hinv. unfold playPickup. destruct (game room) as [g|] eqn:Hg; [|done].
  case_bool_decide as Hph; [done|]. case_bool_decide; [done|].
  destruct (playersState g !! sid) as [ps|] eqn:Hps; [|done]. cbn [snd].
  match goal with |- context [ensureFinishAndMaybeEnd (setGame ?gx ?rm)] =>
    destruct (ensureFinish_recorded (setGame gx rm) gx eq_refl)
      as (g' & Hg' & Hm & Hrec & Hph') end.
  by apply (playing_inv room g _ g' sid ps (setHand (hand ps ++ pile g) ps)).
Qed.

(** Three ids, each of a card in the hand, choose at least one card. *)
Lemma chosen_nonempty (h : list Card) (ids : list string) :
  length ids = 3%nat → Forall (λ i, i ∈ id <$> h) ids →
  filter (λ c, id c ∈ ids) h ≠ [].
Proof.
  intros Hlen Hall. destruct ids as [|i ids]; [done|].
  apply Forall_cons in Hall as [Hi _].
  apply list_elem_of_fmap in Hi as (c & -> & Hc). intros Hnil.
  assert (Hin : c ∈ filter (λ c0, id c0 ∈ id c :: ids) h).
  { apply list_elem_of_filter. split; [by left|done]. }
  rewrite Hnil in Hin. by apply elem_of_nil in Hin.
Qed.

Lemma setFaceUpHandler_inv room sid ids :
  gameInv room → gameInv (setFaceUpHandler room sid ids).2.
Proof.
  intros Hinv. destruct (isFailure (setFaceUpHandler room sid ids).1) eqn:Hf.
  { by rewrite setFaceUpHandler_failure. }
  revert Hf. unfold setFaceUpHandler. destruct (game room) as [g|] eqn:Hg; [|done].
  destruct (playersState g !! sid) as [you|] eqn:Hyou; [|done].
  case_bool_decide as Hst; [done|]. case_bool_decide as Hlen; [done|].
  destruct (forallb _ ids) eqn:Hall; [|done]. cbn [negb]. intros _.
  apply (forallb_bool_decide (λ i, i ∈ id <$> hand you)) in Hall.
  pose proof (chosen_nonempty (hand you) ids Hlen Hall) as Hchosen.
  unfold gameInv in Hinv. rewrite Hg in Hinv.
  destruct (decide (phase room = PhSetup)) as [Hph|Hph].
  2:{ destruct Hinv as [Hstages _]. specialize (Hstages sid you Hyou). congruence. }
  set (you1 := setStage StReady _). set (g1 := putPlayer sid you1 g).
  assert (Hm1 : ∀ q ps, playersState g1 !! q = Some ps →
            stage ps = StChooseFaceUp ∨ (stage ps = StReady ∧ faceUp ps ≠ [])).
  { intros q ps. cbn. destruct (decide (q = sid)) as [->|Hq].
    - rewrite lookup_insert_eq. intros [= <-]. by right.
    - rewrite lookup_insert_ne by done. apply Hinv. }
  destruct (allReady (playersState g1)) eqn:Har; cbn [snd]; unfold gameInv;
    cbn [game phase setGame setPhase].
  - rewrite decide_False by done. split.
    + intros q ps. cbn [playersState setPlayersState]. rewrite lookup_fmap.
      destruct (playersState g1 !! q); [|done]. by intros [= <-].
    + intros p st _. cbn [playersState setPlayersState]. rewrite lookup_fmap.
      destruct (playersState g1 !! p_id p) as [st0|] eqn:Hst0; [|done].
      intros [= <-].
      destruct (Hm1 _ _ Hst0) as [Hc|[_ Hfu]].
      * apply allReady_spec with (q := p_id p) (ps := st0) in Har; [congruence|done].
      * unfold isPlayerOut. cbn [hand faceUp faceDown setStage].
        rewrite (bool_decide_eq_false_2 (length (faceUp st0) = 0%nat));
          [by rewrite andb_false_r|].
        intros Hz. by apply nil_length_inv in Hz.
  - by rewrite decide_True.
Qed.

Lemma handle_inv room sid msg : gameInv room → gameInv (handle room sid msg).2.
Proof.
  destruct msg; simpl.
  - apply setFaceUpHandler_inv.
  - apply playCards_inv.
  - apply playPickup_inv.
Qed.

Lemma gameStart_inv room sid shuffled room0 :
  gameStart room sid shuffled = (Success false false, room0) → gameInv room0.
Proof.
  unfold gameStart.
  case_bool_decide; [done|]. case_bool_decide; [done|]. case_bool_decide; [done|].
  assert (Hdeal : ∀ (l : list Player) d m,
            (∀ q ps, m !! q = Some ps → stage ps = StChooseFaceUp) →
            ∀ q ps, (deal l d m).2 !! q = Some ps → stage ps = StChooseFaceUp).
  { induction l as [|p l IH]; intros d m Hm; [done|].
    cbn [deal]. apply IH. intros q ps. destruct (decide (q = p_id p)) as [->|Hq].
    - rewrite lookup_insert_eq. by intros [= <-].
    - rewrite lookup_insert_ne by done. apply Hm. }
  specialize (Hdeal (players room) shuffled ∅).
  destruct (deal (players room) shuffled ∅) as [d m]. intros [= <-].
  unfold gameInv. cbn. intros q ps Hq. left. apply (Hdeal ltac:(done) q ps Hq).
Qed.

(** In every room reached from [game:start] by [setup:setFaceUp],
    [play:cards] and [play:pickup] messages, the players without cards are
    all recorded as finished whenever a card can be played. *)
Lemma reached_recorded room sid shuffled room0 (msgs : list (string * Message)) g x :
  gameStart room sid shuffled = (Success false false, room0) →
  game (run room0 msgs) = Some g → phase (run room0 msgs) = PhPlaying →
  othersRecorded (run room0 msgs) g x = true.
Proof.
  intros Hstart. apply gameStart_inv in Hstart.
  revert room0 Hstart. induction msgs as [|[s msg] msgs IH]; intros room0 Hinv; simpl.
  - intros Hg Hph. unfold gameInv in Hinv. rewrite Hg, Hph in Hinv.
    rewrite decide_False in Hinv by done. apply recorded_others, Hinv.
  - apply IH. by apply handle_inv.
Qed.
End Reachable.

(** ** The sample games *)

Section Samples.
Import Sample.

(** Settle a decidable goal about a sample game by evaluating its
    decision procedure. *)
Ltac by_deciding := apply (bool_decide_unpack _); vm_compute; exact I.

(** Ann plays the four 9s on the king: the selection passes every check. *)
Lemma nines_accepted :
  accepts roomNines "a" playNines gameNines annNines (setHand [] annNines)
          ZHand nines.
Proof. split; reflexivity. Defined.

Lemma lastTen_accepted :
  accepts roomLastTen "a" playFaceDown gameLastTen annLastTen
          (setFaceDown [] annLastTen) ZFaceDown [card R10 Clubs].
Proof. split; reflexivity. Defined.

Lemma lastEight_accepted :
  accepts roomLastEight "a" playEight gameLastEight annLastEight
          (setHand [] annLastEight) ZHand [card R8 Spades].
Proof. split; reflexivity. Defined.

Lemma no_four_in_one_card (c : Card) : ¬ specFourOfAKind [c].
Proof.
  intros Hs. apply lastFourNon3Same_spec in Hs.
  destruct c as [x y i]. by destruct x.
Qed.

Lemma nines_seats : NoDup (p_id <$> players roomNines).
Proof. by_deciding. Qed.

Lemma ann_at_the_table : "a" ∈ p_id <$> players roomNines.
Proof. by_deciding. Qed.

Lemma nobody_finished (x : string) : x ∉ @nil string.
Proof. apply not_elem_of_nil. Qed.

(** At a table of Ann and Bob with nobody finished, Bob is next after
    Ann. *)
Lemma bob_after_ann : nextActive ["a"; "b"] [] "a" "b".
Proof.
  exists [], ["b"]. split; [reflexivity|]. exists [], ["a"].
  split; [reflexivity|]. split; [constructor|apply not_elem_of_nil].
Qed.

(** The forced pickup of C3 on the four 9s played on the king: Ann takes
    the 9s and the king, and the turn goes to Bob. *)
Lemma illegal_play_witness :
  ∃ room' g', playCards roomNines "a" playNines = (Success true false, room')
    ∧ game room' = Some g' ∧ pile g' = []
    ∧ playersState g' !! "a" = Some (holding ann (nines ++ [card RK Spades]) [] [])
    ∧ currentPlayerId g' = Some "b".
Proof.
  destruct (illegal_play_is_forced_pickup roomNines "a" playNines gameNines annNines
              (setHand [] annNines) ZHand nines (card R9 Spades)
              nines_accepted eq_refl eq_refl eq_refl)
    as (room' & g' & Hplay & Hg & Hm & _ & _ & Hpile & _ & _ & _ & _ & _ & Hturn).
  destruct (Hturn nines_seats ann_at_the_table (nobody_finished "a"))
    as (y & Hcur & Hnext).
  exists room', g'. split; [exact Hplay|]. split; [exact Hg|]. split; [exact Hpile|].
  split; [by rewrite Hm|].
  by rewrite Hcur, (nextActive_unique _ _ _ _ _ nines_seats Hnext bob_after_ann).
Defined.

(** The burn check is for cards that reach the pile: the four 9s on the
    king would make four of a kind there, yet the play is not legal and ends
    in a forced pickup, not a burn; without the legality of the play the
    equivalence does not hold. *)
Lemma burn_without_legality_fails :
  ¬ (∀ room sid req g ps ps1 z played first,
        accepts room sid req g ps ps1 z played →
        head played = Some first →
        (isBurned (playCards room sid req).1 = true ↔
           r first = R10 ∨ specFourOfAKind (pile g ++ played))).
Proof.
  intros H.
  specialize (H roomNines "a" playNines gameNines annNines (setHand [] annNines)
                ZHand nines (card R9 Spades) nines_accepted eq_refl).
  assert (Hfour : specFourOfAKind (pile gameNines ++ nines)) by by exists [RK], R9.
  apply proj2 in H. specialize (H (or_intror Hfour)). discriminate H.
Qed.

Lemma burn_iff_witness :
  isBurned (playCards roomLastTen "a" playFaceDown).1 = true
  ∧ (playCards roomNines "a" playNines).1 = Success true false.
Proof.
  split.
  - destruct (burn_iff_legal_and_ten_or_four roomLastTen "a" playFaceDown gameLastTen
                annLastTen (setFaceDown [] annLastTen) ZFaceDown [card R10 Clubs]
                (card R10 Clubs) lastTen_accepted eq_refl)
      as (_ & _ & _ & _ & Hlegal & _).
    apply (Hlegal eq_refl). by left.
  - destruct (burn_iff_legal_and_ten_or_four roomNines "a" playNines gameNines annNines
                (setHand [] annNines) ZHand nines (card R9 Spades)
                nines_accepted eq_refl)
      as (_ & _ & _ & _ & _ & Hillegal).
    exact (Hillegal eq_refl).
Defined.

(** C4 as stated fails on the code: Ann burns the pile with her last card,
    is recorded as finished, and the turn does not stay with her. *)
Lemma burn_with_last_card_moves_turn :
  ¬ (∀ room sid req g ps ps1 z played first,
        accepts room sid req g ps ps1 z played →
        head played = Some first →
        canPlayOnPile (r first) (pile g) = true →
        r first = R10 ∨ specFourOfAKind (pile g ++ played) →
        ∀ g', game (playCards room sid req).2 = Some g' →
              currentPlayerId g' = currentPlayerId g).
Proof.
  intros H.
  specialize (H roomLastTen "a" playFaceDown gameLastTen annLastTen
                (setFaceDown [] annLastTen) ZFaceDown [card R10 Clubs]
                (card R10 Clubs) lastTen_accepted eq_refl eq_refl
                (or_introl eq_refl) _ eq_refl).
  discriminate H.
Qed.

(** Ann plays the 10 from her hand of three, with two cards in the deck. *)
Lemma ten_accepted :
  accepts roomTen "a" playTen gameTen annTen
          (setHand [card R5 Hearts; card R6 Hearts] annTen) ZHand [card R10 Spades].
Proof. split; reflexivity. Defined.

(** Both cases of C4. Ann burns the pile with a 10 from her hand: the pile
    goes to the burned cards, she draws one card from the deck and plays
    again. Ann burns the pile with her last card, face down: she draws
    nothing, is recorded as finished, and the turn is not hers. *)
Lemma burning_play_witness :
  (∃ room' g',
     playCards roomTen "a" playTen = (Success false true, room')
     ∧ game room' = Some g' ∧ pile g' = []
     ∧ burned g' = [card R5 Spades; card R10 Spades]
     ∧ playersState g' !! "a"
       = Some (holding ann [card R5 Hearts; card R6 Hearts; card R2 Clubs] [] [])
     ∧ deck g' = [card R6 Diamonds]
     ∧ currentPlayerId g' = Some "a" ∧ "a" ∉ finished g')
  ∧ (∃ room' g',
       playCards roomLastTen "a" playFaceDown = (Success false true, room')
       ∧ game room' = Some g' ∧ pile g' = []
       ∧ burned g' = [card R5 Spades; card R10 Clubs]
       ∧ deck g' = []
       ∧ "a" ∈ finished g' ∧ currentPlayerId g' ≠ Some "a").
Proof.
  split.
  - destruct (burning_play roomTen "a" playTen gameTen annTen
                (setHand [card R5 Hearts; card R6 Hearts] annTen) ZHand
                [card R10 Spades] (card R10 Spades) ten_accepted eq_refl eq_refl
                (or_introl eq_refl))
      as (room' & g' & ps' & Hplay & Hg & Hpile & Hburned & Hm & Hhand & _ & Hkeeps & _).
    destruct (Hhand eq_refl) as (-> & Hdeck & _).
    destruct Hkeeps as [Hcur Hnot]; [apply nobody_finished|reflexivity|].
    exists room', g'. split; [exact Hplay|]. split; [exact Hg|]. split; [exact Hpile|].
    split; [exact Hburned|]. split; [by rewrite Hm|]. split; [exact Hdeck|].
    split; [exact Hcur|exact Hnot].
  - destruct (burning_play roomLastTen "a" playFaceDown gameLastTen annLastTen
                (setFaceDown [] annLastTen) ZFaceDown [card R10 Clubs]
                (card R10 Clubs) lastTen_accepted eq_refl eq_refl (or_introl eq_refl))
      as (room' & g' & ps' & Hplay & Hg & Hpile & Hburned & _ & _ & Hzone & _ & Hmoved).
    destruct Hzone as [-> Hdeck]; [discriminate|].
    destruct Hmoved as [Hfin Hcur]; [by_deciding|reflexivity|].
    exists room', g'. split; [exact Hplay|]. split; [exact Hg|]. split; [exact Hpile|].
    split; [exact Hburned|]. split; [exact Hdeck|]. split; [exact Hfin|exact Hcur].
Defined.

(** C5 as stated fails on the code: Ann's last card is an 8, the two steps
    lead back to her, and the turn ends up with Bob. *)
Lemma eight_as_last_card_moves_turn :
  ¬ (∀ room sid req g ps ps1 z played first,
        accepts room sid req g ps ps1 z played →
        head played = Some first →
        canPlayOnPile (r first) (pile g) = true →
        r first ≠ R10 →
        ¬ specFourOfAKind (pile g ++ played) →
        othersRecorded room g sid = true →
        ∀ g', game (playCards room sid req).2 = Some g' →
              currentPlayerId g'
              = advance (activeOf room g) (1 + countEights played) sid).
Proof.
  intros H.
  specialize (H roomLastEight "a" playEight gameLastEight annLastEight
                (setHand [] annLastEight) ZHand [card R8 Spades]
                (card R8 Spades) lastEight_accepted eq_refl eq_refl).
  specialize (H ltac:(discriminate) (no_four_in_one_card _) eq_refl _ eq_refl).
  discriminate H.
Qed.

(** Ann plays her 8 at the table of three. *)
Lemma eight_of_three_accepted :
  accepts roomEightOfThree "a" playEight gameEightOfThree annEight
          (setHand [card R4 Hearts] annEight) ZHand [card R8 Spades].
Proof. split; reflexivity. Defined.

Lemma three_seats : NoDup (p_id <$> players roomEightOfThree).
Proof. by_deciding. Qed.

Lemma ann_of_three : "a" ∈ p_id <$> players roomEightOfThree.
Proof. by_deciding. Qed.

Lemma eight_seats : NoDup (p_id <$> players roomLastEight).
Proof. by_deciding. Qed.

Lemma ann_of_two : "a" ∈ p_id <$> players roomLastEight.
Proof. by_deciding. Qed.

(** At a table of Ann, Bob and Cat with nobody finished, two steps from
    Ann lead to Cat. *)
Lemma cat_two_after_ann : stepsOn ["a"; "b"; "c"] [] 2 "a" "c".
Proof.
  exists "b". split.
  { exists [], ["b"; "c"]. split; [reflexivity|]. exists [], ["c"; "a"].
    split; [reflexivity|]. split; [constructor|apply not_elem_of_nil]. }
  exists "c". split; [|reflexivity].
  exists ["a"], ["c"]. split; [reflexivity|]. exists [], ["a"; "b"].
  split; [reflexivity|]. split; [constructor|apply not_elem_of_nil].
Qed.

(** Both cases of C5. At a table of three Ann plays an 8 and keeps a card:
    the 8 lies on the pile and the turn is two steps on, with Cat. At a
    table of two Ann plays an 8 as her last card: the two steps lead back to
    her, she is recorded as finished and the turn is not hers. *)
Lemma plain_play_witness :
  (∃ room' g',
     playCards roomEightOfThree "a" playEight = (Success false false, room')
     ∧ game room' = Some g' ∧ pile g' = [card R8 Spades]
     ∧ playersState g' !! "a" = Some (holding ann [card R4 Hearts] [] [])
     ∧ finished g' = []
     ∧ currentPlayerId g' = Some "c")
  ∧ (∃ room' g',
       playCards roomLastEight "a" playEight = (Success false false, room')
       ∧ game room' = Some g' ∧ pile g' = [card R8 Spades]
       ∧ "a" ∈ finished g' ∧ currentPlayerId g' ≠ Some "a").
Proof.
  split.
  - destruct (plain_play roomEightOfThree "a" playEight gameEightOfThree annEight
                (setHand [card R4 Hearts] annEight) ZHand [card R8 Spades]
                (card R8 Spades) eight_of_three_accepted eq_refl eq_refl
                ltac:(discriminate) (no_four_in_one_card _) eq_refl)
      as (room' & g' & ps' & Hplay & Hg & Hpile & _ & Hm & Hhand & _ & _ & _ & Hturn).
    destruct (Hhand eq_refl) as (-> & _).
    destruct (Hturn three_seats ann_of_three (nobody_finished "a"))
      as (y & Hsteps & Hlands & Hsame & _).
    exists room', g'. split; [exact Hplay|]. split; [exact Hg|]. split; [exact Hpile|].
    split; [by rewrite Hm|]. split; [exact (Hsame eq_refl)|].
    rewrite (Hlands (or_intror eq_refl)).
    by rewrite (stepsOn_unique _ _ _ _ _ _ three_seats Hsteps cat_two_after_ann).
  - destruct (plain_play roomLastEight "a" playEight gameLastEight annLastEight
                (setHand [] annLastEight) ZHand [card R8 Spades]
                (card R8 Spades) lastEight_accepted eq_refl eq_refl
                ltac:(discriminate) (no_four_in_one_card _) eq_refl)
      as (room' & g' & ps' & Hplay & Hg & Hpile & _ & _ & Hhand & _ & _ & _ & Hturn).
    destruct (Hhand eq_refl) as (-> & _).
    destruct (Hturn eight_seats ann_of_two (nobody_finished "a"))
      as (y & _ & _ & _ & Hout).
    destruct (Hout eq_refl) as [Hfin Hcur].
    exists room', g'. split; [exact Hplay|]. split; [exact Hg|]. split; [exact Hpile|].
    split; [exact Hfin|exact Hcur].
Defined.

(** C6 on the code. Cat, in the last of three seats, burns the pile with
    her last card and is recorded as finished with the turn still hers.
    The next active player in seat order after her is Ann, in the first
    seat; [ensureFinishAndMaybeEnd] hands the turn to Bob: [nextPlayerId]
    does not find the finished player among the active ones, starts from
    index 0 and steps once. *)
Theorem finished_player_turn_skips_a_seat :
  ∃ room' g',
    playCards roomThree "c" playFaceDown = (Success false true, room')
    ∧ game room' = Some g'
    ∧ phase room' = PhPlaying
    ∧ finished g' = ["c"]
    ∧ activeOf room' g' = ["a"; "b"]
    ∧ nextActiveAfter (p_id <$> players room') (finished g') "c" = Some "a"
    ∧ currentPlayerId g' = Some "b".
Proof. by eexists _, _. Qed.

(** The same on the finish resolution alone, entered with the turn on a
    player just found finished. *)
Lemma ensureFinish_skips_a_seat :
  let room := roomOf [ann; bob; cat]
                (gameOf [] [] "c" [annKing; bobQueen; holding cat [] [] []]) in
  (currentPlayerId <$> game (ensureFinishAndMaybeEnd room)) = Some (Some "b")
  ∧ nextActiveAfter ["a"; "b"; "c"] ["c"] "c" = Some "a".
Proof. done. Qed.

Lemma required_zone_witness :
  playerZoneToUse gameNines "a" = ZHand
  ∧ (playCards roomNines "a" (mkPlayCards (id <$> nines) (Some ZFaceUp) None)).1
    = Failure "You must play from hand".
Proof.
  destruct (required_zone roomNines "a" (mkPlayCards (id <$> nines) (Some ZFaceUp) None)
              gameNines annNines eq_refl eq_refl)
    as (_ & Hhand & _ & _ & Hreject).
  split; [apply Hhand; [reflexivity|discriminate]|].
  destruct Hreject as (_ & _ & Hmsg); [discriminate|].
  exact (Hmsg eq_refl eq_refl).
Defined.

(** C8 as stated fails on the code: Ann is the last to lock in, the room
    goes on to the playing phase at once and her stage is [playing], not
    [ready]. *)
Lemma last_lock_is_playing :
  ¬ (∀ room sid ids g you,
        game room = Some g → playersState g !! sid = Some you →
        isFailure (setFaceUpHandler room sid ids).1 = false →
        ∃ g' you', game (setFaceUpHandler room sid ids).2 = Some g'
          ∧ playersState g' !! sid = Some you'
          ∧ length (faceUp you') = 3%nat ∧ length (hand you') = 3%nat
          ∧ stage you' = StReady).
Proof.
  intros H.
  destruct (H roomSetup "a" annChoice gameSetup annChoosing eq_refl eq_refl eq_refl)
    as (g' & you' & Hg & Hyou & _ & _ & Hstage).
  injection Hg as <-. vm_compute in Hyou. injection Hyou as <-. discriminate Hstage.
Qed.

Lemma annChoice_in_hand : Forall (λ i, i ∈ id <$> hand annChoosing) annChoice.
Proof. by_deciding. Defined.

Lemma annChoice_distinct : NoDup annChoice.
Proof. by_deciding. Defined.

Lemma lock_face_up_witness :
  ∃ room' g' you',
    setFaceUpHandler roomSetup "a" annChoice = (Success false false, room')
    ∧ game room' = Some g' ∧ playersState g' !! "a" = Some you'
    ∧ length (faceUp you') = 3%nat ∧ length (hand you') = 3%nat
    ∧ stage you' = StPlaying.
Proof.
  destruct (lock_face_up roomSetup "a" annChoice gameSetup annChoosing eq_refl eq_refl)
    as (_ & _ & Hok).
  destruct (Hok eq_refl eq_refl annChoice_in_hand annChoice_distinct)
    as (room' & g' & you' & Hreply & Hg & Hyou & _ & _ & _ & Hlen & _ & Hlast).
  exists room', g', you'. split; [exact Hreply|]. split; [exact Hg|].
  split; [exact Hyou|].
  destruct Hlen as [Hu Hh]; [by_deciding|].
  split; [exact Hu|]. split; [exact Hh|].
  apply Hlast. intros q ps Hne Hq.
  destruct (decide (q = "b")) as [->|Hb].
  - vm_compute in Hq. by injection Hq as <-.
  - exfalso. revert Hq. unfold gameSetup. cbn [playersState list_to_map foldr].
    by rewrite !lookup_insert_ne, lookup_empty by done.
Defined.

(** The code does not ask for distinct ids: one id sent three times locks
    a single card face up and leaves five in the hand. *)
Example same_id_thrice :
  ∃ room' g' you',
    setFaceUpHandler roomSetup "a" ["AS"; "AS"; "AS"] = (Success false false, room')
    ∧ game room' = Some g' ∧ playersState g' !! "a" = Some you'
    ∧ length (faceUp you') = 1%nat ∧ length (hand you') = 5%nat.
Proof. by eexists _, _, _. Qed.

Lemma failure_witness :
  (handle roomNines "b" (PlayCardsMsg playNines)).1 = Failure "Not your turn"
  ∧ (handle roomNines "b" (PlayCardsMsg playNines)).2 = roomNines.
Proof.
  split; [reflexivity|].
  exact (failure_changes_nothing roomNines "b" (PlayCardsMsg playNines) eq_refl).
Defined.

Lemma lobby_ids_distinct : NoDup (p_id <$> players roomLobby).
Proof. by_deciding. Defined.

Lemma cards_conserved_witness :
  roomCards (run (gameStart roomLobby "a" twenty).2 someMessages) ≡ₚ twenty.
Proof.
  destruct (cards_conserved roomLobby "a" twenty (gameStart roomLobby "a" twenty).2
              someMessages lobby_ids_distinct eq_refl)
    as (_ & Hrun & _).
  exact Hrun.
Defined.
End Samples.

(** * The rest of the server *)

(** ** The deck *)

Section Deck.
Implicit Types (d : list Card) (i j n : nat) (rnd : nat → nat)
  (nano : Suit → Rank → string).

Lemma insert_head_perm d j (a b : Card) :
  d !! j = Some b → b :: <[j := a]> d ≡ₚ a :: d.
Proof.
  revert j. induction d as [|y d IH]; intros j; [done|].
  destruct j as [|j]; simpl.
  - intros [= ->]. apply perm_swap.
  - intros Hj. rewrite (perm_swap y b). rewrite (IH _ Hj). apply perm_swap.
Qed.

Lemma insert_swap_perm d i j (a b : Card) :
  d !! i = Some a → d !! j = Some b → <[j := a]> (<[i := b]> d) ≡ₚ d.
Proof.
  revert i j. induction d as [|x d IH]; intros i j; [done|].
  destruct i as [|i], j as [|j]; simpl.
  - by intros [= ->] [= ->].
  - intros [= ->] Hj. by apply insert_head_perm.
  - intros Hi [= ->]. by apply insert_head_perm.
  - intros Hi Hj. by rewrite (IH _ _ Hi Hj).
Qed.

Lemma swap_perm d i j d' : swap d i j = Some d' → d' ≡ₚ d.
Proof.
  unfold swap. destruct (d !! j) as [dj|] eqn:Hj; [|done].
  destruct (d !! i) as [di|] eqn:Hi; [|done].
  intros [= <-]. by apply insert_swap_perm.
Qed.

Lemma swap_in_range d i j :
  (i < length d)%nat → (j < length d)%nat → is_Some (swap d i j).
Proof.
  intros Hi Hj. unfold swap.
  destruct (lookup_lt_is_Some_2 _ _ Hi) as [di ->].
  destruct (lookup_lt_is_Some_2 _ _ Hj) as [dj ->]. by eexists.
Qed.

(** With every draw within its range the loop runs to its end and returns a
    rearrangement of the deck. *)
Lemma shuffleFrom_perm rnd n d :
  (∀ i, rnd i ≤ i)%nat → (n < length d)%nat →
  ∃ d', shuffleFrom rnd n d = Some d' ∧ d' ≡ₚ d.
Proof.
  intros Hrnd. revert d. induction n as [|k IH]; intros d Hn; simpl.
  - by exists d.
  - destruct (swap_in_range d (S k) (rnd (S k))) as [d1 Hd1];
      [done|specialize (Hrnd (S k)); lia|].
    rewrite Hd1. simpl. pose proof (swap_perm _ _ _ _ Hd1) as Hp.
    destruct (IH d1) as (d' & Hd' & Hp').
    { rewrite (Permutation_length Hp). lia. }
    exists d'. split; [done|]. by rewrite Hp'.
Qed.

Lemma freshDeck_elem nano c :
  c ∈ freshDeck nano →
  id c = rankName (r c) +:+ suitSymbol (s c) +:+ "-" +:+ nano (s c) (r c).
Proof.
  unfold freshDeck. intros Hc. apply list_elem_of_bind in Hc as (y & Hc & _).
  by apply list_elem_of_fmap in Hc as (x & -> & _).
Qed.

(** The id prefix tells rank and suit. *)
Lemma id_prefix_inj (x x' : Rank) (y y' : Suit) (u u' : string) :
  rankName x +:+ suitSymbol y +:+ "-" +:+ u
  = rankName x' +:+ suitSymbol y' +:+ "-" +:+ u' →
  x = x' ∧ y = y'.
Proof.
  destruct x, x'; simpl; try discriminate;
    destruct y, y'; simpl; try discriminate; done.
Qed.

Lemma freshDeck_pairs nano :
  (λ c, (s c, r c)) <$> freshDeck nano = y ← suits; (λ x, (y, x)) <$> ranks.
Proof. done. Qed.

Lemma freshDeck_ids nano : NoDup (id <$> freshDeck nano).
Proof.
  assert (Hnd : NoDup (freshDeck nano)).
  { apply (NoDup_fmap_1 (λ c, (s c, r c))). rewrite freshDeck_pairs.
    apply (bool_decide_unpack _). vm_compute. exact I. }
  apply NoDup_fmap_2_strong; [|done].
  intros c c' Hc Hc' Hid.
  rewrite (freshDeck_elem _ _ Hc), (freshDeck_elem _ _ Hc') in Hid.
  pose proof (freshDeck_elem _ _ Hc) as Hidc.
  pose proof (freshDeck_elem _ _ Hc') as Hidc'.
  apply id_prefix_inj in Hid as Hxy. destruct Hxy as [Hx Hy].
  destruct c as [x y i], c' as [x' y' i']. simpl in *. subst. done.
Qed.

(** X1. Whatever ids [nanoid] returns and whatever [Math.random] draws
    within the range of each round, [makeDeck] returns the 52 cards of the
    four suits and thirteen ranks, each pair once, in some order, and no two
    cards share an id. *)
Theorem makeDeck_is_a_full_deck nano rnd :
  (∀ i, rnd i ≤ i)%nat →
  ∃ d, makeDeck nano rnd = Some d
    ∧ d ≡ₚ freshDeck nano
    ∧ length d = 52%nat
    ∧ NoDup (id <$> d)
    ∧ (λ c, (s c, r c)) <$> d ≡ₚ y ← suits; (λ x, (y, x)) <$> ranks.
Proof.
  intros Hrnd. unfold makeDeck.
  destruct (shuffleFrom_perm rnd (length (freshDeck nano) - 1) (freshDeck nano) Hrnd)
    as (d & Hd & Hp).
  { change (length (freshDeck nano)) with 52%nat. lia. }
  exists d. split; [done|]. split; [done|].
  split; [by rewrite (Permutation_length Hp)|].
  split; [rewrite Hp; apply freshDeck_ids|].
  by rewrite Hp, freshDeck_pairs.
Qed.
End Deck.

(** ** Starting a game *)

Section Start.
Implicit Types (room : Room) (g : GameState) (sid : string)
  (d shuffled : list Card) (m : gmap string PlayerState) (msg : Message).

(** What the dealing loop leaves: the deck without the first nine cards per
    player, and for the player in seat [i] the three cards from position
    [9 i] face down and the six after them in the hand. *)
Lemma deal_spec (l : list Player) d m :
  NoDup (p_id <$> l) →
  (deal l d m).1 = drop (9 * length l) d
  ∧ (∀ i p, l !! i = Some p →
       (deal l d m).2 !! p_id p
       = Some (mkPlayerState (p_id p) (p_name p) (take 6 (drop (9 * i + 3) d)) []
                 (take 3 (drop (9 * i) d)) StChooseFaceUp))
  ∧ (∀ q, q ∉ p_id <$> l → (deal l d m).2 !! q = m !! q).
Proof.
  revert d m. induction l as [|p l IH]; intros d m Hnd.
  { split; [done|]. split; [by intros i p|done]. }
  rewrite fmap_cons in Hnd. apply NoDup_cons in Hnd as [Hp Hnd].
  cbn [deal].
  destruct (IH (drop 6 (drop 3 d))
              (<[p_id p := mkPlayerState (p_id p) (p_name p) (take 6 (drop 3 d)) []
                             (take 3 d) StChooseFaceUp]> m) Hnd)
    as (Hdeck & Hseat & Hother).
  split; [|split].
  - rewrite Hdeck, !drop_drop. f_equal. cbn [length]. lia.
  - intros i q Hq. destruct i as [|i]; simpl in Hq.
    + injection Hq as <-. by rewrite (Hother _ Hp), lookup_insert_eq.
    + rewrite (Hseat i q Hq), !drop_drop.
      replace (3 + (6 + (9 * i + 3)))%nat with (9 * S i + 3)%nat by lia.
      by replace (3 + (6 + 9 * i))%nat with (9 * S i)%nat by lia.
  - intros q Hq. rewrite fmap_cons in Hq. apply not_elem_of_cons in Hq as [Hne Hq].
    by rewrite (Hother q Hq), lookup_insert_ne.
Qed.

(** X2. A host starting a lobby of two or more players with distinct ids is
    answered [ok: true]; the room enters the setup phase with the first
    player to move, nothing on the pile, nothing burned and nobody finished;
    the player in seat [i] holds cards [9 i] to [9 i + 2] of the shuffled
    deck face down and the next six in the hand, none face up, and is in
    stage [chooseFaceUp]; nobody else has a player state; the deck keeps
    what follows the first nine cards per player. With nine cards per player
    in the deck everybody has exactly three and six. *)
Theorem gameStart_deals room sid shuffled :
  hostSocketId room = Some sid →
  (2 ≤ length (players room))%nat →
  phase room = PhLobby →
  NoDup (p_id <$> players room) →
  ∃ g,
    gameStart room sid shuffled
    = (Success false false,
       mkRoom (code room) (hostSocketId room) (players room) PhSetup (Some g))
    ∧ deck g = drop (9 * length (players room)) shuffled
    ∧ pile g = [] ∧ burned g = [] ∧ finished g = []
    ∧ winnerId g = None ∧ loserId g = None
    ∧ currentPlayerId g = p_id <$> head (players room)
    ∧ (∀ i p, players room !! i = Some p →
         playersState g !! p_id p
         = Some (mkPlayerState (p_id p) (p_name p) (take 6 (drop (9 * i + 3) shuffled)) []
                   (take 3 (drop (9 * i) shuffled)) StChooseFaceUp)
         ∧ ((9 * length (players room) ≤ length shuffled)%nat →
            length (take 6 (drop (9 * i + 3) shuffled)) = 6%nat
            ∧ length (take 3 (drop (9 * i) shuffled)) = 3%nat))
    ∧ (∀ q, q ∉ p_id <$> players room → playersState g !! q = None).
Proof.
  intros Hhost Hlen Hph Hnd. unfold gameStart.
  rewrite (bool_decide_eq_false_2 (hostSocketId room ≠ Some sid)) by (intros H; by apply H).
  rewrite (bool_decide_eq_false_2 (length (players room) < 2)%nat) by lia.
  rewrite (bool_decide_eq_false_2 (phase room ≠ PhLobby)) by (intros H; by apply H).
  destruct (deal_spec (players room) shuffled ∅ Hnd) as (Hdeck & Hseat & Hother).
  destruct (deal (players room) shuffled ∅) as [d m]. simpl in Hdeck, Hseat, Hother.
  eexists. split; [reflexivity|]. cbn.
  split; [done|]. do 5 (split; [done|]).
  split; [by destruct (players room)|]. split.
  - intros i p Hp. split; [by apply Hseat|]. intros Hcards.
    apply lookup_lt_Some in Hp. rewrite !length_take, !length_drop. lia.
  - intros q Hq. by rewrite (Hother q Hq).
Qed.

Lemma ensureFinish_phase room :
  phase (ensureFinishAndMaybeEnd room) = phase room
  ∨ phase (ensureFinishAndMaybeEnd room) = PhEnded.
Proof.
  unfold ensureFinishAndMaybeEnd. destruct (game room) as [g|]; [|by left].
  destruct (bool_decide _ && bool_decide _); [by right|left].
  destruct (currentPlayerId _); [|done]. by case_bool_decide.
Qed.

Lemma resolvePlay_phase room g sid (ps : PlayerState) z played :
  phase (resolvePlay room g sid ps z played).2 = phase room
  ∨ phase (resolvePlay room g sid ps z played).2 = PhEnded.
Proof.
  unfold resolvePlay. destruct played as [|first rest]; [by left|].
  destruct (negb _); [|destruct (_ || _)]; cbn [snd].
  all: match goal with |- phase (ensureFinishAndMaybeEnd ?rm) = _ ∨ _ =>
         exact (ensureFinish_phase rm) end.
Qed.

(** No message takes a room back to the lobby or takes its game away. *)
Lemma handle_started room sid msg :
  phase room ≠ PhLobby → is_Some (game room) →
  phase (handle room sid msg).2 ≠ PhLobby ∧ is_Some (game (handle room sid msg).2).
Proof.
  intros Hph [g Hg]. split.
  - destruct msg; simpl.
    + unfold setFaceUpHandler. rewrite Hg.
      destruct (playersState g !! sid); [|done].
      repeat (case_bool_decide; [done|]). destruct (negb _); [done|].
      by destruct (allReady _).
    + unfold playCards. rewrite Hg.
      repeat (case_bool_decide; [done|]).
      destruct (playersState g !! sid); [|done].
      case_bool_decide; [done|].
      destruct (selectCards _ _ _) as [?|[ps1 played]]; [done|].
      destruct (resolvePlay_phase room g sid ps1 (playerZoneToUse g sid) played)
        as [-> | ->]; done.
    + unfold playPickup. rewrite Hg.
      repeat (case_bool_decide; [done|]).
      destruct (playersState g !! sid); [|done]. cbn [snd].
      match goal with |- phase (ensureFinishAndMaybeEnd ?rm) ≠ _ =>
        destruct (ensureFinish_phase rm) as [-> | ->]; done end.
  - destruct (handle_players room sid msg g Hg) as (g' & -> & _). by eexists.
Qed.

Lemma run_started room (msgs : list (string * Message)) :
  phase room ≠ PhLobby → is_Some (game room) →
  phase (run room msgs) ≠ PhLobby ∧ is_Some (game (run room msgs)).
Proof.
  revert room. induction msgs as [|[sid msg] msgs IH]; intros room Hph Hg; [done|].
  simpl. destruct (handle_started room sid msg Hph Hg). by apply IH.
Qed.

(** X3. A game that has been started is never dealt again: after a successful
    [game:start] and any messages of the game, every further [game:start] on
    the room, from whoever and with whatever deck, is refused and changes
    nothing. *)
Theorem game_starts_once room sid shuffled room0 (msgs : list (string * Message))
    sid' shuffled' :
  gameStart room sid shuffled = (Success false false, room0) →
  isFailure (gameStart (run room0 msgs) sid' shuffled').1 = true
  ∧ (gameStart (run room0 msgs) sid' shuffled').2 = run room0 msgs
  ∧ is_Some (game (run room0 msgs)).
Proof.
  intros Hstart.
  assert (Hroom0 : phase room0 ≠ PhLobby ∧ is_Some (game room0)).
  { revert Hstart. unfold gameStart. repeat (case_bool_decide; [done|]).
    destruct (deal _ _ _). intros [= <-]. split; [done|by eexists]. }
  destruct (run_started room0 msgs (proj1 Hroom0) (proj2 Hroom0)) as [Hph Hg].
  split; [|split; [|done]].
  - unfold gameStart. repeat (case_bool_decide; [done|]). done.
  - unfold gameStart. repeat (case_bool_decide; [done|]). done.
Qed.
End Start.

(** ** More on the turn order *)

Section Rotation.
Implicit Types (room : Room) (x y : string) (k : nat).

(** The [finished] list [nextPlayerId] reads and the [active] array it
    builds. *)
Local Abbreviation finishedOf room :=
  (match game room with Some g => finished g | None => [] end).
Local Abbreviation activeNow room :=
  (activeIds (p_id <$> players room) (finishedOf room)).

Lemma nextPlayerId_unfold room x k :
  nextPlayerId room x k
  = if bool_decide (activeNow room = []) then None
    else activeNow room
           !! ((default O (indexOf (activeNow room) x) + k) mod length (activeNow room))%nat.
Proof.
  unfold nextPlayerId.
  destruct (decide (p_id <$> players room = [])) as [Hids|Hids].
  { by rewrite Hids. }
  rewrite (bool_decide_eq_false_2 (length (p_id <$> players room) = 0%nat))
    by (intros Hl; by apply nil_length_inv in Hl).
  destruct (decide (activeNow room = [])) as [Hact|Hact].
  { by rewrite Hact. }
  rewrite (bool_decide_eq_false_2 (length (activeNow room) = 0%nat))
    by (intros Hl; by apply nil_length_inv in Hl).
  rewrite (bool_decide_eq_false_2 (activeNow room = [])) by done.
  assert (Hidx : (default O (indexOf (activeNow room) x) < length (activeNow room))%nat).
  { destruct (indexOf (activeNow room) x) as [i|] eqn:Hi; simpl.
    - by apply indexOf_Some, lookup_lt_Some in Hi.
    - destruct (activeNow room); [done|simpl; lia]. }
  destruct (indexOf (activeNow room) x) as [i|]; simpl in *; by rewrite stepIdx_mod.
Qed.

Lemma activeIds_empty (ids fin : list string) :
  activeIds ids fin = [] ↔ Forall (λ q, q ∈ fin) ids.
Proof.
  unfold activeIds. induction ids as [|q ids IH]; [done|].
  destruct (decide (q ∉ fin)) as [Hq|Hq].
  - rewrite filter_cons_True by done. split; [done|].
    intros Hall. by apply Forall_cons in Hall as [? _].
  - rewrite filter_cons_False by done. rewrite IH, Forall_cons.
    apply dec_stable in Hq. tauto.
Qed.

(** [nextPlayerId] is [steps] single steps round the active players from the
    player at the index it starts from. *)
Lemma nextPlayerId_from room x k f :
  NoDup (p_id <$> players room) →
  activeNow room !! default O (indexOf (activeNow room) x) = Some f →
  nextPlayerId room x k = advance (activeNow room) k f.
Proof.
  intros Hnd Hf. rewrite nextPlayerId_unfold.
  rewrite bool_decide_eq_false_2 by (intros Hnil; by rewrite Hnil in Hf).
  assert (Hnda : NoDup (activeNow room)) by (unfold activeIds; by apply NoDup_filter).
  rewrite (advance_stepIdx (activeNow room) k f _ Hnda Hf).
  rewrite stepIdx_mod; [done|]. by eapply lookup_lt_Some.
Qed.

(** X4. Over a table where no id is seated twice: [nextPlayerId] answers
    [null] exactly when every player of the room is finished, and never
    answers with a finished player or a stranger. From a player who is
    seated and not finished it answers the player [steps] steps on, each
    step going to the next player in join order who is not finished, past
    the last seat to the first; from anybody else it answers the player
    [steps] steps on from the first player in join order who is not
    finished. Steps beyond the number of players who are not finished go
    round again. *)
Theorem nextPlayerId_round_the_circle room x k :
  NoDup (p_id <$> players room) →
  (nextPlayerId room x k = None
   ↔ Forall (λ q, q ∈ finishedOf room) (p_id <$> players room))
  ∧ (∀ y, nextPlayerId room x k = Some y →
          y ∈ p_id <$> players room ∧ y ∉ finishedOf room)
  ∧ (x ∈ p_id <$> players room → x ∉ finishedOf room →
     ∃ y, nextPlayerId room x k = Some y
          ∧ stepsOn (p_id <$> players room) (finishedOf room) k x y)
  ∧ ((x ∉ p_id <$> players room) ∨ x ∈ finishedOf room →
     ∀ f, firstActive (p_id <$> players room) (finishedOf room) f →
          ∃ y, nextPlayerId room x k = Some y
               ∧ stepsOn (p_id <$> players room) (finishedOf room) k f y)
  ∧ nextPlayerId room x
      (k + length (filter (λ q, q ∉ finishedOf room) (p_id <$> players room)))
    = nextPlayerId room x k.
Proof.
  intros Hnd.
  assert (Hsteps : ∀ f, activeNow room !! default O (indexOf (activeNow room) x) = Some f →
            ∃ y, nextPlayerId room x k = Some y
                 ∧ stepsOn (p_id <$> players room) (finishedOf room) k f y).
  { intros f Hf. rewrite (nextPlayerId_from room x k f Hnd Hf).
    apply list_elem_of_lookup_2, list_elem_of_filter in Hf as [Hfin Hin].
    destruct (advance_stepsOn _ (finishedOf room) k f Hnd Hin Hfin) as (y & Hy & Hs & _).
    by exists y. }
  split; [|split; [|split; [|split]]].
  - rewrite nextPlayerId_unfold, <- activeIds_empty.
    destruct (decide (activeNow room = [])) as [Hact|Hact].
    { by rewrite bool_decide_eq_true_2. }
    rewrite bool_decide_eq_false_2 by done. split; [|done]. intros Hnone.
    apply lookup_ge_None in Hnone.
    pose proof (Nat.mod_upper_bound
                  (default O (indexOf (activeNow room) x) + k) (length (activeNow room))).
    destruct (activeNow room); [done|simpl in *; lia].
  - intros y. rewrite nextPlayerId_unfold. case_bool_decide; [done|].
    intros Hy. apply list_elem_of_lookup_2, list_elem_of_filter in Hy. tauto.
  - intros Hin Hfin. apply Hsteps.
    assert (Hx : x ∈ activeNow room) by by apply list_elem_of_filter.
    destruct (indexOf_elem _ _ Hx) as [i Hi]. rewrite Hi. by apply indexOf_Some.
  - intros Hout f Hf. apply Hsteps.
    assert (Hnone : indexOf (activeNow room) x = None).
    { destruct (indexOf (activeNow room) x) as [i|] eqn:Hi; [|done]. exfalso.
      apply indexOf_Some, list_elem_of_lookup_2, list_elem_of_filter in Hi as [Hfin Hin].
      by destruct Hout. }
    rewrite Hnone. apply firstActive_head in Hf. cbn [default].
    unfold activeIds. by destruct (filter _ _).
  - change (filter (λ q, q ∉ finishedOf room) (p_id <$> players room))
      with (activeNow room).
    rewrite !nextPlayerId_unfold. case_bool_decide as Hact; [done|].
    f_equal. rewrite Nat.add_assoc.
    rewrite <- (Nat.mul_1_l (length (activeNow room))) at 1.
    by rewrite Nat.Div0.mod_add.
Qed.
End Rotation.

(** ** More on the finish resolution *)

Section Resolved.
Implicit Types (room : Room) (g : GameState) (c : string).

Lemma recordFinished_fixed (m : gmap string PlayerState) (l : list Player)
    (fin : list string) :
  recordFinished m l (recordFinished m l fin) = recordFinished m l fin.
Proof.
  apply recordFinished_none. intros p st Hp Hst Hout.
  by eapply recordFinished_records.
Qed.

(** After the finish resolution the turn is on no player recorded as
    finished. *)
Lemma ensureFinish_turn room g' :
  game (ensureFinishAndMaybeEnd room) = Some g' →
  hasCurrent (finished g') (currentPlayerId g') = false.
Proof.
  unfold ensureFinishAndMaybeEnd. destruct (game room) as [g|] eqn:Hg; [|by rewrite Hg].
  set (fin := recordFinished (playersState g) (players room) (finished g)).
  assert (Hact : ∀ l i, hasCurrent fin (activeIds l fin !! i) = false).
  { intros l i. destruct (activeIds l fin !! i) as [y|] eqn:Hy; [|done].
    apply bool_decide_eq_false. apply list_elem_of_lookup_2, list_elem_of_filter in Hy.
    tauto. }
  destruct (bool_decide _ && bool_decide _).
  - cbn [currentPlayerId loserId setWinnerLoser setFinished].
    destruct (hasCurrent fin (currentPlayerId g)) eqn:Hc;
      cbn [game setGame setPhase]; intros [= <-];
      cbn [finished currentPlayerId setCurrent setWinnerLoser setFinished]; [|done].
    apply Hact.
  - cbn [currentPlayerId setFinished].
    destruct (currentPlayerId g) as [c|] eqn:Hc.
    + case_bool_decide as Hin; cbn [game setGame]; intros [= <-];
        cbn [finished currentPlayerId setCurrent setFinished].
      * destruct (nextPlayerId _ c 1) as [y|] eqn:Hy; [|done].
        apply bool_decide_eq_false.
        apply (nextPlayerId_active _ (setFinished fin g)) in Hy; [|done].
        by apply activeOf_not_finished in Hy.
      * rewrite Hc. by apply bool_decide_eq_false.
    + cbn [game setGame]. intros [= <-]. cbn. by rewrite Hc.
Qed.

(** X5. The finish resolution is idempotent: run a second time on its own
    result it records nobody new, ends nothing more and leaves the turn where
    it is. *)
Theorem ensureFinish_idempotent room :
  ensureFinishAndMaybeEnd (ensureFinishAndMaybeEnd room) = ensureFinishAndMaybeEnd room.
Proof.
  destruct (game room) as [g|] eqn:Hg.
  2:{ unfold ensureFinishAndMaybeEnd at 2. rewrite Hg.
      unfold ensureFinishAndMaybeEnd. by rewrite Hg. }
  destruct (ensureFinish_game room g Hg) as (g' & Hg' & Hpl & _ & _ & _ & Hm & Hf & _).
  pose proof (ensureFinish_turn room g' Hg') as Hturn.
  assert (Hcond : phase (ensureFinishAndMaybeEnd room) = PhEnded
                  ∧ winnerId g' = finished g' !! 0%nat
                  ∧ loserId g' = activeIds (p_id <$> players room) (finished g') !! 0%nat
                  ∨ (bool_decide (length (activeIds (p_id <$> players room) (finished g'))
                                  = 1%nat)
                     && bool_decide (2 ≤ length (p_id <$> players room))%nat = false)).
  { revert Hg'. rewrite Hf. unfold ensureFinishAndMaybeEnd. rewrite Hg.
    destruct (bool_decide _ && bool_decide _); [left|by right].
    revert Hg'. cbn [game phase setGame setPhase]. intros [= <-].
    destruct (hasCurrent _ (currentPlayerId g)); repeat split; reflexivity. }
  remember (ensureFinishAndMaybeEnd room) as room1 eqn:Hroom1. clear Hroom1.
  unfold ensureFinishAndMaybeEnd. rewrite Hg', Hpl, Hm.
  assert (Hfix : recordFinished (playersState g) (players room) (finished g') = finished g').
  { rewrite Hf. apply recordFinished_fixed. }
  rewrite Hfix.
  assert (Hsame : setFinished (finished g') g' = g') by by destruct g'.
  rewrite Hsame.
  destruct Hcond as [(Hph & Hw & Hl)|Hcond].
  - destruct (bool_decide _ && bool_decide _).
    + rewrite <- Hw, <- Hl.
      assert (HsameWL : setWinnerLoser (winnerId g') (loserId g') g' = g') by by destruct g'.
      rewrite HsameWL, Hturn. destruct room1; simpl in *. by subst.
    + destruct (currentPlayerId g') as [c|] eqn:Hc; [|by destruct room1; simpl in *; subst].
      simpl in Hturn. rewrite Hturn. by destruct room1; simpl in *; subst.
  - rewrite Hcond.
    destruct (currentPlayerId g') as [c|] eqn:Hc; [|by destruct room1; simpl in *; subst].
    simpl in Hturn. rewrite Hturn. by destruct room1; simpl in *; subst.
Qed.
End Resolved.

(** ** More on drawing and on taking cards out of a zone *)

Section Helpers.
Implicit Types (g : GameState) (pid : string) (ps : PlayerState)
  (arr : list Card) (ids : list string).

(** X6. [drawUpToThree] does nothing for a socket id without player state,
    for a hand of three or more and for an empty deck; otherwise it moves
    cards from the front of the deck to the end of the hand, in order, until
    the hand holds three or the deck is empty. It touches nothing else of the
    game, and drawing a second time changes nothing. *)
Theorem drawUpToThree_fills_once g pid :
  drawUpToThree (drawUpToThree g pid) pid = drawUpToThree g pid
  ∧ (playersState g !! pid = None → drawUpToThree g pid = g)
  ∧ (∀ ps, playersState g !! pid = Some ps →
       ((3 ≤ length (hand ps))%nat ∨ deck g = [] → drawUpToThree g pid = g)
       ∧ ∃ n, n = Nat.min (3 - length (hand ps)) (length (deck g))
           ∧ drawUpToThree g pid
             = setDeck (drop n (deck g))
                 (putPlayer pid (setHand (hand ps ++ take n (deck g)) ps) g)
           ∧ ((3 ≤ length (hand ps ++ take n (deck g)))%nat ∨ drop n (deck g) = [])).
Proof.
  assert (Hmin : ∀ (h d : list Card),
            take (3 - length h) d = take (Nat.min (3 - length h) (length d)) d
            ∧ drop (3 - length h) d = drop (Nat.min (3 - length h) (length d)) d).
  { intros h d. destruct (decide (3 - length h ≤ length d)%nat) as [Hle|Hgt].
    - by rewrite Nat.min_l.
    - rewrite Nat.min_r by lia. by rewrite take_ge, firstn_all, drop_ge, drop_all by lia. }
  assert (Hspec : ∀ g0 ps, playersState g0 !! pid = Some ps →
            drawUpToThree g0 pid
            = setDeck (drop (Nat.min (3 - length (hand ps)) (length (deck g0))) (deck g0))
                (putPlayer pid
                   (setHand (hand ps ++ take (Nat.min (3 - length (hand ps))
                                                (length (deck g0))) (deck g0)) ps) g0)).
  { intros g0 ps Hps. rewrite (drawUpToThree_spec g0 pid ps Hps).
    by destruct (Hmin (hand ps) (deck g0)) as [-> ->]. }
  assert (Hsame : ∀ g0 ps, playersState g0 !! pid = Some ps →
            (3 ≤ length (hand ps))%nat ∨ deck g0 = [] → drawUpToThree g0 pid = g0).
  { intros g0 ps Hps Hcase. rewrite (Hspec g0 ps Hps).
    assert (Hn : Nat.min (3 - length (hand ps)) (length (deck g0)) = O).
    { destruct Hcase as [?| ->]; [lia|]. simpl. lia. }
    rewrite Hn, take_0, drop_0, app_nil_r.
    unfold setDeck, putPlayer, setPlayersState. cbn.
    rewrite insert_id by by destruct ps. by destruct g0. }
  split; [|split].
  - destruct (playersState g !! pid) as [ps|] eqn:Hps.
    + rewrite (Hspec g ps Hps).
      set (n := Nat.min (3 - length (hand ps)) (length (deck g))).
      apply (Hsame _ (setHand (hand ps ++ take n (deck g)) ps)).
      * cbn. apply lookup_insert_eq.
      * cbn. rewrite length_app, length_take.
        destruct (decide (3 - length (hand ps) ≤ length (deck g))%nat).
        -- left. lia.
        -- right. apply drop_ge. lia.
    + assert (Hg : drawUpToThree g pid = g) by (unfold drawUpToThree; by rewrite Hps).
      by rewrite !Hg.
  - intros Hps. unfold drawUpToThree. by rewrite Hps.
  - intros ps Hps. split; [by apply Hsame|].
    eexists. split; [reflexivity|]. split; [by apply Hspec|].
    rewrite length_app, length_take.
    destruct (decide (3 - length (hand ps) ≤ length (deck g))%nat).
    + left. lia.
    + right. apply drop_ge. lia.
Qed.

(** X7. [removeCardsByIds] splits the array, keeping the order of the cards
    on both sides: [removed] are the cards whose id is among [ids], [kept]
    the others, and together they are the cards of the array. Only the set of
    ids matters, not their order or repetition; no id removes nothing; and
    nothing more can be removed from [kept] with the same ids. *)
Theorem removeCardsByIds_partition arr ids :
  (removeCardsByIds arr ids).1 `sublist_of` arr
  ∧ (removeCardsByIds arr ids).2 `sublist_of` arr
  ∧ (removeCardsByIds arr ids).1 ++ (removeCardsByIds arr ids).2 ≡ₚ arr
  ∧ (∀ c, c ∈ (removeCardsByIds arr ids).1 ↔ c ∈ arr ∧ id c ∈ ids)
  ∧ (∀ c, c ∈ (removeCardsByIds arr ids).2 ↔ c ∈ arr ∧ id c ∉ ids)
  ∧ (∀ ids', (∀ i, i ∈ ids ↔ i ∈ ids') →
             removeCardsByIds arr ids' = removeCardsByIds arr ids)
  ∧ removeCardsByIds arr [] = ([], arr)
  ∧ removeCardsByIds (removeCardsByIds arr ids).2 ids = ([], (removeCardsByIds arr ids).2).
Proof.
  rewrite !removeCardsByIds_filter. cbn [fst snd].
  split; [apply sublist_filter|]. split; [apply sublist_filter|].
  split; [apply (filter_app_complement (λ c, id c ∈ ids))|].
  split; [intros c; rewrite list_elem_of_filter; tauto|].
  split; [intros c; rewrite list_elem_of_filter; tauto|].
  split; [|split].
  - intros ids' Hids. rewrite removeCardsByIds_filter. f_equal.
    + apply list_filter_iff. intros c. symmetry. apply Hids.
    + apply list_filter_iff. intros c. by rewrite Hids.
  - f_equal.
    + induction arr as [|c arr IH]; [done|]. rewrite filter_cons_False; [done|].
      apply not_elem_of_nil.
    + induction arr as [|c arr IH]; [done|]. rewrite filter_cons_True; [by f_equal|].
      apply not_elem_of_nil.
  - f_equal.
    + rewrite list_filter_filter. induction arr as [|c arr IH]; [done|].
      rewrite filter_cons_False; [done|]. tauto.
    + rewrite list_filter_filter. apply list_filter_iff. tauto.
Qed.
End Helpers.

(** ** The handlers' results, field by field *)

Section Shapes.
Implicit Types (room : Room) (g : GameState) (ps : PlayerState)
  (sid : string) (req : PlayCards) (z : Zone) (played : list Card) (first : Card).

Lemma maybeDraw_drawn g sid ps z :
  playersState g !! sid = Some ps →
  (if bool_decide (z = ZHand) then drawUpToThree g sid else g)
  = setDeck (drawn z ps (deck g)).2 (putPlayer sid (drawn z ps (deck g)).1 g).
Proof.
  intros Hps. unfold drawn. case_bool_decide as Hz; cbn [fst snd].
  - by apply drawUpToThree_spec.
  - unfold setDeck, putPlayer, setPlayersState. cbn.
    rewrite insert_id by done. by destruct g.
Qed.

Lemma resolvePlay_resolved room g sid ps z played first :
  game room = Some g → head played = Some first →
  (resolvePlay room g sid ps z played).2
  = ensureFinishAndMaybeEnd (setGame (resolved room g sid ps z played first) room).
Proof.
  intros Hg Hfirst. destruct played as [|c rest]; [done|]. injection Hfirst as ->.
  unfold resolvePlay, resolved. destruct (negb _).
  { cbn [snd]. do 2 f_equal. unfold setCurrent, setPile, putPlayer, setPlayersState.
    cbn. f_equal. by apply (nextPlayerId_setGame room g). }
  cbn [pile setPile].
  destruct (_ || _); cbn [snd]; do 2 f_equal.
  - rewrite (maybeDraw_drawn _ sid ps z) by apply lookup_insert_eq.
    unfold setDeck, setPile, setBurned, putPlayer, setPlayersState. cbn.
    by rewrite insert_insert_eq.
  - rewrite (maybeDraw_drawn _ sid ps z) by apply lookup_insert_eq.
    unfold setCurrent, setDeck, setPile, putPlayer, setPlayersState. cbn.
    rewrite insert_insert_eq. f_equal. by apply (nextPlayerId_setGame room g).
Qed.

(** An accepted [play:cards] request ends in the finish resolution of the
    game written out in [resolved]. *)
Lemma playCards_resolved room sid req g ps (ps1 : PlayerState) z played :
  accepts room sid req g ps ps1 z played →
  ∃ first, head played = Some first
    ∧ (playCards room sid req).2
      = ensureFinishAndMaybeEnd (setGame (resolved room g sid ps1 z played first) room).
Proof.
  intros Hacc. rewrite (playCards_accepts _ _ _ _ _ _ _ _ Hacc).
  destruct Hacc as [Hg _ _ _ _ _ Hsel]. apply selectCards_nonempty in Hsel.
  destruct played as [|first rest]; [done|]. exists first. split; [done|].
  by apply resolvePlay_resolved.
Qed.

Lemma playPickup_pickedUp room sid g ps :
  game room = Some g → phase room = PhPlaying → currentPlayerId g = Some sid →
  playersState g !! sid = Some ps →
  playPickup room sid
  = (Success false false, ensureFinishAndMaybeEnd (setGame (pickedUp room g sid ps) room)).
Proof.
  intros Hg Hph Hturn Hps. unfold playPickup. rewrite Hg, Hps.
  rewrite (bool_decide_eq_false_2 (phase room ≠ PhPlaying)) by (intros H; by apply H).
  rewrite (bool_decide_eq_false_2 (currentPlayerId g ≠ Some sid)) by (intros H; by apply H).
  do 3 f_equal. unfold pickedUp, setCurrent, setPile, putPlayer, setPlayersState. cbn.
  f_equal. by apply (nextPlayerId_setGame room g).
Qed.

Lemma playPickup_refused room sid :
  isFailure (playPickup room sid).1 = false →
  ∃ g ps, game room = Some g ∧ phase room = PhPlaying ∧ currentPlayerId g = Some sid
    ∧ playersState g !! sid = Some ps.
Proof.
  unfold playPickup. destruct (game room) as [g|]; [|done].
  case_bool_decide as Hph; [done|]. case_bool_decide as Hturn; [done|].
  destruct (playersState g !! sid) as [ps|] eqn:Hps; [|done].
  intros _. by exists g, ps.
Qed.
End Shapes.

(** ** Cards played together *)

Section SameRank.
Implicit Types (ps : PlayerState) (z : Zone) (req : PlayCards)
  (played zone : list Card) (first c : Card).

Lemma findById_NoDup zone c :
  NoDup (id <$> zone) → c ∈ zone → findById zone (id c) = Some c.
Proof.
  induction zone as [|c0 zone IH]; intros Hnd Hc; [by apply elem_of_nil in Hc|].
  rewrite fmap_cons in Hnd. apply NoDup_cons in Hnd as [Hc0 Hnd]. simpl.
  apply elem_of_cons in Hc as [->|Hc].
  - by rewrite bool_decide_eq_true_2.
  - rewrite bool_decide_eq_false_2; [by apply IH|].
    intros Heq. apply Hc0. rewrite Heq. by apply list_elem_of_fmap_2.
Qed.

(** The check "You can only play multiple cards of the same rank" as the
    handler makes it: by the first card found under each id. *)
Lemma ranks_every_first zone (ids : list string) :
  forallb (λ x, bool_decide
                  (Some x = ((λ i, r <$> findById zone i) <$> ids) !! 0%nat))
          ((λ i, r <$> findById zone i) <$> ids) = true →
  ∃ k, ∀ i, i ∈ ids → r <$> findById zone i = k.
Proof.
  intros Hranks. destruct ids as [|i0 ids].
  { exists None. intros i Hi. by apply elem_of_nil in Hi. }
  exists (r <$> findById zone i0). intros i Hi.
  rewrite forallb_forall in Hranks.
  specialize (Hranks (r <$> findById zone i)).
  rewrite bool_decide_eq_true in Hranks.
  assert (Hin : In (r <$> findById zone i)
                   ((λ i, r <$> findById zone i) <$> (i0 :: ids))).
  { apply list_elem_of_In, list_elem_of_fmap. by exists i. }
  specialize (Hranks Hin). by injection Hranks.
Qed.

Lemma selectCards_ranks ps z req (ps1 : PlayerState) played :
  z ≠ ZFaceDown → selectCards ps z req = inr (ps1, played) →
  ∃ k, ∀ i, i ∈ cardIds req → r <$> findById (zoneCards z ps) i = k.
Proof.
  intros Hz. unfold selectCards.
  destruct z; [| |done].
  all: match goal with |- context [bool_decide (?a = ZHand)] =>
         let b := eval vm_compute in (bool_decide (a = ZHand)) in
         change (bool_decide (a = ZHand)) with b end.
  all: cbn [zoneCards].
  all: case_bool_decide as Hlen; [done|].
  all: destruct (forallb _ (cardIds req)) eqn:Hall; [|done]; cbn [negb].
  all: destruct (forallb _ (_ <$> cardIds req)) eqn:Hranks; [|done]; cbn [negb].
  all: intros _; by apply ranks_every_first.
Qed.

Lemma selectCards_same_rank ps z req (ps1 : PlayerState) played first :
  selectCards ps z req = inr (ps1, played) →
  NoDup (id <$> zoneCards z ps) → head played = Some first →
  Forall (λ c, r c = r first) played.
Proof.
  intros Hsel Hnd Hfirst. destruct (decide (z = ZFaceDown)) as [->|Hz].
  { apply selectCards_faceDown in Hsel as (n & c & _ & _ & -> & _).
    injection Hfirst as ->. by repeat constructor. }
  destruct (selectCards_ranks _ _ _ _ _ Hz Hsel) as [k Hk].
  apply selectCards_byId in Hsel as (_ & _ & -> & _); [|done].
  assert (Hrank : ∀ c, c ∈ filter (λ c, id c ∈ cardIds req) (zoneCards z ps) →
                       Some (r c) = k).
  { intros c Hc. apply list_elem_of_filter in Hc as [Hid Hc].
    rewrite <- (Hk _ Hid), (findById_NoDup _ _ Hnd Hc). done. }
  apply Forall_forall. intros c Hc.
  assert (Hf : first ∈ filter (λ c, id c ∈ cardIds req) (zoneCards z ps)).
  { destruct (filter _ _); [done|]. injection Hfirst as ->. by left. }
  apply Hrank in Hc, Hf. congruence.
Qed.

Lemma countEights_same_rank played first :
  Forall (λ c, r c = r first) played →
  countEights played = if bool_decide (r first = R8) then length played else O.
Proof.
  intros Hall. unfold countEights. induction Hall as [|c l Hc _ IH]; simpl.
  - by case_bool_decide.
  - rewrite filter_cons. rewrite Hc. case_bool_decide as H8.
    + rewrite decide_True by done. simpl. by rewrite IH.
    + by rewrite decide_False.
Qed.
End SameRank.

(** ** The invariant of the table *)

Section Table.
Implicit Types (room : Room) (g : GameState) (sid c : string) (ps : PlayerState)
  (fin ids : list string) (z : Zone).

Lemma recordFinished_NoDup (m : gmap string PlayerState) (l : list Player) fin :
  NoDup fin → NoDup (recordFinished m l fin).
Proof.
  revert fin. induction l as [|p l IH]; intros fin Hnd; simpl; [done|].
  destruct (m !! p_id p) as [st|]; [|by apply IH].
  destruct (isPlayerOut st); simpl; [|by apply IH].
  case_bool_decide as Hin; simpl; [by apply IH|].
  apply IH. apply NoDup_app. split; [done|]. split; [|apply NoDup_singleton].
  intros x Hx Hx'. apply list_elem_of_singleton in Hx' as ->. done.
Qed.

Lemma activeIds_nil ids : activeIds ids [] = ids.
Proof.
  unfold activeIds. induction ids as [|x ids IH]; [done|].
  rewrite filter_cons_True by apply not_elem_of_nil. by rewrite IH.
Qed.

(** Recording one more player takes at most one seat out of the circle. *)
Lemma active_shrinks ids fin fin' sid :
  NoDup ids → (∀ x, x ∈ fin' → x = sid ∨ x ∈ fin) →
  (length (activeIds ids fin) ≤ S (length (activeIds ids fin')))%nat.
Proof.
  intros Hnd Hfin. unfold activeIds.
  assert (Hsub : filter (λ i, i ∉ fin) ids ⊆+ sid :: filter (λ i, i ∉ fin') ids).
  { apply NoDup_submseteq; [by apply NoDup_filter|].
    intros x Hx. apply list_elem_of_filter in Hx as [Hx Hin].
    destruct (decide (x = sid)) as [->|Hne]; [by left|]. right.
    apply list_elem_of_filter. split; [|done]. intros Hx'. by destruct (Hfin _ Hx'). }
  apply submseteq_length in Hsub. simpl in Hsub. lia.
Qed.

Lemma nextPlayerId_some room g x k :
  game room = Some g → activeOf room g ≠ [] →
  ∃ y, nextPlayerId room x k = Some y ∧ y ∈ activeOf room g.
Proof.
  intros Hg Hact. rewrite nextPlayerId_unfold. rewrite Hg. fold (activeOf room g).
  rewrite bool_decide_eq_false_2 by done.
  assert (Hlen : (0 < length (activeOf room g))%nat).
  { destruct (activeOf room g); [done|simpl; lia]. }
  destruct (lookup_lt_is_Some_2 (activeOf room g)
              ((default O (indexOf (activeOf room g) x) + k) mod length (activeOf room g))%nat)
    as [y Hy].
  { apply Nat.mod_upper_bound. lia. }
  exists y. split; [done|]. by eapply list_elem_of_lookup_2.
Qed.

(** The room [ensureFinishAndMaybeEnd] leaves, field by field. *)
Lemma ensureFinish_result room g :
  game room = Some g →
  ∃ cur w l ph,
    ensureFinishAndMaybeEnd room
    = mkRoom (code room) (hostSocketId room) (players room) ph
        (Some (mkGame (deck g) (pile g) (burned g) cur (playersState g)
                 (recordFinished (playersState g) (players room) (finished g)) w l))
    ∧ (hasCurrent (recordFinished (playersState g) (players room) (finished g))
                  (currentPlayerId g) = false → cur = currentPlayerId g)
    ∧ (activeIds (p_id <$> players room)
                 (recordFinished (playersState g) (players room) (finished g)) ≠ [] →
       hasCurrent (recordFinished (playersState g) (players room) (finished g))
                  (currentPlayerId g) = true →
       ∃ c, cur = Some c
            ∧ c ∈ activeIds (p_id <$> players room)
                    (recordFinished (playersState g) (players room) (finished g)))
    ∧ ((length (activeIds (p_id <$> players room)
                  (recordFinished (playersState g) (players room) (finished g))) = 1%nat
        ∧ (2 ≤ length (players room))%nat)
       ∧ ph = PhEnded
       ∧ w = recordFinished (playersState g) (players room) (finished g) !! 0%nat
       ∧ l = activeIds (p_id <$> players room)
               (recordFinished (playersState g) (players room) (finished g)) !! 0%nat
       ∨ ¬ (length (activeIds (p_id <$> players room)
                     (recordFinished (playersState g) (players room) (finished g))) = 1%nat
            ∧ (2 ≤ length (players room))%nat)
         ∧ ph = phase room ∧ w = winnerId g ∧ l = loserId g).
Proof.
  intros Hg. unfold ensureFinishAndMaybeEnd. rewrite Hg.
  set (fin := recordFinished (playersState g) (players room) (finished g)).
  set (active := activeIds (p_id <$> players room) fin).
  rewrite length_fmap, <- bool_decide_and.
  destruct (decide (length active = 1%nat ∧ (2 ≤ length (players room))%nat))
    as [Hend|Hend].
  - rewrite bool_decide_eq_true_2 by done.
    cbn [currentPlayerId loserId setWinnerLoser setFinished].
    destruct (hasCurrent fin (currentPlayerId g)) eqn:Hc.
    + eexists _, _, _, _. split; [reflexivity|]. split; [done|]. split.
      * intros _ _. destruct active as [|y rest] eqn:Hact; [by destruct Hend|].
        exists y. split; [done|]. by left.
      * left. done.
    + eexists _, _, _, _. split; [reflexivity|]. split; [done|]. split; [done|].
      left. done.
  - rewrite bool_decide_eq_false_2 by done.
    cbn [currentPlayerId setFinished].
    destruct (currentPlayerId g) as [c|] eqn:Hc; cbn [hasCurrent].
    + destruct (decide (c ∈ fin)) as [Hin|Hin].
      * rewrite !bool_decide_eq_true_2 by done.
        destruct (decide (active = [])) as [Hact|Hact].
        -- eexists _, _, _, _. split; [reflexivity|]. split; [done|]. split; [done|].
           right. done.
        -- destruct (nextPlayerId_some (setGame (setFinished fin g) room)
                       (setFinished fin g) c 1 eq_refl Hact) as (y & Hy & Hyin).
           eexists _, _, _, _. split; [reflexivity|]. split; [done|]. split.
           ++ intros _ _. exists y. by split.
           ++ right. done.
      * rewrite !bool_decide_eq_false_2 by done.
        eexists _, _, _, _. split; [reflexivity|]. split; [by rewrite Hc|].
        split; [done|]. right; done.
    + eexists _, _, _, _. split; [reflexivity|]. split; [by rewrite Hc|].
      split; [done|]. right; done.
Qed.

(** The finish resolution of a game in play keeps the table in order. *)
Lemma ensureFinish_tableInv room g sid c0 :
  game room = Some g → phase room = PhPlaying →
  NoDup (p_id <$> players room) → (2 ≤ length (players room))%nat →
  (∀ q, q ∈ p_id <$> players room ↔ is_Some (playersState g !! q)) →
  currentPlayerId g = Some c0 → c0 ∈ p_id <$> players room →
  NoDup (finished g) →
  (∀ c, c ∈ finished g →
        c ∈ p_id <$> players room
        ∧ ∃ ps, playersState g !! c = Some ps ∧ isPlayerOut ps = true) →
  Forall (λ x : Card, r x ≠ R10) (pile g) → lastFourNon3Same (pile g) = false →
  winnerId g = None → loserId g = None →
  (2 ≤ length (activeOf room g))%nat →
  (∀ x, x ≠ sid →
        x ∈ recordFinished (playersState g) (players room) (finished g) →
        x ∈ finished g) →
  ∃ g', game (ensureFinishAndMaybeEnd room) = Some g'
        ∧ tableInv (ensureFinishAndMaybeEnd room) g'.
Proof.
  intros Hg Hph Hids Htwo Hstates Hcur Hc0 Hnd Hout Hten Hfour Hw Hl Hact Hothers.
  destruct (ensureFinish_result room g Hg)
    as (cur & w & l & ph & -> & HcurA & HcurB & Hend).
  set (fin := recordFinished (playersState g) (players room) (finished g)) in *.
  set (active := activeIds (p_id <$> players room) fin) in *.
  assert (Hlen : (1 ≤ length active)%nat).
  { pose proof (active_shrinks (p_id <$> players room) (finished g) fin sid Hids) as Hs.
    unfold activeOf in Hact. fold active in Hs.
    assert (length (activeIds (p_id <$> players room) (finished g)) ≤ S (length active))%nat;
      [|lia].
    apply Hs. intros x Hx. destruct (decide (x = sid)); [by left|right]. by apply Hothers. }
  assert (Hne : active ≠ []) by (destruct active; [simpl in Hlen; lia|done]).
  eexists. split; [reflexivity|].
  constructor; cbn [players phase finished pile burned currentPlayerId playersState
                    winnerId loserId]; unfold activeOf;
    cbn [players finished]; fold fin; fold active; try done.
  - rewrite Hcur in HcurA, HcurB.
    destruct (hasCurrent fin (Some c0)) eqn:Hhas.
    + by apply HcurB.
    + exists c0. split; [by apply HcurA|]. apply list_elem_of_filter.
      split; [|done]. by apply bool_decide_eq_false in Hhas.
  - by apply recordFinished_NoDup.
  - intros c Hc. apply recordFinished_elem in Hc as [Hc|(p & st & Hp & <- & Hst & Hsto)].
    + by apply Hout.
    + split; [by apply list_elem_of_fmap_2|]. by exists st.
  - destruct Hend as [(_ & -> & _)|(_ & -> & _)]; [done|by rewrite Hph].
  - intros ->. destruct Hend as [(_ & ? & _)|(_ & Heq & _)]; [done|].
    by rewrite Hph in Heq.
  - intros ->. destruct Hend as [(_ & ? & _)|(Hno & _)]; [done|].
    destruct (decide (length active = 1%nat)); [tauto|lia].
  - intros ->. destruct Hend as [((Hone & _) & _ & -> & ->)|(_ & Heq & _)];
      [|by rewrite Hph in Heq].
    destruct active as [|l0 [|? ?]] eqn:Ha; try done.
    destruct fin as [|w0 rest] eqn:Hf.
    { exfalso. subst active. rewrite activeIds_nil in Ha.
      rewrite <- (length_fmap p_id), Ha in Htwo. simpl in Htwo. lia. }
    by exists w0, l0.
  - intros Hnot. destruct Hend as [(_ & -> & _)|(_ & _ & -> & ->)]; done.
Qed.

(** The cards of one zone of one player have ids of their own when the cards
    of the game have. *)
Lemma zone_NoDup g sid ps z :
  NoDup (id <$> allCards g) → playersState g !! sid = Some ps →
  NoDup (id <$> zoneCards z ps).
Proof.
  intros Hnd Hps. unfold allCards in Hnd.
  rewrite (playersCards_delete _ _ _ Hps) in Hnd. unfold playerCards in Hnd.
  rewrite !fmap_app in Hnd. rewrite !NoDup_app in Hnd.
  destruct z; simpl; tauto.
Qed.

(** What a turn of the player [sid] needs to hand to the finish resolution
    for the table to stay in order: [g1] differs from the game [g] before the
    turn in the state of [sid], the deck, the pile, the burned cards and the
    turn only. *)
Lemma turn_tableInv room g sid ps (ps' : PlayerState) g1 c0 :
  game room = Some g → tableInv room g → recorded room g →
  phase room = PhPlaying → currentPlayerId g = Some sid →
  playersState g !! sid = Some ps →
  playersState g1 = <[sid := ps']> (playersState g) →
  finished g1 = finished g → winnerId g1 = winnerId g → loserId g1 = loserId g →
  currentPlayerId g1 = Some c0 → c0 ∈ p_id <$> players room →
  Forall (λ x : Card, r x ≠ R10) (pile g1) → lastFourNon3Same (pile g1) = false →
  ∃ g', game (ensureFinishAndMaybeEnd (setGame g1 room)) = Some g'
        ∧ tableInv (ensureFinishAndMaybeEnd (setGame g1 room)) g'.
Proof.
  intros Hg Hinv Hrec Hph Hturn Hps Hm Hfin Hw Hl Hcur Hc0 Hten Hfour.
  destruct Hinv as [Hids Htwo Hstates [c [Hc Hcact]] Hnd Hout _ _ _ _ Hplaying _ Hopen].
  rewrite Hturn in Hc. injection Hc as <-.
  apply activeOf_not_finished in Hcact.
  destruct Hopen as [Hw0 Hl0]; [by rewrite Hph|].
  apply (ensureFinish_tableInv (setGame g1 room) g1 sid c0); try done.
  - intros q. cbn [players setGame]. rewrite Hm, lookup_insert_is_Some, Hstates.
    split; [|intros [<-|[_ ?]]; [by eexists|done]].
    intros Hq. destruct (decide (sid = q)); [by left|by right].
  - by rewrite Hfin.
  - intros c Hc. rewrite Hfin in Hc. destruct (Hout c Hc) as [Hcid (st & Hst & Hsto)].
    split; [done|]. exists st. split; [|done]. rewrite Hm, lookup_insert_ne; [done|].
    by intros ->.
  - congruence.
  - congruence.
  - unfold activeOf. cbn [players setGame]. rewrite Hfin. by apply Hplaying.
  - intros x Hx. cbn [players setGame]. rewrite Hm, Hfin.
    apply recordFinished_others; [|done]. by apply recorded_others.
Qed.

Lemma playing_recorded room g :
  gameInv room → game room = Some g → phase room = PhPlaying → recorded room g.
Proof.
  unfold gameInv. intros Hinv Hg Hph. rewrite Hg in Hinv.
  rewrite decide_False in Hinv by (by rewrite Hph). tauto.
Qed.

Lemma active_is_player room g x : x ∈ activeOf room g → x ∈ p_id <$> players room.
Proof. unfold activeOf, activeIds. intros Hx. apply list_elem_of_filter in Hx. tauto. Qed.

Lemma playing_next room g sid k :
  game room = Some g → tableInv room g → phase room = PhPlaying →
  ∃ y, nextPlayerId room sid k = Some y ∧ y ∈ p_id <$> players room.
Proof.
  intros Hg Htab Hph. pose proof (ti_playing _ _ Htab Hph) as Hlen.
  destruct (nextPlayerId_some room g sid k Hg) as (y & Hy & Hyin).
  { destruct (activeOf room g); [simpl in Hlen; lia|done]. }
  exists y. split; [done|]. by eapply active_is_player.
Qed.

Lemma playPickup_table room sid g :
  game room = Some g → gameInv room → tableInv room g →
  ∃ g', game (playPickup room sid).2 = Some g' ∧ tableInv (playPickup room sid).2 g'.
Proof.
  intros Hg Hinv Htab. destruct (isFailure (playPickup room sid).1) eqn:Hf.
  { rewrite playPickup_failure by done. by exists g. }
  destruct (playPickup_refused _ _ Hf) as (g0 & ps & Hg0 & Hph & Hturn & Hps).
  rewrite Hg in Hg0. injection Hg0 as <-.
  rewrite (playPickup_pickedUp room sid g ps) by done. cbn [snd].
  destruct (playing_next room g sid 1 Hg Htab Hph) as (y & Hy & Hyin).
  apply (turn_tableInv room g sid ps (setHand (hand ps ++ pile g) ps) _ y); try done.
  by apply playing_recorded.
Qed.

Lemma playCards_table room sid req g :
  game room = Some g → gameInv room → NoDup (id <$> allCards g) → tableInv room g →
  ∃ g', game (playCards room sid req).2 = Some g' ∧ tableInv (playCards room sid req).2 g'.
Proof.
  intros Hg Hinv Hnd Htab. destruct (isFailure (playCards room sid req).1) eqn:Hf.
  { rewrite playCards_failure by done. by exists g. }
  destruct (playCards_accepted _ _ _ Hf) as (g0 & ps & ps1 & z & played & Hacc).
  destruct (playCards_resolved _ _ _ _ _ _ _ _ Hacc) as (first & Hfirst & ->).
  destruct Hacc as [Hg0 Hph Hturn Hps Hz Hsrc Hsel].
  rewrite Hg in Hg0. injection Hg0 as <-.
  pose proof (playing_recorded room g Hinv Hg Hph) as Hrec.
  pose proof (selectCards_same_rank _ _ _ _ _ _ Hsel (zone_NoDup g sid ps z Hnd Hps) Hfirst)
    as Hsame.
  destruct (playing_next room g sid 1 Hg Htab Hph) as (y1 & Hy1 & Hy1in).
  destruct (playing_next room g sid (1 + countEights played) Hg Htab Hph)
    as (yk & Hyk & Hykin).
  assert (Hsid : sid ∈ p_id <$> players room).
  { destruct (ti_turn _ _ Htab) as (c & Hc & Hcin). rewrite Hturn in Hc.
    injection Hc as <-. by eapply active_is_player. }
  unfold resolved. destruct (negb (canPlayOnPile _ _)); [|destruct (_ || _) eqn:Hburn].
  - by apply (turn_tableInv room g sid ps (setHand (hand ps1 ++ played ++ pile g) ps1) _ y1).
  - by apply (turn_tableInv room g sid ps (drawn z ps1 (deck g)).1 _ sid).
  - apply orb_false_elim in Hburn as [Hten Hfour]. apply bool_decide_eq_false in Hten.
    apply (turn_tableInv room g sid ps (drawn z ps1 (deck g)).1 _ yk); try done.
    cbn [pile]. apply Forall_app. split; [apply (ti_ten _ _ Htab)|].
    eapply Forall_impl; [exact Hsame|]. intros x Hx. cbn beta in Hx. by rewrite Hx.
Qed.

Lemma setFaceUpHandler_table room sid ids g :
  game room = Some g → gameInv room → tableInv room g →
  ∃ g', game (setFaceUpHandler room sid ids).2 = Some g'
        ∧ tableInv (setFaceUpHandler room sid ids).2 g'.
Proof.
  intros Hg Hinv Htab. destruct (isFailure (setFaceUpHandler room sid ids).1) eqn:Hf.
  { rewrite setFaceUpHandler_failure by done. by exists g. }
  revert Hf. unfold setFaceUpHandler. rewrite Hg.
  destruct (playersState g !! sid) as [you|] eqn:Hyou; [|done].
  case_bool_decide as Hst; [done|]. case_bool_decide as Hlen; [done|].
  destruct (forallb _ ids) eqn:Hall; [|done]. cbn [negb]. intros _.
  assert (Hph : phase room = PhSetup).
  { unfold gameInv in Hinv. rewrite Hg in Hinv.
    destruct (decide (phase room = PhSetup)) as [|Hno]; [done|].
    destruct Hinv as [Hstages _]. specialize (Hstages sid you Hyou). congruence. }
  destruct Htab as [Hids Htwo Hstates Hturn Hnd Hout Hten Hfour Hlobby Hsetup _ _ Hopen].
  destruct (Hsetup Hph) as (Hfin & Hpile & Hburned).
  destruct Hopen as [Hw Hl]; [by rewrite Hph|].
  assert (Hact : activeOf room g = p_id <$> players room).
  { unfold activeOf. rewrite Hfin. apply activeIds_nil. }
  set (you1 := setStage StReady _).
  assert (Hdom : ∀ q, q ∈ p_id <$> players room
                      ↔ is_Some (<[sid := you1]> (playersState g) !! q)).
  { intros q. rewrite lookup_insert_is_Some, Hstates.
    split; [|intros [<-|[_ ?]]; [by eexists|done]].
    intros Hq. destruct (decide (sid = q)); [by left|by right]. }
  destruct (allReady _); cbn [snd]; (eexists; split; [reflexivity|]).
  - constructor; cbn [players phase setGame setPhase finished pile burned currentPlayerId
                      playersState winnerId loserId setPlayersState putPlayer];
      try done.
    + intros q. by rewrite lookup_fmap, fmap_is_Some.
    + rewrite Hfin. intros c Hc. by apply elem_of_nil in Hc.
    + intros _. change (2 ≤ length (activeOf room g))%nat. rewrite Hact, length_fmap. done.
  - constructor; cbn [players phase setGame setPhase finished pile burned currentPlayerId
                      playersState winnerId loserId setPlayersState putPlayer];
      try done.
    + rewrite Hfin. intros c Hc. by apply elem_of_nil in Hc.
    + by rewrite Hph.
    + by rewrite Hph.
Qed.

Lemma handle_fullInv room sid msg : fullInv room → fullInv (handle room sid msg).2.
Proof.
  intros (g & Hg & Hinv & Hsetup & Hnd & Htab).
  assert (Hnew : ∃ g', game (handle room sid msg).2 = Some g'
                       ∧ tableInv (handle room sid msg).2 g').
  { destruct msg; simpl.
    - by apply (setFaceUpHandler_table room sid chosenCardIds g).
    - by apply (playCards_table room sid req g).
    - by apply (playPickup_table room sid g). }
  destruct Hnew as (g' & Hg' & Htab'). exists g'. split; [done|].
  split; [by apply handle_inv|]. split; [by apply handle_setupInv|]. split; [|done].
  pose proof (handle_cards room sid msg Hsetup) as Hp. unfold roomCards in Hp.
  rewrite Hg, Hg' in Hp. by rewrite Hp.
Qed.

Lemma run_fullInv room (msgs : list (string * Message)) :
  fullInv room → fullInv (run room msgs).
Proof.
  revert room. induction msgs as [|[sid msg] msgs IH]; intros room Hinv; [done|].
  simpl. by apply IH, handle_fullInv.
Qed.

Lemma gameStart_fullInv room sid shuffled room0 :
  NoDup (p_id <$> players room) → NoDup (id <$> shuffled) →
  gameStart room sid shuffled = (Success false false, room0) → fullInv room0.
Proof.
  intros Hids Hcards Hstart.
  pose proof (gameStart_inv _ _ _ _ Hstart) as Hinv.
  destruct (gameStart_cards _ _ _ _ Hids Hstart) as [Hperm Hsetup].
  revert Hstart Hperm. unfold gameStart.
  case_bool_decide as Hhost; [done|]. case_bool_decide as Htwo; [done|].
  case_bool_decide as Hph; [done|].
  destruct (deal_spec (players room) shuffled ∅ Hids) as (_ & Hseat & Hother).
  destruct (deal (players room) shuffled ∅) as [d m]. simpl in Hseat, Hother.
  intros [= <-] Hperm. eexists. split; [reflexivity|].
  split; [done|]. split; [done|]. split.
  { unfold roomCards in Hperm. cbn [game setGame] in Hperm. by rewrite Hperm. }
  destruct (players room) as [|p0 rest] eqn:Hplayers; [simpl in Htwo; lia|].
  constructor; cbn [players phase setGame setPhase finished pile burned currentPlayerId
                    playersState winnerId loserId]; rewrite ?Hplayers; try done.
  - simpl in *. lia.
  - intros q. split.
    + intros Hq. apply list_elem_of_fmap in Hq as (p & -> & Hp).
      apply list_elem_of_lookup in Hp as [i Hi]. rewrite (Hseat i p Hi). by eexists.
    + intros [st Hst]. destruct (decide (q ∈ p_id <$> p0 :: rest)) as [|Hq]; [done|].
      rewrite (Hother q Hq) in Hst. done.
  - exists (p_id p0). split; [done|]. unfold activeOf. cbn [players setGame setPhase finished].
    rewrite Hplayers, activeIds_nil. by left.
  - apply NoDup_nil_2.
  - intros c Hc. by apply elem_of_nil in Hc.
Qed.

Lemma reached_fullInv room sid shuffled room0 (msgs : list (string * Message)) :
  NoDup (p_id <$> players room) → NoDup (id <$> shuffled) →
  gameStart room sid shuffled = (Success false false, room0) →
  fullInv (run room0 msgs).
Proof. intros Hids Hcards Hstart. by eapply run_fullInv, gameStart_fullInv. Qed.
End Table.

(** ** Games reached from the start *)

Section Reached.
Implicit Types (room : Room) (g : GameState) (sid c : string) (msg : Message)
  (msgs more : list (string * Message)) (shuffled : list Card).

Lemma ensureFinish_seats room :
  players (ensureFinishAndMaybeEnd room) = players room
  ∧ code (ensureFinishAndMaybeEnd room) = code room
  ∧ hostSocketId (ensureFinishAndMaybeEnd room) = hostSocketId room.
Proof.
  destruct (game room) as [g|] eqn:Hg.
  - by destruct (ensureFinish_result room g Hg) as (cur & w & l & ph & -> & _).
  - unfold ensureFinishAndMaybeEnd. by rewrite Hg.
Qed.

(** No message of the game changes who sits at the table, the code of the
    room or its host. *)
Lemma handle_seats room sid msg :
  players (handle room sid msg).2 = players room
  ∧ code (handle room sid msg).2 = code room
  ∧ hostSocketId (handle room sid msg).2 = hostSocketId room.
Proof.
  destruct msg; simpl.
  - unfold setFaceUpHandler. destruct (game room) as [g|]; [|done].
    destruct (playersState g !! sid); [|done].
    repeat (case_bool_decide; [done|]). destruct (negb _); [done|].
    by destruct (allReady _).
  - destruct (isFailure (playCards room sid req).1) eqn:Hf.
    + by rewrite playCards_failure.
    + destruct (playCards_accepted _ _ _ Hf) as (g & ps & ps1 & z & played & Hacc).
      destruct (playCards_resolved _ _ _ _ _ _ _ _ Hacc) as (first & _ & ->).
      apply (ensureFinish_seats (setGame _ room)).
  - destruct (isFailure (playPickup room sid).1) eqn:Hf.
    + by rewrite playPickup_failure.
    + destruct (playPickup_refused _ _ Hf) as (g & ps & Hg & Hph & Hturn & Hps).
      rewrite (playPickup_pickedUp room sid g ps) by done.
      apply (ensureFinish_seats (setGame _ room)).
Qed.

Lemma run_seats room msgs :
  players (run room msgs) = players room
  ∧ code (run room msgs) = code room
  ∧ hostSocketId (run room msgs) = hostSocketId room.
Proof.
  revert room. induction msgs as [|[sid msg] msgs IH]; intros room; [done|].
  simpl. destruct (IH (handle room sid msg).2) as (-> & -> & ->).
  apply handle_seats.
Qed.

Lemma run_app room msgs more : run room (msgs ++ more) = run (run room msgs) more.
Proof.
  revert room. induction msgs as [|[sid msg] msgs IH]; intros room; [done|].
  simpl. apply IH.
Qed.

Lemma gameStart_seats room sid shuffled (room0 : Room) :
  gameStart room sid shuffled = (Success false false, room0) →
  players room0 = players room ∧ code room0 = code room
  ∧ hostSocketId room0 = hostSocketId room ∧ phase room0 = PhSetup.
Proof.
  unfold gameStart. repeat (case_bool_decide; [done|]).
  destruct (deal _ _ _). by intros [= <-].
Qed.

Lemma run_inv room msgs : gameInv room → gameInv (run room msgs).
Proof.
  revert room. induction msgs as [|[sid msg] msgs IH]; intros room Hinv; [done|].
  simpl. by apply IH, handle_inv.
Qed.

Lemma handle_failure room sid msg :
  isFailure (handle room sid msg).1 = true → (handle room sid msg).2 = room.
Proof.
  destruct msg; simpl.
  - apply setFaceUpHandler_failure.
  - apply playCards_failure.
  - apply playPickup_failure.
Qed.

(** A message moves the phase by one step at most, and never back. *)
Lemma handle_phase room sid msg :
  gameInv room →
  phase (handle room sid msg).2 = phase room
  ∨ phase room = PhSetup ∧ phase (handle room sid msg).2 = PhPlaying
  ∨ phase room = PhPlaying ∧ phase (handle room sid msg).2 = PhEnded.
Proof.
  intros Hinv. destruct (isFailure (handle room sid msg).1) eqn:Hf.
  { left. by rewrite handle_failure. }
  destruct msg; simpl in *.
  - revert Hf. unfold setFaceUpHandler. destruct (game room) as [g|] eqn:Hg; [|done].
    destruct (playersState g !! sid) as [you|] eqn:Hyou; [|done].
    case_bool_decide as Hst; [done|]. case_bool_decide as Hlen; [done|].
    destruct (negb _); [done|]. intros _.
    assert (Hph : phase room = PhSetup).
    { unfold gameInv in Hinv. rewrite Hg in Hinv.
      destruct (decide (phase room = PhSetup)) as [|Hno]; [done|].
      destruct Hinv as [Hstages _]. specialize (Hstages sid you Hyou). congruence. }
    destruct (allReady _); cbn; [right; left; done|by left].
  - destruct (playCards_accepted _ _ _ Hf) as (g & ps & ps1 & z & played & Hacc).
    rewrite (playCards_accepts _ _ _ _ _ _ _ _ Hacc).
    destruct (resolvePlay_phase room g sid ps1 z played) as [->|Hend]; [by left|].
    right. right. split; [apply Hacc|done].
  - destruct (playPickup_refused _ _ Hf) as (g & ps & Hg & Hph & Hturn & Hps).
    rewrite (playPickup_pickedUp room sid g ps) by done. cbn [snd].
    match goal with |- context [ensureFinishAndMaybeEnd ?rm] =>
      destruct (ensureFinish_phase rm) as [Heq|Heq] end.
    + left. by rewrite Heq.
    + right. right. done.
Qed.

(** In an ended game every message is refused. *)
Lemma ended_refuses room sid msg :
  gameInv room → phase room = PhEnded → isFailure (handle room sid msg).1 = true.
Proof.
  intros Hinv Hph. destruct msg; simpl.
  - unfold setFaceUpHandler. destruct (game room) as [g|] eqn:Hg; [|done].
    destruct (playersState g !! sid) as [you|] eqn:Hyou; [|done].
    unfold gameInv in Hinv. rewrite Hg in Hinv.
    rewrite decide_False in Hinv by (by rewrite Hph).
    destruct Hinv as [Hstages _]. specialize (Hstages sid you Hyou).
    rewrite bool_decide_eq_true_2; [done|]. by rewrite Hstages.
  - unfold playCards. destruct (game room); [|done].
    rewrite bool_decide_eq_true_2; [done|]. by rewrite Hph.
  - unfold playPickup. destruct (game room); [|done].
    rewrite bool_decide_eq_true_2; [done|]. by rewrite Hph.
Qed.

(** X8. In a game started with players and cards of distinct ids, after any
    messages the turn is on a player of the room who is not recorded as
    finished and has a player state; while the game is played that player
    still holds a card and a [play:pickup] of theirs is accepted: the
    messages of the game alone never leave it without a possible move. *)
Theorem turn_is_on_a_player_who_can_move room sid shuffled (room0 : Room) msgs :
  NoDup (p_id <$> players room) → NoDup (id <$> shuffled) →
  gameStart room sid shuffled = (Success false false, room0) →
  ∃ g c ps,
    game (run room0 msgs) = Some g
    ∧ currentPlayerId g = Some c
    ∧ c ∈ p_id <$> players room
    ∧ (c ∉ finished g)
    ∧ playersState g !! c = Some ps
    ∧ (phase (run room0 msgs) = PhPlaying →
       isPlayerOut ps = false
       ∧ (playPickup (run room0 msgs) c).1 = Success false false).
Proof.
  intros Hids Hcards Hstart.
  destruct (reached_fullInv room sid shuffled room0 msgs Hids Hcards Hstart)
    as (g & Hg & Hinv & _ & _ & Htab).
  destruct (run_seats room0 msgs) as (Hpl & _).
  destruct (gameStart_seats _ _ _ _ Hstart) as (Hpl0 & _).
  rewrite Hpl0 in Hpl.
  destruct (ti_turn _ _ Htab) as (c & Hc & Hact).
  pose proof (activeOf_not_finished _ _ _ Hact) as Hnf.
  apply active_is_player in Hact.
  destruct (proj1 (ti_states _ _ Htab c) Hact) as [ps Hps].
  exists g, c, ps. rewrite <- Hpl. do 5 (split; [done|]).
  intros Hph. split.
  - destruct (isPlayerOut ps) eqn:Hout; [|done]. exfalso. apply Hnf.
    apply list_elem_of_fmap in Hact as (p & -> & Hp).
    by apply (playing_recorded _ _ Hinv Hg Hph p ps).
  - by rewrite (playPickup_pickedUp _ c g ps).
Qed.

(** X9. In a game started with players and cards of distinct ids, after any
    messages [finished] names players of the room, each once; it is empty
    during setup, and from then on a player with a player state is in it
    exactly when that player holds no card in hand, face up or face down. *)
Theorem finished_are_the_players_without_cards room sid shuffled (room0 : Room) msgs :
  NoDup (p_id <$> players room) → NoDup (id <$> shuffled) →
  gameStart room sid shuffled = (Success false false, room0) →
  ∃ g,
    game (run room0 msgs) = Some g
    ∧ NoDup (finished g)
    ∧ (∀ q, q ∈ finished g → q ∈ p_id <$> players room)
    ∧ (phase (run room0 msgs) = PhSetup → finished g = [])
    ∧ (phase (run room0 msgs) ≠ PhSetup →
       ∀ q ps, playersState g !! q = Some ps →
               (q ∈ finished g ↔ isPlayerOut ps = true)).
Proof.
  intros Hids Hcards Hstart.
  destruct (reached_fullInv room sid shuffled room0 msgs Hids Hcards Hstart)
    as (g & Hg & Hinv & _ & _ & Htab).
  destruct (run_seats room0 msgs) as (Hpl & _).
  destruct (gameStart_seats _ _ _ _ Hstart) as (Hpl0 & _).
  rewrite Hpl0 in Hpl.
  exists g. split; [done|]. split; [apply (ti_finished _ _ Htab)|].
  split; [|split].
  - intros q Hq. rewrite <- Hpl. by apply (ti_out _ _ Htab).
  - intros Hph. by apply (ti_setup _ _ Htab).
  - intros Hph q ps Hps. split.
    + intros Hq. destruct (ti_out _ _ Htab q Hq) as (_ & ps' & Hps' & Hout). congruence.
    + intros Hout.
      assert (Hq : q ∈ p_id <$> players (run room0 msgs)).
      { apply (ti_states _ _ Htab). by eexists. }
      apply list_elem_of_fmap in Hq as (p & -> & Hp).
      unfold gameInv in Hinv. rewrite Hg in Hinv. rewrite decide_False in Hinv by done.
      destruct Hinv as [_ Hrec]. by apply (Hrec p ps).
Qed.

(** X10. In a game started with players and cards of distinct ids, after any
    messages the pile holds no 10 and its last four cards that are not a 3
    are not four of a kind: every 10 and every fourth card of a kind has
    burned the pile. During setup the pile and the burned cards are empty. *)
Theorem pile_holds_no_ten_and_no_four_of_a_kind room sid shuffled (room0 : Room) msgs :
  NoDup (p_id <$> players room) → NoDup (id <$> shuffled) →
  gameStart room sid shuffled = (Success false false, room0) →
  ∃ g,
    game (run room0 msgs) = Some g
    ∧ Forall (λ x : Card, r x ≠ R10) (pile g)
    ∧ lastFourNon3Same (pile g) = false
    ∧ ¬ specFourOfAKind (pile g)
    ∧ (phase (run room0 msgs) = PhSetup → pile g = [] ∧ burned g = []).
Proof.
  intros Hids Hcards Hstart.
  destruct (reached_fullInv room sid shuffled room0 msgs Hids Hcards Hstart)
    as (g & Hg & _ & _ & _ & Htab).
  exists g. split; [done|]. split; [apply (ti_ten _ _ Htab)|].
  pose proof (ti_four _ _ Htab) as Hfour. split; [done|]. split.
  - intros Hspec. apply lastFourNon3Same_spec in Hspec. congruence.
  - intros Hph. destruct (ti_setup _ _ Htab Hph) as (_ & ? & ?). done.
Qed.

(** X11. In a game started with players and cards of distinct ids, after any
    messages: while the game is played at least two players are not
    finished; a winner and a loser are set exactly when the game has ended;
    and then the winner is the first of [finished], the loser is the one
    player of the room who is not in it and still holds a card, and the turn
    rests on the loser. *)
Theorem game_ends_with_one_player_left room sid shuffled (room0 : Room) msgs :
  NoDup (p_id <$> players room) → NoDup (id <$> shuffled) →
  gameStart room sid shuffled = (Success false false, room0) →
  ∃ g,
    game (run room0 msgs) = Some g
    ∧ (phase (run room0 msgs) = PhPlaying → (2 ≤ length (activeOf room g))%nat)
    ∧ (phase (run room0 msgs) ≠ PhEnded → winnerId g = None ∧ loserId g = None)
    ∧ (phase (run room0 msgs) = PhEnded →
       ∃ w l ps,
         winnerId g = Some w ∧ loserId g = Some l ∧ w ≠ l
         ∧ head (finished g) = Some w
         ∧ currentPlayerId g = Some l
         ∧ (∀ q, q ∈ p_id <$> players room → (q ∈ finished g ↔ q ≠ l))
         ∧ playersState g !! l = Some ps ∧ isPlayerOut ps = false).
Proof.
  intros Hids Hcards Hstart.
  destruct (reached_fullInv room sid shuffled room0 msgs Hids Hcards Hstart)
    as (g & Hg & Hinv & _ & _ & Htab).
  destruct (run_seats room0 msgs) as (Hpl & _).
  destruct (gameStart_seats _ _ _ _ Hstart) as (Hpl0 & _).
  rewrite Hpl0 in Hpl.
  assert (Hact : activeOf (run room0 msgs) g = activeOf room g).
  { unfold activeOf. by rewrite Hpl. }
  exists g. split; [done|]. split; [|split].
  - intros Hph. rewrite <- Hact. by apply (ti_playing _ _ Htab).
  - apply (ti_open _ _ Htab).
  - intros Hph. destruct (ti_ended _ _ Htab Hph) as (w & l & Hw & Hl & Hhead & Hone).
    destruct (ti_turn _ _ Htab) as (c & Hc & Hcact).
    rewrite Hone in Hcact. apply list_elem_of_singleton in Hcact as ->.
    assert (Hlact : l ∈ activeOf (run room0 msgs) g) by (rewrite Hone; by left).
    pose proof (activeOf_not_finished _ _ _ Hlact) as Hlnf.
    pose proof (active_is_player _ _ _ Hlact) as Hlid.
    destruct (proj1 (ti_states _ _ Htab l) Hlid) as [ps Hps].
    exists w, l, ps. split; [done|]. split; [done|].
    assert (Hwin : w ∈ finished g).
    { destruct (finished g) as [|w' rest]; [done|]. injection Hhead as ->. by left. }
    split; [by intros ->|]. split; [done|]. split; [done|]. split; [|split; [done|]].
    + intros q Hq. split; [by intros ? ->|]. intros Hne.
      destruct (decide (q ∈ finished g)) as [|Hnot]; [done|]. exfalso. apply Hne.
      assert (Hqa : q ∈ activeOf (run room0 msgs) g).
      { rewrite Hact. apply list_elem_of_filter. by split. }
      rewrite Hone in Hqa. by apply list_elem_of_singleton in Hqa.
    + destruct (isPlayerOut ps) eqn:Hout; [|done]. exfalso. apply Hlnf.
      apply list_elem_of_fmap in Hlid as (p & -> & Hp).
      unfold gameInv in Hinv. rewrite Hg in Hinv.
      rewrite decide_False in Hinv by (by rewrite Hph).
      destruct Hinv as [_ Hrec]. by apply (Hrec p ps).
Qed.

(** X12. Once a started game has ended it stays as it is: every
    [setup:setFaceUp], [play:cards] and [play:pickup], from whoever, is
    refused, and no run of such messages changes the room. *)
Theorem ended_game_takes_no_message room sid shuffled (room0 : Room) msgs :
  gameStart room sid shuffled = (Success false false, room0) →
  phase (run room0 msgs) = PhEnded →
  (∀ sid' msg, isFailure (handle (run room0 msgs) sid' msg).1 = true)
  ∧ ∀ more, run (run room0 msgs) more = run room0 msgs.
Proof.
  intros Hstart Hph.
  pose proof (run_inv room0 msgs (gameStart_inv _ _ _ _ Hstart)) as Hinv.
  split; [intros sid' msg; by apply ended_refuses|].
  induction more as [|[sid' msg] more IH]; [done|]. simpl.
  rewrite handle_failure; [done|]. by apply ended_refuses.
Qed.

(** X13. A started game is in setup, and its phase only moves forward, from
    setup to playing to ended, one phase per message at most: whatever
    messages follow, the phase is never an earlier one again. *)
Theorem phase_only_advances room sid shuffled (room0 : Room) msgs more :
  gameStart room sid shuffled = (Success false false, room0) →
  phase room0 = PhSetup
  ∧ (phaseOrder (phase (run room0 msgs))
     ≤ phaseOrder (phase (run room0 (msgs ++ more))))%nat
  ∧ ∀ sid' msg,
      (phaseOrder (phase (run room0 msgs))
       ≤ phaseOrder (phase (handle (run room0 msgs) sid' msg).2)
       ≤ S (phaseOrder (phase (run room0 msgs))))%nat.
Proof.
  intros Hstart.
  pose proof (run_inv room0 msgs (gameStart_inv _ _ _ _ Hstart)) as Hinv.
  assert (Hstep : ∀ room1 sid' msg, gameInv room1 →
            (phaseOrder (phase room1) ≤ phaseOrder (phase (handle room1 sid' msg).2)
             ≤ S (phaseOrder (phase room1)))%nat).
  { intros room1 sid' msg Hinv1.
    destruct (handle_phase room1 sid' msg Hinv1) as [->|[[-> ->]|[-> ->]]]; simpl; lia. }
  split; [apply (gameStart_seats _ _ _ _ Hstart)|]. split; [|intros; by apply Hstep].
  rewrite run_app. revert Hinv. generalize (run room0 msgs). clear Hstart.
  induction more as [|[sid' msg] more IH]; intros room1 Hinv1; [done|]. simpl.
  etrans; [apply (Hstep room1 sid' msg Hinv1)|]. by apply IH, handle_inv.
Qed.
End Reached.

(** ** What one message may change *)

Section Steps.
Implicit Types (room : Room) (g : GameState) (sid q : string) (msg : Message)
  (msgs : list (string * Message)) (ps : PlayerState) (z : Zone)
  (req : PlayCards) (played : list Card).

Lemma later_refl g : later g g.
Proof.
  split; [done|]. split; [done|]. split; [done|]. split; [done|].
  intros q ps ps' Hps Hps'. rewrite Hps in Hps'. by injection Hps' as <-.
Qed.

Lemma later_trans g g' g'' : later g g' → later g' g'' → later g g''.
Proof.
  intros (Hd & Hb & Hf & Hdom & Hps) (Hd' & Hb' & Hf' & Hdom' & Hps').
  split; [by etrans|]. split; [by etrans|]. split; [by etrans|].
  split; [intros q; by rewrite Hdom', Hdom|].
  intros q ps ps'' Hq Hq''.
  destruct (proj2 (Hdom q) (mk_is_Some _ _ Hq)) as [ps' Hq'].
  destruct (Hps q ps ps' Hq Hq') as (? & ? & ?).
  destruct (Hps' q ps' ps'' Hq' Hq'') as (? & ? & ?).
  split; [by etrans|]. split; congruence.
Qed.

Lemma insert_same_dom (m : gmap string PlayerState) sid ps (ps' : PlayerState) q :
  m !! sid = Some ps → is_Some (<[sid := ps']> m !! q) ↔ is_Some (m !! q).
Proof.
  intros Hps. rewrite lookup_insert_is_Some. split.
  - intros [<-|[_ ?]]; [by eexists|done].
  - intros Hq. destruct (decide (sid = q)); [by left|by right].
Qed.

(** A turn of [sid] that hands [g1] to the finish resolution. *)
Lemma turn_later room g sid ps (ps' : PlayerState) g1 :
  playersState g !! sid = Some ps →
  playersState g1 = <[sid := ps']> (playersState g) →
  faceDown ps' `sublist_of` faceDown ps → ps_id ps' = ps_id ps → ps_name ps' = ps_name ps →
  deck g1 `suffix_of` deck g → burned g `prefix_of` burned g1 → finished g1 = finished g →
  ∃ g', game (ensureFinishAndMaybeEnd (setGame g1 room)) = Some g'
        ∧ later g g' ∧ sameOthers sid g g'.
Proof.
  intros Hps Hm Hfd Hid Hname Hd Hb Hf.
  destruct (ensureFinish_result (setGame g1 room) g1 eq_refl)
    as (cur & w & l & ph & -> & _).
  eexists. split; [reflexivity|]. split.
  - split; [done|]. split; [done|]. split.
    { cbn [finished]. rewrite Hf. apply recordFinished_prefix. }
    cbn [playersState]. rewrite Hm. split.
    + intros q. by apply insert_same_dom with ps.
    + intros q st st' Hq. destruct (decide (q = sid)) as [->|Hne].
      * rewrite lookup_insert_eq. intros [= <-]. rewrite Hps in Hq.
        by injection Hq as <-.
      * rewrite lookup_insert_ne by done. rewrite Hq. by intros [= <-].
  - intros q st Hne Hq. exists st. cbn [playersState]. rewrite Hm.
    rewrite lookup_insert_ne by done. split; [done|]. tauto.
Qed.

Lemma drawn_fields z ps (d : list Card) :
  faceDown (drawn z ps d).1 = faceDown ps ∧ faceUp (drawn z ps d).1 = faceUp ps
  ∧ ps_id (drawn z ps d).1 = ps_id ps ∧ ps_name (drawn z ps d).1 = ps_name ps
  ∧ stage (drawn z ps d).1 = stage ps
  ∧ (drawn z ps d).2 `suffix_of` d.
Proof.
  unfold drawn. case_bool_decide; cbn; repeat split; try done.
  apply suffix_drop.
Qed.

Lemma selectCards_faceDown_sublist ps z req (ps1 : PlayerState) played :
  selectCards ps z req = inr (ps1, played) → faceDown ps1 `sublist_of` faceDown ps.
Proof.
  intros Hsel. destruct (decide (z = ZFaceDown)) as [->|Hz].
  - apply selectCards_faceDown in Hsel as (n & c & _ & _ & _ & ->). cbn.
    apply sublist_delete.
  - apply selectCards_zones in Hsel as (_ & Hoth & _).
    specialize (Hoth ZFaceDown ltac:(done)). simpl in Hoth. by rewrite Hoth.
Qed.

Lemma handle_later room sid msg g :
  game room = Some g →
  ∃ g', game (handle room sid msg).2 = Some g' ∧ later g g' ∧ sameOthers sid g g'.
Proof.
  intros Hg. destruct (isFailure (handle room sid msg).1) eqn:Hf.
  { rewrite handle_failure by done. exists g. split; [done|]. split; [apply later_refl|].
    intros q st _ Hq. exists st. tauto. }
  destruct msg; simpl in *.
  - revert Hf. unfold setFaceUpHandler. rewrite Hg.
    destruct (playersState g !! sid) as [you|] eqn:Hyou; [|done].
    case_bool_decide; [done|]. case_bool_decide; [done|].
    destruct (negb _); [done|]. intros _.
    set (you1 := setStage StReady _).
    destruct (allReady _); cbn [snd game setGame setPhase]; (eexists; split; [reflexivity|]).
    + split.
      * split; [done|]. split; [done|]. split; [done|].
        cbn [playersState setPlayersState putPlayer]. split.
        -- intros q. rewrite lookup_fmap, fmap_is_Some.
           by apply insert_same_dom with you.
        -- intros q st st' Hq. rewrite lookup_fmap.
           destruct (decide (q = sid)) as [->|Hne].
           ++ rewrite lookup_insert_eq. intros [= <-]. rewrite Hyou in Hq.
              by injection Hq as <-.
           ++ rewrite lookup_insert_ne by done. rewrite Hq. by intros [= <-].
      * intros q st Hne Hq. cbn [playersState setPlayersState putPlayer].
        rewrite lookup_fmap, lookup_insert_ne by done. rewrite Hq.
        eexists. split; [reflexivity|]. cbn. tauto.
    + split.
      * split; [done|]. split; [done|]. split; [done|].
        cbn [playersState setPlayersState putPlayer]. split.
        -- intros q. by apply insert_same_dom with you.
        -- intros q st st' Hq. destruct (decide (q = sid)) as [->|Hne].
           ++ rewrite lookup_insert_eq. intros [= <-]. rewrite Hyou in Hq.
              by injection Hq as <-.
           ++ rewrite lookup_insert_ne by done. rewrite Hq. by intros [= <-].
      * intros q st Hne Hq. cbn [playersState setPlayersState putPlayer].
        rewrite lookup_insert_ne by done. exists st. tauto.
  - destruct (playCards_accepted _ _ _ Hf) as (g0 & ps & ps1 & z & played & Hacc).
    destruct (playCards_resolved _ _ _ _ _ _ _ _ Hacc) as (first & Hfirst & ->).
    destruct Hacc as [Hg0 Hph Hturn Hps Hz Hsrc Hsel].
    rewrite Hg in Hg0. injection Hg0 as <-.
    pose proof (selectCards_faceDown_sublist _ _ _ _ _ Hsel) as Hsub.
    apply selectCards_zones in Hsel as (_ & _ & _ & Hid & Hname).
    destruct (drawn_fields z ps1 (deck g)) as (Hfd & _ & Hdid & Hdname & _ & Hsuf).
    unfold resolved. destruct (negb _); [|destruct (_ || _)].
    + by apply (turn_later room g sid ps (setHand (hand ps1 ++ played ++ pile g) ps1)).
    + apply (turn_later room g sid ps (drawn z ps1 (deck g)).1); try done;
        try congruence.
      by apply prefix_app_r.
    + apply (turn_later room g sid ps (drawn z ps1 (deck g)).1); try done; congruence.
  - destruct (playPickup_refused _ _ Hf) as (g0 & ps & Hg0 & Hph & Hturn & Hps).
    rewrite Hg in Hg0. injection Hg0 as <-.
    rewrite (playPickup_pickedUp room sid g ps) by done. cbn [snd].
    by apply (turn_later room g sid ps (setHand (hand ps ++ pile g) ps)).
Qed.

Lemma run_later room msgs g :
  game room = Some g → ∃ g', game (run room msgs) = Some g' ∧ later g g'.
Proof.
  revert room g. induction msgs as [|[sid msg] msgs IH]; intros room g Hg.
  { exists g. split; [done|apply later_refl]. }
  simpl. destruct (handle_later room sid msg g Hg) as (g1 & Hg1 & Hl1 & _).
  destruct (IH _ g1 Hg1) as (g' & Hg' & Hl'). exists g'. split; [done|].
  by eapply later_trans.
Qed.

(** X14. Whatever messages a game takes, cards only leave its deck, from the
    front, and never come back; burned cards stay burned and finished
    players stay finished, in their order; the same sockets keep a player
    state, with the id and name they had; and nobody ever gains a face-down
    card. *)
Theorem deck_only_shrinks_and_burned_only_grows room msgs g :
  game room = Some g →
  ∃ g', game (run room msgs) = Some g'
    ∧ deck g' `suffix_of` deck g
    ∧ burned g `prefix_of` burned g'
    ∧ finished g `prefix_of` finished g'
    ∧ (∀ q, is_Some (playersState g' !! q) ↔ is_Some (playersState g !! q))
    ∧ ∀ q ps ps', playersState g !! q = Some ps → playersState g' !! q = Some ps' →
        faceDown ps' `sublist_of` faceDown ps
        ∧ ps_id ps' = ps_id ps ∧ ps_name ps' = ps_name ps.
Proof.
  intros Hg. destruct (run_later room msgs g Hg) as (g' & Hg' & Hl).
  exists g'. split; [done|]. exact Hl.
Qed.

(** X15. A message changes the cards of its sender only: every other player
    keeps hand, face-up and face-down cards, id and name as they are, and
    their stage stays or becomes [playing]. *)
Theorem only_the_senders_cards_move room sid msg g q ps :
  game room = Some g → q ≠ sid → playersState g !! q = Some ps →
  ∃ g' ps',
    game (handle room sid msg).2 = Some g'
    ∧ playersState g' !! q = Some ps'
    ∧ hand ps' = hand ps ∧ faceUp ps' = faceUp ps ∧ faceDown ps' = faceDown ps
    ∧ ps_id ps' = ps_id ps ∧ ps_name ps' = ps_name ps
    ∧ (stage ps' = stage ps ∨ stage ps' = StPlaying).
Proof.
  intros Hg Hne Hps.
  destruct (handle_later room sid msg g Hg) as (g' & Hg' & Hl & Hsame).
  destruct (Hsame q ps Hne Hps) as (ps' & Hps' & Hh & Hu & Hd & Hst).
  destruct Hl as (_ & _ & _ & _ & Hkeep).
  destruct (Hkeep q ps ps' Hps Hps') as (_ & Hid & Hname).
  exists g', ps'. done.
Qed.

(** X16. A [play:pickup] of the player to move, in the playing phase, is
    answered [ok: true] without flags: the pile goes onto the end of the
    player's hand and is left empty, deck and burned cards stay as they are.
    An empty pile may be picked up, which changes no player state. Unless the
    player holds no card afterwards, nobody is recorded as finished and the
    turn moves one step to the next active player: going round the table in
    join order from the seat after the player, the first who is not
    finished. The room is one in which the other players without cards are
    recorded as finished. *)
Theorem pickup_takes_the_pile room sid g ps :
  game room = Some g → phase room = PhPlaying → currentPlayerId g = Some sid →
  playersState g !! sid = Some ps → othersRecorded room g sid = true →
  ∃ room' g',
    playPickup room sid = (Success false false, room')
    ∧ game room' = Some g'
    ∧ playersState g' = <[sid := setHand (hand ps ++ pile g) ps]> (playersState g)
    ∧ pile g' = [] ∧ deck g' = deck g ∧ burned g' = burned g
    ∧ (pile g = [] → playersState g' = playersState g)
    ∧ (isPlayerOut ps = false ∨ pile g ≠ [] →
       finished g' = finished g
       ∧ currentPlayerId g' = nextPlayerId room sid 1
       ∧ (sid ∈ activeOf room g →
          currentPlayerId g' = cyclicNext (activeOf room g) sid)
       ∧ (NoDup (p_id <$> players room) → sid ∈ p_id <$> players room →
          sid ∉ finished g →
          ∃ y, currentPlayerId g' = Some y
               ∧ nextActive (p_id <$> players room) (finished g) sid y)).
Proof.
  intros Hg Hph Hturn Hps Hrec.
  rewrite (playPickup_pickedUp room sid g ps) by done.
  destruct (ensureFinish_result (setGame (pickedUp room g sid ps) room)
              (pickedUp room g sid ps) eq_refl)
    as (cur & w & l & ph & Heq & HcurA & _).
  rewrite Heq. eexists _, _. split; [reflexivity|]. split; [reflexivity|].
  cbn [playersState pile deck burned finished currentPlayerId pickedUp players setGame]
    in *.
  split; [done|]. do 3 (split; [done|]). split.
  { intros ->. rewrite app_nil_r. apply insert_id. rewrite Hps. by destruct ps. }
  intros Hheld.
  assert (Hout : isPlayerOut (setHand (hand ps ++ pile g) ps) = false).
  { destruct (isPlayerOut (setHand (hand ps ++ pile g) ps)) eqn:Hout; [|done].
    exfalso. unfold isPlayerOut in Hout. cbn [hand faceUp faceDown setHand] in Hout.
    apply andb_true_iff in Hout as [Hout Hd]. apply andb_true_iff in Hout as [Hh Hu].
    apply bool_decide_eq_true in Hh, Hu, Hd.
    apply nil_length_inv, app_eq_nil in Hh as [Hh Hp].
    destruct Hheld as [Hno|Hno]; [|done].
    unfold isPlayerOut in Hno. rewrite Hh in Hno.
    rewrite (bool_decide_eq_true_2 (length [] = 0%nat)) in Hno by done.
    by rewrite !bool_decide_eq_true_2 in Hno. }
  rewrite (recordFinished_stays _ _ _ _ Hrec Hout) in *.
  split; [done|].
  assert (Hcur : cur = nextPlayerId room sid 1).
  { apply HcurA. destruct (nextPlayerId room sid 1) as [y|] eqn:Hy; [|done].
    apply bool_decide_eq_false.
    by apply (activeOf_not_finished room), (nextPlayerId_active _ _ sid 1). }
  split; [done|]. split.
  - intros Hact. rewrite Hcur. by apply nextPlayerId_one.
  - intros Hnd Hin Hnf.
    destruct (nextPlayerId_stepsOn room g sid 1 Hg Hnd Hin Hnf)
      as (y & Hy & (y' & Hnext & ->) & _).
    exists y'. split; [by rewrite Hcur|done].
Qed.

Lemma findById_elem (zone : list Card) (i : string) :
  i ∈ id <$> zone → is_Some (findById zone i).
Proof.
  induction zone as [|c zone IH]; simpl; [by intros ?%elem_of_nil|].
  intros Hi. case_bool_decide as Hc; [by eexists|].
  apply elem_of_cons in Hi as [->|Hi]; [done|by apply IH].
Qed.

(** X17. The cards of one accepted [play:cards] request all have the rank of
    the first: a face-down play is one card, and a play from the hand or the
    face-up cards takes every card of the zone whose id is among [cardIds],
    in the order of the zone, one card for each distinct id sent, however
    often it is repeated. So the 8s counted for the skip are all of the cards
    played or none. The ids of the cards of the zone are distinct. *)
Theorem cards_played_together_share_a_rank room sid req g ps (ps1 : PlayerState)
    z played :
  accepts room sid req g ps ps1 z played →
  NoDup (id <$> zoneCards z ps) →
  ∃ first,
    head played = Some first
    ∧ Forall (λ x, r x = r first) played
    ∧ countEights played = (if bool_decide (r first = R8) then length played else 0%nat)
    ∧ (z = ZFaceDown → length played = 1%nat)
    ∧ (z ≠ ZFaceDown →
       played = filter (λ x, id x ∈ cardIds req) (zoneCards z ps)
       ∧ length played = length (remove_dups (cardIds req))).
Proof.
  intros [_ _ _ _ _ _ Hsel] Hnd.
  pose proof (selectCards_nonempty _ _ _ _ _ Hsel) as Hne.
  destruct played as [|first rest] eqn:Hplayed; [done|]. rewrite <- Hplayed in *.
  assert (Hfirst : head played = Some first) by by rewrite Hplayed.
  pose proof (selectCards_same_rank _ _ _ _ _ _ Hsel Hnd Hfirst) as Hsame.
  exists first. split; [done|]. split; [done|].
  split; [by apply countEights_same_rank|]. split.
  - intros ->. by apply selectCards_faceDown in Hsel as (n & c & _ & _ & -> & _).
  - intros Hz. apply selectCards_byId in Hsel as (_ & Hall & Hp & _); [|done].
    split; [done|]. rewrite Hp.
    rewrite (list_filter_iff (λ x, id x ∈ cardIds req)
               (λ x, id x ∈ remove_dups (cardIds req)))
      by (intros x; by rewrite elem_of_remove_dups).
    apply chosen_length; [apply NoDup_remove_dups|done|].
    apply Forall_forall. intros i Hi. rewrite elem_of_remove_dups in Hi.
    by apply (proj1 (Forall_forall _ _) Hall).
Qed.

(** X18. A [play:cards] request that passes the checks reads cards that
    are there: at least one card is played, so [played[0]] is a card; for a
    play from the hand or the face-up cards every id sent is found by
    [zoneArr.find] in a card of the zone with that id, so the rank read off
    the result is the rank of a card; and the request is answered [ok: true]
    with at most one of [forcedPickup] and [burned]. *)
Theorem accepted_play_reads_cards_that_are_there room sid req g ps (ps1 : PlayerState)
    z played :
  accepts room sid req g ps ps1 z played →
  (∃ first rest f b,
     played = first :: rest
     ∧ (playCards room sid req).1 = Success f b
     ∧ f && b = false)
  ∧ (z ≠ ZFaceDown →
     ∀ i, i ∈ cardIds req →
          ∃ c, findById (zoneCards z ps) i = Some c
               ∧ c ∈ zoneCards z ps ∧ id c = i).
Proof.
  intros Hacc. rewrite (playCards_accepts _ _ _ _ _ _ _ _ Hacc).
  destruct Hacc as [_ _ _ _ _ _ Hsel]. split.
  - pose proof (selectCards_nonempty _ _ _ _ _ Hsel) as Hne.
    destruct played as [|first rest]; [done|]. exists first, rest.
    rewrite (resolvePlay_reply _ _ _ _ _ _ first) by done.
    destruct (canPlayOnPile _ _); [destruct (_ || _)|]; by eexists _, _.
  - intros Hz i Hi. apply selectCards_byId in Hsel as (_ & Hall & _); [|done].
    pose proof (proj1 (Forall_forall _ _) Hall i Hi) as Hin.
    destruct (findById_elem _ _ Hin) as [c Hc]. exists c. split; [done|].
    clear Hin Hall. induction (zoneCards z ps) as [|c0 zone IH]; [done|].
    simpl in Hc. case_bool_decide as Hid.
    + injection Hc as <-. split; [by left|done].
    + destruct (IH Hc) as [Hin Heq]. split; [by right|done].
Qed.

(** X19. The pile rules see no 3, no suit and no id: two piles with the
    same ranks once their 3s are left out have the same effective top, take
    the same cards and burn alike. *)
Theorem pile_rules_see_no_three (pile pile' : list Card) (x : Rank) :
  filter (λ y, y ≠ R3) (r <$> pile) = filter (λ y, y ≠ R3) (r <$> pile') →
  pileEffectiveTopRank pile = pileEffectiveTopRank pile'
  ∧ canPlayOnPile x pile = canPlayOnPile x pile'
  ∧ lastFourNon3Same pile = lastFourNon3Same pile'.
Proof.
  intros Heq.
  assert (Htop : pileEffectiveTopRank pile = pileEffectiveTopRank pile').
  { rewrite !pileEffectiveTopRank_spec. unfold specEffectiveTop. by rewrite Heq. }
  split; [done|]. split; [unfold canPlayOnPile; by rewrite Htop|].
  assert (Hiff : lastFourNon3Same pile = true ↔ lastFourNon3Same pile' = true).
  { rewrite !lastFourNon3Same_spec. unfold specFourOfAKind. by rewrite Heq. }
  destruct (lastFourNon3Same pile), (lastFourNon3Same pile'); try done.
  - symmetry. by apply Hiff.
  - by apply Hiff.
Qed.
End Steps.

(** ** Rooms: creating, joining, leaving *)

Section Rooms.
Implicit Types (rooms : gmap string Room) (room : Room) (g : GameState)
  (sid roomCode safeName c : string) (codes : list string) (msg : Message)
  (msgs : list (string * Message)).

Lemma pickCode_spec rooms codes :
  match pickCode rooms codes with
  | Some c => ∃ front back, codes = front ++ c :: back
                ∧ Forall (λ x, is_Some (rooms !! x)) front ∧ rooms !! c = None
  | None => Forall (λ x, is_Some (rooms !! x)) codes
  end.
Proof.
  induction codes as [|c codes IH]; simpl; [done|].
  case_bool_decide as Hc.
  - destruct (pickCode rooms codes) as [c'|].
    + destruct IH as (front & back & -> & Hfront & Hfree).
      exists (c :: front), back. split; [done|]. split; [by constructor|done].
    + by constructor.
  - exists [], codes. split; [done|]. split; [done|].
    by apply eq_None_not_Some.
Qed.

(** X20. [room:create] refuses an empty name and then changes nothing.
    Otherwise it takes the first code that [makeRoomCode] returns and that no
    room has, and does not return before there is one; the room it files
    under that code is a lobby without a game, with the creator as host and
    only player; the reply carries that room and the creator's id; and every
    room there was is still there, untouched. *)
Theorem room_create_opens_a_fresh_lobby rooms sid safeName codes :
  match roomCreateHandler rooms sid safeName codes with
  | None => safeName ≠ "" ∧ Forall (λ x, is_Some (rooms !! x)) codes
  | Some (rep, rooms') =>
      (safeName = "" ∧ rep = RoomFailure "Name required" ∧ rooms' = rooms)
      ∨ (safeName ≠ ""
         ∧ ∃ c front back,
             codes = front ++ c :: back
             ∧ Forall (λ x, is_Some (rooms !! x)) front
             ∧ rooms !! c = None
             ∧ rooms' !! c
               = Some (mkRoom c (Some sid) [mkPlayer sid safeName] PhLobby None)
             ∧ rep = RoomOk (mkPublicRoom c (Some sid) PhLobby [mkPlayer sid safeName]) sid
             ∧ rooms ⊆ rooms'
             ∧ ∀ c', c' ≠ c → rooms' !! c' = rooms !! c')
  end.
Proof.
  unfold roomCreateHandler. case_bool_decide as Hname; [by left|].
  pose proof (pickCode_spec rooms codes) as Hpick.
  destruct (pickCode rooms codes) as [c|]; [|done].
  destruct Hpick as (front & back & Hcodes & Hfront & Hfree).
  right. split; [done|]. exists c, front, back.
  split; [done|]. split; [done|]. split; [done|].
  split; [by rewrite lookup_insert_eq|]. split; [done|].
  split; [by apply insert_subseteq|]. intros c' Hc'. by rewrite lookup_insert_ne.
Qed.

(** X21. [room:join] looks the room up before it looks at the name. A socket
    that is not yet seated is seated last, with the name sent; one that is
    seated already is left as it is, whatever name it sends now, so that no
    id is ever seated twice. Joining changes neither host, phase nor game of
    the room, whatever the phase, and no other room; joining again changes
    nothing. *)
Theorem room_join_seats_a_socket_once rooms sid roomCode safeName :
  match rooms !! roomCode with
  | None =>
      roomJoinHandler rooms sid roomCode safeName = (RoomFailure "Room not found", rooms)
  | Some room =>
      (safeName = "" →
       roomJoinHandler rooms sid roomCode safeName = (RoomFailure "Name required", rooms))
      ∧ (safeName ≠ "" →
         ∃ room',
           roomJoinHandler rooms sid roomCode safeName
           = (RoomOk (publicRoomState room') sid, <[roomCode := room']> rooms)
           ∧ code room' = code room ∧ hostSocketId room' = hostSocketId room
           ∧ phase room' = phase room ∧ game room' = game room
           ∧ (sid ∈ p_id <$> players room → room' = room)
           ∧ (sid ∉ p_id <$> players room →
              players room' = players room ++ [mkPlayer sid safeName])
           ∧ (NoDup (p_id <$> players room) → NoDup (p_id <$> players room'))
           ∧ ∀ name', name' ≠ "" →
               roomJoinHandler (<[roomCode := room']> rooms) sid roomCode name'
               = (RoomOk (publicRoomState room') sid, <[roomCode := room']> rooms))
  end.
Proof.
  unfold roomJoinHandler. destruct (rooms !! roomCode) as [room|] eqn:Hroom; [|done].
  split.
  { intros ->. done. }
  intros Hname. rewrite bool_decide_eq_false_2 by done.
  exists (roomJoin room sid safeName). split; [done|].
  unfold roomJoin. case_bool_decide as Hin.
  - do 4 (split; [done|]). split; [done|]. split; [done|]. split; [done|].
    intros name' Hname'. rewrite lookup_insert_eq.
    rewrite bool_decide_eq_false_2 by done. unfold roomJoin.
    rewrite bool_decide_eq_true_2 by done. by rewrite insert_insert_eq.
  - cbn [code hostSocketId phase game players].
    do 4 (split; [done|]). split; [done|]. split; [done|]. split.
    + intros Hnd. rewrite fmap_app. apply NoDup_app. split; [done|].
      split; [|apply NoDup_singleton]. intros x Hx Hx'.
      apply list_elem_of_singleton in Hx'. simpl in Hx'. by subst.
    + intros name' Hname'. rewrite lookup_insert_eq.
      rewrite bool_decide_eq_false_2 by done. unfold roomJoin.
      cbn [players]. rewrite bool_decide_eq_true_2; [by rewrite insert_insert_eq|].
      rewrite fmap_app. apply elem_of_app. right. by left.
Qed.

(** With the turn on a socket that has no player state, in the playing phase
    and with every stage [playing], every message is refused. *)
Lemma no_state_refuses room g c sid msg :
  game room = Some g → phase room = PhPlaying →
  currentPlayerId g = Some c → playersState g !! c = None →
  (∀ q ps, playersState g !! q = Some ps → stage ps = StPlaying) →
  isFailure (handle room sid msg).1 = true.
Proof.
  intros Hg Hph Hcur Hnone Hstages. destruct msg; simpl.
  - unfold setFaceUpHandler. rewrite Hg.
    destruct (playersState g !! sid) as [you|] eqn:Hyou; [|done].
    rewrite bool_decide_eq_true_2; [done|]. by rewrite (Hstages sid you).
  - unfold playCards. rewrite Hg.
    rewrite (bool_decide_eq_false_2 (phase room ≠ PhPlaying)) by (intros H; by apply H).
    case_bool_decide as Hturn; [done|].
    assert (sid = c) as -> by congruence.
    by rewrite Hnone.
  - unfold playPickup. rewrite Hg.
    rewrite (bool_decide_eq_false_2 (phase room ≠ PhPlaying)) by (intros H; by apply H).
    case_bool_decide as Hturn; [done|].
    assert (sid = c) as -> by congruence.
    by rewrite Hnone.
Qed.

Lemma no_state_run room g c msgs :
  game room = Some g → phase room = PhPlaying →
  currentPlayerId g = Some c → playersState g !! c = None →
  (∀ q ps, playersState g !! q = Some ps → stage ps = StPlaying) →
  run room msgs = room.
Proof.
  intros Hg Hph Hcur Hnone Hstages.
  induction msgs as [|[sid msg] msgs IH]; [done|]. simpl.
  rewrite handle_failure; [done|]. by eapply no_state_refuses.
Qed.


(** X23. A socket that joins a room whose game is running is seated in the
    turn order, last, although it has no player state: the player after the
    last active player is now the newcomer, who is shown to all with no
    cards and whose every message is refused. *)
Theorem late_joiner_is_in_the_turn_order room sid safeName g :
  game room = Some g →
  sid ∉ p_id <$> players room → sid ∉ finished g → playersState g !! sid = None →
  activeOf (roomJoin room sid safeName) g = activeOf room g ++ [sid]
  ∧ (∀ x, last (activeOf room g) = Some x → NoDup (p_id <$> players room) →
          nextPlayerId (roomJoin room sid safeName) x 1 = Some sid)
  ∧ (∀ msg, isFailure (handle (roomJoin room sid safeName) sid msg).1 = true)
  ∧ gp_players <$> gamePublicState (roomJoin room sid safeName)
    = Some ((playerPublic g <$> players room) ++ [mkPlayerPublic sid safeName 0 0 []]).
Proof.
  intros Hg Hseat Hfin Hnone. unfold roomJoin.
  rewrite bool_decide_eq_false_2 by done.
  set (room' := mkRoom _ _ _ _ _).
  assert (Hact : activeOf room' g = activeOf room g ++ [sid]).
  { unfold activeOf, activeIds, room'. cbn [players]. rewrite fmap_app, filter_app.
    f_equal. simpl. rewrite filter_cons_True by done. done. }
  assert (Hnext : ∀ x, nextPlayerId room' x 1
            = (activeOf room g ++ [sid])
                !! ((default O (indexOf (activeOf room g ++ [sid]) x) + 1)
                    mod length (activeOf room g ++ [sid]))%nat).
  { intros x. rewrite nextPlayerId_unfold. change (game room') with (game room).
    rewrite Hg. fold (activeOf room' g). rewrite Hact.
    rewrite bool_decide_eq_false_2; [done|]. by destruct (activeOf room g). }
  split; [done|]. split; [|split].
  - intros x Hlast Hnd. rewrite Hnext.
    apply last_Some in Hlast as [l Ha].
    assert (Hndl : NoDup ((l ++ [x]) ++ [sid])).
    { rewrite <- Ha. apply NoDup_app. split.
      - unfold activeOf, activeIds. by apply NoDup_filter.
      - split; [|apply NoDup_singleton]. intros y Hy Hy'.
        apply list_elem_of_singleton in Hy' as ->. by apply active_is_player in Hy. }
    rewrite Ha.
    assert (Hidx : indexOf ((l ++ [x]) ++ [sid]) x = Some (length l)).
    { apply indexOf_NoDup; [done|]. rewrite <- app_assoc.
      rewrite lookup_app_r by lia. by rewrite Nat.sub_diag. }
    rewrite Hidx. change (default O (Some (length l))) with (length l).
    rewrite !length_app. cbn [length].
    rewrite Nat.mod_small by lia.
    rewrite lookup_app_r by (rewrite length_app; simpl; lia).
    rewrite length_app. simpl. by replace (length l + 1 - (length l + 1))%nat with O by lia.
  - intros msg. destruct msg; simpl.
    + unfold setFaceUpHandler. change (game room') with (game room).
      rewrite Hg. by rewrite Hnone.
    + unfold playCards. change (game room') with (game room). rewrite Hg.
      case_bool_decide; [done|]. case_bool_decide; [done|]. by rewrite Hnone.
    + unfold playPickup. change (game room') with (game room). rewrite Hg.
      case_bool_decide; [done|]. case_bool_decide; [done|]. by rewrite Hnone.
  - unfold gamePublicState. change (game room') with (game room). rewrite Hg.
    cbn [fmap option_fmap option_map gp_players]. f_equal. unfold room'. cbn [players].
    rewrite fmap_app. f_equal. simpl. unfold playerPublic. cbn [p_id p_name].
    by rewrite Hnone.
Qed.

Lemma filter_seated sid (l : list Player) :
  length (filter (λ p, p_id p ≠ sid) l) ≠ length l ↔ sid ∈ p_id <$> l.
Proof.
  induction l as [|p l IH].
  - split; [done|]. by intros ?%elem_of_nil.
  - rewrite fmap_cons, elem_of_cons.
    destruct (decide (p_id p ≠ sid)) as [Hp|Hp].
    + rewrite filter_cons_True by done. cbn [length]. split.
      * intros Hlen. right. apply IH. lia.
      * intros [?|Hin]; [done|]. apply IH in Hin. lia.
    + rewrite filter_cons_False by done. apply dec_stable in Hp. split; [by left|].
      intros _. pose proof (length_filter (λ p, p_id p ≠ sid) l). cbn [length]. lia.
Qed.

Lemma filter_not_seated sid (l : list Player) :
  sid ∉ p_id <$> l → filter (λ p, p_id p ≠ sid) l = l.
Proof.
  induction l as [|p l IH]; [done|]. rewrite fmap_cons, not_elem_of_cons.
  intros [Hne Hl]. rewrite filter_cons_True by done. by rewrite IH.
Qed.

Lemma disconnectRoom_away sid room :
  sid ∉ p_id <$> players room → disconnectRoom sid room = Some room.
Proof.
  intros Hseat. unfold disconnectRoom. rewrite (filter_not_seated _ _ Hseat).
  rewrite bool_decide_eq_false_2 by (intros H; by apply H). by destruct room.
Qed.

Lemma disconnectRoom_seated sid room :
  sid ∈ p_id <$> players room →
  disconnectRoom sid room
  = if bool_decide (filter (λ p, p_id p ≠ sid) (players room) = []) then None
    else Some (mkRoom (code room)
                 (if bool_decide (hostSocketId room = Some sid)
                  then firstIdOrNull (filter (λ p, p_id p ≠ sid) (players room))
                  else hostSocketId room)
                 (filter (λ p, p_id p ≠ sid) (players room)) (phase room)
                 ((λ g, setPlayersState (delete sid (playersState g)) g) <$> game room)).
Proof.
  intros Hseat. unfold disconnectRoom.
  rewrite bool_decide_eq_true_2 by (by apply filter_seated).
  destruct (filter (λ p, p_id p ≠ sid) (players room)) as [|p rest] eqn:Hrest.
  { by rewrite !bool_decide_eq_true_2. }
  rewrite (bool_decide_eq_false_2 (length (p :: rest) = 0%nat)) by done.
  rewrite (bool_decide_eq_false_2 (p :: rest = [])) by done.
  do 2 f_equal. destruct (game room) as [g|]; [|done]. simpl.
  case_bool_decide as Hin; [done|]. f_equal.
  rewrite delete_id by (by apply eq_None_not_Some). by destruct g.
Qed.

(** X24. [disconnect] goes through every room: a room in which the socket is
    not seated stays as it is; a room in which nobody else is seated is
    deleted; in any other the socket loses its seat and its player state,
    the others keep their seats in their order, code, phase and the rest of
    the game stay, and a host who leaves is replaced by the first player who
    remains. No room is added. *)
Theorem disconnect_unseats_the_socket rooms sid c :
  match rooms !! c with
  | None => disconnect rooms sid !! c = None
  | Some room =>
      (sid ∉ p_id <$> players room → disconnect rooms sid !! c = Some room)
      ∧ (sid ∈ p_id <$> players room →
         filter (λ p, p_id p ≠ sid) (players room) = [] →
         disconnect rooms sid !! c = None)
      ∧ (sid ∈ p_id <$> players room →
         filter (λ p, p_id p ≠ sid) (players room) ≠ [] →
         ∃ room',
           disconnect rooms sid !! c = Some room'
           ∧ players room' = filter (λ p, p_id p ≠ sid) (players room)
           ∧ (sid ∉ p_id <$> players room')
           ∧ code room' = code room ∧ phase room' = phase room
           ∧ hostSocketId room'
             = (if bool_decide (hostSocketId room = Some sid)
                then firstIdOrNull (players room') else hostSocketId room)
           ∧ hostSocketId room' ≠ Some sid
           ∧ game room'
             = (λ g, setPlayersState (delete sid (playersState g)) g) <$> game room)
  end.
Proof.
  unfold disconnect. rewrite lookup_omap.
  destruct (rooms !! c) as [room|]; [|done]. cbn [mbind option_bind].
  split; [apply disconnectRoom_away|]. split.
  - intros Hseat Hnone. rewrite (disconnectRoom_seated _ _ Hseat).
    by rewrite bool_decide_eq_true_2.
  - intros Hseat Hsome. rewrite (disconnectRoom_seated _ _ Hseat).
    rewrite bool_decide_eq_false_2 by done.
    eexists. split; [reflexivity|]. cbn [players code phase hostSocketId game].
    assert (Hgone : sid ∉ p_id <$> filter (λ p, p_id p ≠ sid) (players room)).
    { intros Hin. apply list_elem_of_fmap in Hin as (p & Hp & Hin).
      apply list_elem_of_filter in Hin as [Hne _]. done. }
    split; [done|]. split; [done|]. split; [done|]. split; [done|].
    split; [done|]. split; [|done].
    case_bool_decide as Hhost; [|done].
    destruct (filter (λ p, p_id p ≠ sid) (players room)) as [|p rest]; [done|].
    simpl. case_bool_decide; [done|]. intros [= Heq]. apply Hgone.
    rewrite fmap_cons, Heq. by left.
Qed.

(** X25. The cards of a player who leaves are gone from the game: when a
    socket with a player state disconnects from a room where others remain,
    the cards of the room before are those of the room after together with
    the hand, face-up and face-down cards the leaver held. Deck, pile,
    burned cards, the turn, the finished players and the phase are left as
    they were, also when the turn was the leaver's. *)
Theorem disconnect_takes_the_leavers_cards_away room sid g ps :
  game room = Some g → sid ∈ p_id <$> players room →
  playersState g !! sid = Some ps →
  filter (λ p, p_id p ≠ sid) (players room) ≠ [] →
  ∃ room' g',
    disconnectRoom sid room = Some room' ∧ game room' = Some g'
    ∧ playersState g' = delete sid (playersState g)
    ∧ roomCards room ≡ₚ playerCards ps ++ roomCards room'
    ∧ deck g' = deck g ∧ pile g' = pile g ∧ burned g' = burned g
    ∧ currentPlayerId g' = currentPlayerId g ∧ finished g' = finished g
    ∧ phase room' = phase room.
Proof.
  intros Hg Hseat Hps Hsome. rewrite (disconnectRoom_seated _ _ Hseat).
  rewrite bool_decide_eq_false_2 by done. rewrite Hg.
  eexists _, _. split; [reflexivity|]. split; [reflexivity|].
  split; [done|]. split; [|done].
  unfold roomCards. rewrite Hg. cbn [game]. unfold allCards.
  cbn [deck pile burned playersState setPlayersState].
  rewrite (playersCards_delete _ _ _ Hps). solve_Permutation.
Qed.

(** X26. A player who disconnects while it is their turn leaves the game
    stuck: in the playing phase, with others still seated, the turn stays
    with the socket that is gone, so that from then on every message of the
    game is refused and no run of messages changes the room. *)
Theorem leaving_on_ones_turn_freezes_the_game room sid g :
  game room = Some g → phase room = PhPlaying → currentPlayerId g = Some sid →
  sid ∈ p_id <$> players room →
  filter (λ p, p_id p ≠ sid) (players room) ≠ [] →
  (∀ q ps, playersState g !! q = Some ps → stage ps = StPlaying) →
  ∃ room' g',
    disconnectRoom sid room = Some room' ∧ game room' = Some g'
    ∧ phase room' = PhPlaying ∧ currentPlayerId g' = Some sid
    ∧ playersState g' !! sid = None
    ∧ (∀ sid' msg, isFailure (handle room' sid' msg).1 = true)
    ∧ ∀ msgs, run room' msgs = room'.
Proof.
  intros Hg Hph Hcur Hseat Hsome Hstages. rewrite (disconnectRoom_seated _ _ Hseat).
  rewrite bool_decide_eq_false_2 by done. rewrite Hg.
  set (room' := mkRoom _ _ _ _ _).
  set (g' := setPlayersState (delete sid (playersState g)) g).
  assert (Hnone : playersState g' !! sid = None) by apply lookup_delete_eq.
  assert (Hst' : ∀ q ps, playersState g' !! q = Some ps → stage ps = StPlaying).
  { intros q ps Hq. unfold g' in Hq. cbn [playersState setPlayersState] in Hq.
    apply lookup_delete_Some in Hq as [_ Hq]. by apply (Hstages q). }
  exists room', g'. split; [done|]. split; [done|]. split; [done|]. split; [done|].
  split; [done|]. split.
  - intros sid' msg. by apply (no_state_refuses room' g' sid).
  - intros msgs. by apply (no_state_run room' g' sid).
Qed.
End Rooms.

(** ** The rooms of the server *)

Section Server.
Implicit Types (rooms : gmap string Room) (room : Room) (g : GameState)
  (sid roomCode safeName c : string) (codes : list string) (msg : Message)
  (ev : Event) (evs : list (string * Event)) (shuffled : list Card).

Lemma roomCreate_wf c sid safeName : sid ≠ "" → roomWf c (roomCreate c sid safeName).
Proof.
  intros Hsid. constructor; cbn; try done.
  - apply NoDup_singleton.
  - by constructor.
  - exists sid. split; [done|]. by left.
Qed.

Lemma roomJoin_wf c room sid safeName :
  sid ≠ "" → roomWf c room → roomWf c (roomJoin room sid safeName).
Proof.
  intros Hsid [Hcode Hseated Hids Hnamed (h & Hh & Hhin) Hlobby Hstates].
  unfold roomJoin. case_bool_decide as Hin; [by constructor; eauto|].
  constructor; cbn [code players phase game hostSocketId]; try done.
  - by destruct (players room).
  - rewrite fmap_app. apply NoDup_app. split; [done|].
    split; [|apply NoDup_singleton]. intros x Hx Hx'.
    apply list_elem_of_singleton in Hx'. simpl in Hx'. by subst.
  - rewrite fmap_app. apply Forall_app. split; [done|]. by constructor.
  - exists h. split; [done|]. rewrite fmap_app. apply elem_of_app. by left.
  - intros g q Hg Hq. rewrite fmap_app. apply elem_of_app. left. by eapply Hstates.
Qed.

Lemma gameStart_wf c room sid shuffled :
  roomWf c room → roomWf c (gameStart room sid shuffled).2.
Proof.
  intros Hwf. pose proof Hwf as [Hcode Hseated Hids Hnamed Hhost Hlobby Hstates].
  unfold gameStart. repeat (case_bool_decide; [done|]).
  destruct (deal_spec (players room) shuffled ∅ Hids) as (_ & _ & Hother).
  destruct (deal (players room) shuffled ∅) as [d m]. simpl in Hother.
  constructor; cbn [snd code players phase game hostSocketId setGame setPhase]; try done.
  intros g q [= <-] [st Hst]. cbn [playersState] in Hst.
  destruct (decide (q ∈ p_id <$> players room)) as [|Hq]; [done|].
  rewrite (Hother q Hq) in Hst. done.
Qed.

Lemma handle_wf c room sid msg : roomWf c room → roomWf c (handle room sid msg).2.
Proof.
  intros Hwf. pose proof Hwf as [Hcode Hseated Hids Hnamed Hhost Hlobby Hstates].
  destruct (game room) as [g|] eqn:Hg; [|by rewrite handle_no_game].
  destruct (handle_seats room sid msg) as (Hpl & Hc & Hh).
  destruct (handle_later room sid msg g Hg) as (g' & Hg' & (_ & _ & _ & Hdom & _) & _).
  assert (Hph : phase room ≠ PhLobby) by (intros Hph; apply Hlobby in Hph; congruence).
  destruct (handle_started room sid msg Hph) as [Hph' _]; [by eexists|].
  constructor; rewrite ?Hpl, ?Hc, ?Hh; try done.
  - rewrite Hg'. by split.
  - intros g0 q. rewrite Hg'. intros [= <-] Hq. apply (Hstates g q eq_refl). by apply Hdom.
Qed.

Lemma disconnectRoom_wf c room sid (room' : Room) :
  roomWf c room → disconnectRoom sid room = Some room' → roomWf c room'.
Proof.
  intros Hwf. pose proof Hwf as [Hcode Hseated Hids Hnamed (h & Hh & Hhin) Hlobby Hstates].
  destruct (decide (sid ∈ p_id <$> players room)) as [Hseat|Hseat].
  2:{ rewrite disconnectRoom_away by done. by intros [= <-]. }
  rewrite (disconnectRoom_seated _ _ Hseat).
  case_bool_decide as Hrest; [done|]. intros [= <-].
  set (rest := filter (λ p, p_id p ≠ sid) (players room)) in *.
  assert (Hsub : ∀ q, q ∈ p_id <$> rest ↔ q ∈ p_id <$> players room ∧ q ≠ sid).
  { intros q. unfold rest. rewrite !list_elem_of_fmap. split.
    - intros (p & -> & Hp). apply list_elem_of_filter in Hp as [Hne Hp].
      split; [by exists p|done].
    - intros [(p & -> & Hp) Hne]. exists p. split; [done|].
      by apply list_elem_of_filter. }
  constructor; cbn [code players phase game hostSocketId]; try done.
  - apply (NoDup_fmap_2_strong p_id).
    + intros p p' Hp Hp' Heq.
      apply list_elem_of_filter in Hp as [_ Hp], Hp' as [_ Hp'].
      apply list_elem_of_lookup in Hp as [i Hi], Hp' as [j Hj].
      assert (i = j) as ->; [|congruence].
      apply (NoDup_lookup (p_id <$> players room) i j (p_id p) Hids); rewrite list_lookup_fmap.
      * by rewrite Hi.
      * by rewrite Hj, Heq.
    + apply NoDup_filter. apply (NoDup_fmap_1 p_id). done.
  - apply Forall_forall. intros q Hq. apply Hsub in Hq as [Hq _].
    by apply (proj1 (Forall_forall _ _) Hnamed).
  - case_bool_decide as Hhost.
    + destruct rest as [|p rest'] eqn:Hr; [done|]. simpl.
      assert (Hp : p_id p ∈ p_id <$> players room).
      { apply (Hsub (p_id p)). rewrite fmap_cons. by left. }
      rewrite bool_decide_eq_false_2
        by (by apply (proj1 (Forall_forall _ _) Hnamed)).
      exists (p_id p). split; [done|]. by left.
    + exists h. split; [done|]. apply Hsub. split; [done|]. congruence.
  - rewrite Hlobby. by destruct (game room).
  - intros g' q Hg' Hq. destruct (game room) as [g|] eqn:Hg; [|done].
    injection Hg' as <-. cbn [playersState setPlayersState] in Hq.
    destruct Hq as [st Hst]. apply lookup_delete_Some in Hst as [Hne Hst].
    apply Hsub. split; [|done]. apply (Hstates g q eq_refl). by eexists.
Qed.

Lemma serverStep_wf rooms sid ev :
  sid ≠ "" →
  (∀ c room, rooms !! c = Some room → roomWf c room) →
  ∀ c room, serverStep rooms sid ev !! c = Some room → roomWf c room.
Proof.
  intros Hsid Hinv c room. destruct ev as [name codes|rc name|rc sh|rc msg|]; simpl.
  - unfold roomCreateHandler. case_bool_decide; [apply Hinv|].
    destruct (pickCode rooms codes) as [c0|]; [|apply Hinv].
    destruct (decide (c = c0)) as [->|Hne].
    + rewrite lookup_insert_eq. intros [= <-]. by apply roomCreate_wf.
    + rewrite lookup_insert_ne by done. apply Hinv.
  - unfold roomJoinHandler. destruct (rooms !! rc) as [room0|] eqn:Hrc; [|apply Hinv].
    case_bool_decide; [apply Hinv|]. cbn [snd].
    destruct (decide (c = rc)) as [->|Hne].
    + rewrite lookup_insert_eq. intros [= <-]. apply roomJoin_wf; [done|by apply Hinv].
    + rewrite lookup_insert_ne by done. apply Hinv.
  - unfold gameStartHandler. destruct (rooms !! rc) as [room0|] eqn:Hrc; [|apply Hinv].
    pose proof (gameStart_wf rc room0 sid sh (Hinv _ _ Hrc)) as Hwf.
    destruct (gameStart room0 sid sh) as [rep room1]. cbn [snd] in *.
    destruct (decide (c = rc)) as [->|Hne].
    + rewrite lookup_insert_eq. by intros [= <-].
    + rewrite lookup_insert_ne by done. apply Hinv.
  - unfold messageHandler. destruct (rooms !! rc) as [room0|] eqn:Hrc; [|apply Hinv].
    pose proof (handle_wf rc room0 sid msg (Hinv _ _ Hrc)) as Hwf.
    destruct (handle room0 sid msg) as [rep room1]. cbn [snd] in *.
    destruct (decide (c = rc)) as [->|Hne].
    + rewrite lookup_insert_eq. by intros [= <-].
    + rewrite lookup_insert_ne by done. apply Hinv.
  - unfold disconnect. rewrite lookup_omap.
    destruct (rooms !! c) as [room0|] eqn:Hc; [|done]. cbn [mbind option_bind].
    intros Hd. apply (disconnectRoom_wf c room0 sid room); [by apply Hinv|done].
Qed.

(** X27. Whatever the sockets do, in whatever order, the rooms of the
    server stay well formed: each is filed under its own code, has somebody
    seated and no socket seated twice, its host is one of the seated
    players, it is in the lobby exactly as long as it has no game, and only
    seated sockets have a player state. Socket ids are not empty. *)
Theorem server_rooms_stay_well_formed evs c room :
  Forall (λ e, e.1 ≠ "") evs →
  serverRun ∅ evs !! c = Some room →
  code room = c
  ∧ players room ≠ []
  ∧ NoDup (p_id <$> players room)
  ∧ (∃ h, hostSocketId room = Some h ∧ h ∈ p_id <$> players room)
  ∧ (phase room = PhLobby ↔ game room = None)
  ∧ ∀ g q, game room = Some g → is_Some (playersState g !! q) →
           q ∈ p_id <$> players room.
Proof.
  intros Hevs Hroom.
  assert (Hwf : roomWf c room).
  { assert (Hgen : ∀ rooms, (∀ c room, rooms !! c = Some room → roomWf c room) →
              serverRun rooms evs !! c = Some room → roomWf c room).
    { clear Hroom. induction Hevs as [|[sid ev] evs Hsid _ IH]; intros rooms Hinv; simpl.
      - apply Hinv.
      - apply IH. by apply serverStep_wf. }
    apply (Hgen ∅); [|done]. intros c0 room1 Hc0. by rewrite lookup_empty in Hc0. }
  by destruct Hwf.
Qed.

Lemma gameStart_failure room sid shuffled :
  isFailure (gameStart room sid shuffled).1 = true → (gameStart room sid shuffled).2 = room.
Proof.
  unfold gameStart. repeat (case_bool_decide; [done|]). by destruct (deal _ _ _).
Qed.

(** X28. A request that is refused changes no room of the server, and no
    request changes a room other than the one it names: this holds of
    [room:join], [game:start], [setup:setFaceUp], [play:cards] and
    [play:pickup]. For a code that no room has, [room:join] and [game:start]
    answer "Room not found" and the three others "Game not started". *)
Theorem refused_requests_change_no_room rooms sid roomCode :
  (∀ safeName err,
     (roomJoinHandler rooms sid roomCode safeName).1 = RoomFailure err →
     (roomJoinHandler rooms sid roomCode safeName).2 = rooms)
  ∧ (∀ shuffled,
       isFailure (gameStartHandler rooms sid roomCode shuffled).1 = true →
       (gameStartHandler rooms sid roomCode shuffled).2 = rooms)
  ∧ (∀ msg,
       isFailure (messageHandler rooms sid roomCode msg).1 = true →
       (messageHandler rooms sid roomCode msg).2 = rooms)
  ∧ (∀ c, c ≠ roomCode →
       (∀ safeName, (roomJoinHandler rooms sid roomCode safeName).2 !! c = rooms !! c)
       ∧ (∀ shuffled, (gameStartHandler rooms sid roomCode shuffled).2 !! c = rooms !! c)
       ∧ (∀ msg, (messageHandler rooms sid roomCode msg).2 !! c = rooms !! c))
  ∧ (rooms !! roomCode = None →
       (∀ safeName, (roomJoinHandler rooms sid roomCode safeName).1
                    = RoomFailure "Room not found")
       ∧ (∀ shuffled, (gameStartHandler rooms sid roomCode shuffled).1
                      = Failure "Room not found")
       ∧ (∀ msg, (messageHandler rooms sid roomCode msg).1
                 = Failure "Game not started")).
Proof.
  unfold roomJoinHandler, gameStartHandler, messageHandler.
  destruct (rooms !! roomCode) as [room|] eqn:Hroom.
  2:{ repeat split; done. }
  split; [|split; [|split; [|split; [|done]]]].
  - intros safeName err. by case_bool_decide.
  - intros shuffled. pose proof (gameStart_failure room sid shuffled) as Hf.
    destruct (gameStart room sid shuffled) as [rep room']. cbn [fst snd] in *.
    intros Hrep. rewrite (Hf Hrep). by apply insert_id.
  - intros msg. pose proof (handle_failure room sid msg) as Hf.
    destruct (handle room sid msg) as [rep room']. cbn [fst snd] in *.
    intros Hrep. rewrite (Hf Hrep). by apply insert_id.
  - intros c Hc. split; [|split].
    + intros safeName. case_bool_decide; [done|]. cbn [snd]. by rewrite lookup_insert_ne.
    + intros shuffled. destruct (gameStart room sid shuffled) as [rep room']. cbn [snd].
      by rewrite lookup_insert_ne.
    + intros msg. destruct (handle room sid msg) as [rep room']. cbn [snd].
      by rewrite lookup_insert_ne.
Qed.

(** X29. What is broadcast tells nothing of the hidden cards but their
    number: with the hand and the face-down cards of a player replaced by as
    many other cards, the deck by as many other cards and the burned cards
    by any others, [publicRoomState] and [gamePublicState] are the same, and
    so is what every other socket is sent in private. *)
Theorem broadcast_hides_hands_and_deck room g q (ps : PlayerState)
    (h fd d b : list Card) :
  game room = Some g → playersState g !! q = Some ps →
  length h = length (hand ps) → length fd = length (faceDown ps) →
  length d = length (deck g) →
  publicRoomState
    (setGame (setDeck d (setBurned b (putPlayer q (setFaceDown fd (setHand h ps)) g))) room)
  = publicRoomState room
  ∧ gamePublicState
      (setGame (setDeck d (setBurned b (putPlayer q (setFaceDown fd (setHand h ps)) g))) room)
    = gamePublicState room
  ∧ ∀ q', q' ≠ q →
      privateViews
        (setGame (setDeck d (setBurned b (putPlayer q (setFaceDown fd (setHand h ps)) g)))
           room) !! q'
      = privateViews room !! q'.
Proof.
  intros Hg Hps Hh Hfd Hd.
  set (g' := setDeck d (setBurned b (putPlayer q (setFaceDown fd (setHand h ps)) g))).
  assert (Hpub : gamePublicState (setGame g' room) = gamePublicState room).
  { unfold gamePublicState. cbn [game setGame phase players]. rewrite Hg.
    f_equal. unfold g'. cbn [currentPlayerId deck pile winnerId loserId finished
                             setDeck setBurned putPlayer setPlayersState].
    rewrite Hd. f_equal. apply list_fmap_ext. intros i p _. unfold playerPublic.
    cbn [playersState setDeck setBurned putPlayer setPlayersState]. destruct (decide (p_id p = q)) as [->|Hne].
    - rewrite lookup_insert_eq, Hps. cbn. by rewrite Hh, Hfd.
    - by rewrite lookup_insert_ne. }
  split; [done|]. split; [done|].
  intros q' Hq'. unfold privateViews. cbn [game setGame]. rewrite Hg, Hpub.
  rewrite !lookup_fmap. unfold g'. cbn [playersState setDeck setBurned putPlayer
                                         setPlayersState].
  by rewrite lookup_insert_ne.
Qed.
End Server.

(** ** A deck too small for the table *)

Section Blocked.
Implicit Types (room : Room) (g : GameState) (sid q : string) (msg : Message)
  (msgs : list (string * Message)) (ps : PlayerState) (shuffled : list Card).

(** A player in setup who has still to choose and holds no hand card keeps
    the room in setup. *)
Lemma blocked_step room g q ps sid msg :
  game room = Some g → phase room = PhSetup →
  playersState g !! q = Some ps → stage ps = StChooseFaceUp → hand ps = [] →
  ∃ g', game (handle room sid msg).2 = Some g'
        ∧ phase (handle room sid msg).2 = PhSetup
        ∧ playersState g' !! q = Some ps.
Proof.
  intros Hg Hph Hps Hst Hhand. destruct (isFailure (handle room sid msg).1) eqn:Hf.
  { rewrite handle_failure by done. by exists g. }
  destruct msg; simpl in *.
  - revert Hf. unfold setFaceUpHandler. rewrite Hg.
    destruct (playersState g !! sid) as [you|] eqn:Hyou; [|done].
    case_bool_decide as Hstage; [done|]. case_bool_decide as Hlen; [done|].
    destruct (forallb _ chosenCardIds) eqn:Hall; [|done]. cbn [negb]. intros _.
    destruct (decide (sid = q)) as [->|Hne].
    { exfalso. rewrite Hps in Hyou. injection Hyou as <-. rewrite Hhand in Hall.
      apply (forallb_bool_decide (λ i, i ∈ id <$> [])) in Hall.
      destruct chosenCardIds as [|i ids]; [done|].
      apply Forall_cons in Hall as [Hi _]. by apply elem_of_nil in Hi. }
    set (you1 := setStage StReady _).
    assert (Hready : allReady (playersState (putPlayer sid you1 g)) = false).
    { destruct (allReady _) eqn:Har; [|done]. exfalso.
      assert (Hq : playersState (putPlayer sid you1 g) !! q = Some ps).
      { cbn. by rewrite lookup_insert_ne. }
      apply (proj1 (allReady_spec _) Har) in Hq. congruence. }
    rewrite Hready. cbn [snd game phase setGame]. eexists. split; [reflexivity|].
    split; [done|]. cbn. by rewrite lookup_insert_ne.
  - exfalso. destruct (playCards_accepted _ _ _ Hf) as (g0 & st & st1 & z & played & Hacc).
    destruct Hacc as [_ Hplaying _ _ _ _ _]. congruence.
  - exfalso. destruct (playPickup_refused _ _ Hf) as (g0 & st & _ & Hplaying & _).
    congruence.
Qed.

Lemma blocked_run room g q ps msgs :
  game room = Some g → phase room = PhSetup →
  playersState g !! q = Some ps → stage ps = StChooseFaceUp → hand ps = [] →
  phase (run room msgs) = PhSetup.
Proof.
  revert room g. induction msgs as [|[sid msg] msgs IH]; intros room g Hg Hph Hps Hst Hh;
    [done|]. simpl.
  destruct (blocked_step room g q ps sid msg Hg Hph Hps Hst Hh) as (g' & Hg' & Hph' & Hps').
  by apply (IH _ g').
Qed.

(** X30. A deck that runs out before the last player has a hand card blocks
    the game: that player can never choose three face-up cards, so the room
    stays in setup whatever messages follow and no card is ever played. With
    the 52 cards of [makeDeck] this is every table of seven or more
    players. *)
Theorem short_deck_blocks_the_game room sid shuffled (room0 : Room) msgs :
  NoDup (p_id <$> players room) →
  (length shuffled + 6 ≤ 9 * length (players room))%nat →
  gameStart room sid shuffled = (Success false false, room0) →
  phase (run room0 msgs) = PhSetup
  ∧ (∀ sid' req, isFailure (playCards (run room0 msgs) sid' req).1 = true)
  ∧ (∀ sid', isFailure (playPickup (run room0 msgs) sid').1 = true)
  ∧ ∃ q ps, q ∈ p_id <$> players room
      ∧ (game room0 ≫= λ g, playersState g !! q) = Some ps
      ∧ hand ps = [] ∧ stage ps = StChooseFaceUp.
Proof.
  intros Hids Hlen. unfold gameStart.
  case_bool_decide as Hhost; [done|]. case_bool_decide as Htwo; [done|].
  case_bool_decide as Hph; [done|].
  destruct (deal_spec (players room) shuffled ∅ Hids) as (_ & Hseat & _).
  destruct (deal (players room) shuffled ∅) as [d m]. cbn [snd] in Hseat.
  intros [= <-].
  destruct (lookup_lt_is_Some_2 (players room) (length (players room) - 1)) as [p Hp];
    [lia|].
  specialize (Hseat _ _ Hp). rewrite (drop_ge shuffled (9 * _ + 3)) in Hseat by lia.
  rewrite take_nil in Hseat.
  set (room0 := setGame _ _).
  assert (Hsetup : phase (run room0 msgs) = PhSetup).
  { by eapply (blocked_run room0 _ (p_id p)). }
  split; [done|]. split; [|split].
  - intros sid' req. unfold playCards. destruct (game (run room0 msgs)); [|done].
    rewrite bool_decide_eq_true_2; [done|]. by rewrite Hsetup.
  - intros sid'. unfold playPickup. destruct (game (run room0 msgs)); [|done].
    rewrite bool_decide_eq_true_2; [done|]. by rewrite Hsetup.
  - eexists (p_id p), _. split; [by eapply list_elem_of_fmap_2, list_elem_of_lookup_2|].
    split; [exact Hseat|]. done.
Qed.
End Blocked.

(** ** The sample games, continued *)

Section Scenes.
Import Sample Scenario.

Ltac by_deciding := apply (bool_decide_unpack _); vm_compute; exact I.

Lemma shortDeck_ids : NoDup (id <$> shortDeck).
Proof. by_deciding. Qed.

Lemma shortGame_ends : phase (run (gameStart roomLobby "a" shortDeck).2 shortGame) = PhEnded.
Proof. vm_compute. reflexivity. Qed.

Lemma everyone_playing (states : list PlayerState) :
  Forall (λ st, stage st = StPlaying) states →
  ∀ q ps, playersState (gameOf [] [card RK Spades] "a" states) !! q = Some ps →
          stage ps = StPlaying.
Proof.
  intros Hall q ps. cbn [playersState gameOf]. intros Hq.
  apply elem_of_list_to_map_2 in Hq. apply list_elem_of_fmap in Hq as (st & [= -> ->] & Hst).
  by apply (proj1 (Forall_forall _ _) Hall).
Qed.

Lemma makeDeck_witness :
  ∃ d, makeDeck (λ _ _, "abcdef") (λ _, O) = Some d ∧ length d = 52%nat.
Proof.
  destruct (makeDeck_is_a_full_deck (λ _ _, "abcdef") (λ _, O)) as (d & Hd & _ & Hlen & _).
  { intros i. lia. }
  exists d. split; [exact Hd|exact Hlen].
Defined.

Lemma gameStart_deals_witness :
  ∃ g, gameStart roomLobby "a" twenty
       = (Success false false, mkRoom "ROOM" (Some "a") [ann; bob] PhSetup (Some g))
       ∧ deck g = drop 18 twenty.
Proof.
  destruct (gameStart_deals roomLobby "a" twenty eq_refl) as (g & Hstart & Hdeck & _).
  { simpl. lia. }
  { reflexivity. }
  { exact lobby_ids_distinct. }
  exists g. split; [exact Hstart|exact Hdeck].
Defined.

Lemma game_starts_once_witness :
  isFailure (gameStart (run (gameStart roomLobby "a" twenty).2 someMessages) "b" twenty).1
  = true.
Proof.
  destruct (game_starts_once roomLobby "a" twenty (gameStart roomLobby "a" twenty).2
              someMessages "b" twenty eq_refl) as (H & _).
  exact H.
Defined.

Lemma turn_witness :
  ∃ g c, game (run (gameStart roomLobby "a" shortDeck).2 shortGame) = Some g
         ∧ currentPlayerId g = Some c ∧ c ∈ p_id <$> players roomLobby.
Proof.
  destruct (turn_is_on_a_player_who_can_move roomLobby "a" shortDeck
              (gameStart roomLobby "a" shortDeck).2 shortGame
              lobby_ids_distinct shortDeck_ids eq_refl)
    as (g & c & ps & Hg & Hc & Hin & _).
  exists g, c. split; [exact Hg|]. split; [exact Hc|exact Hin].
Defined.

Lemma finished_witness :
  ∃ g, game (run (gameStart roomLobby "a" shortDeck).2 shortGame) = Some g
       ∧ NoDup (finished g).
Proof.
  destruct (finished_are_the_players_without_cards roomLobby "a" shortDeck
              (gameStart roomLobby "a" shortDeck).2 shortGame
              lobby_ids_distinct shortDeck_ids eq_refl)
    as (g & Hg & Hnd & _).
  exists g. split; [exact Hg|exact Hnd].
Defined.

Lemma pile_witness :
  ∃ g, game (run (gameStart roomLobby "a" shortDeck).2 (take 4 shortGame)) = Some g
       ∧ lastFourNon3Same (pile g) = false.
Proof.
  destruct (pile_holds_no_ten_and_no_four_of_a_kind roomLobby "a" shortDeck
              (gameStart roomLobby "a" shortDeck).2 (take 4 shortGame)
              lobby_ids_distinct shortDeck_ids eq_refl)
    as (g & Hg & _ & Hfour & _).
  exists g. split; [exact Hg|exact Hfour].
Defined.

Lemma game_end_witness :
  ∃ g w l, game (run (gameStart roomLobby "a" shortDeck).2 shortGame) = Some g
           ∧ winnerId g = Some w ∧ loserId g = Some l
           ∧ head (finished g) = Some w ∧ currentPlayerId g = Some l.
Proof.
  destruct (game_ends_with_one_player_left roomLobby "a" shortDeck
              (gameStart roomLobby "a" shortDeck).2 shortGame
              lobby_ids_distinct shortDeck_ids eq_refl)
    as (g & Hg & _ & _ & Hend).
  destruct (Hend shortGame_ends) as (w & l & ps & Hw & Hl & _ & Hhead & Hcur & _).
  exists g, w, l. split; [exact Hg|]. split; [exact Hw|]. split; [exact Hl|].
  split; [exact Hhead|exact Hcur].
Defined.

Lemma ended_witness :
  run (run (gameStart roomLobby "a" shortDeck).2 shortGame) [("b", PlayPickup)]
  = run (gameStart roomLobby "a" shortDeck).2 shortGame.
Proof.
  destruct (ended_game_takes_no_message roomLobby "a" shortDeck
              (gameStart roomLobby "a" shortDeck).2 shortGame eq_refl shortGame_ends)
    as [_ H].
  exact (H [("b", PlayPickup)]).
Defined.

Lemma phase_witness :
  phase (gameStart roomLobby "a" shortDeck).2 = PhSetup
  ∧ (phaseOrder (phase (run (gameStart roomLobby "a" shortDeck).2 (take 3 shortGame)))
     ≤ phaseOrder (phase (run (gameStart roomLobby "a" shortDeck).2
                             (take 3 shortGame ++ drop 3 shortGame))))%nat.
Proof.
  destruct (phase_only_advances roomLobby "a" shortDeck
              (gameStart roomLobby "a" shortDeck).2 (take 3 shortGame) (drop 3 shortGame)
              eq_refl)
    as (Hsetup & Hle & _).
  split; [exact Hsetup|exact Hle].
Defined.

Lemma deck_witness :
  ∃ g', game (run roomNines [("a", PlayCardsMsg playNines)]) = Some g'
        ∧ deck g' `suffix_of` deck gameNines
        ∧ burned gameNines `prefix_of` burned g'.
Proof.
  destruct (deck_only_shrinks_and_burned_only_grows roomNines
              [("a", PlayCardsMsg playNines)] gameNines eq_refl)
    as (g' & Hg' & Hd & Hb & _).
  exists g'. split; [exact Hg'|]. split; [exact Hd|exact Hb].
Defined.

Lemma bob_is_different : "b" ≠ "a".
Proof. discriminate. Qed.

Lemma sender_witness :
  ∃ g' ps', game (handle roomNines "a" (PlayCardsMsg playNines)).2 = Some g'
            ∧ playersState g' !! "b" = Some ps' ∧ hand ps' = hand bobFour.
Proof.
  destruct (only_the_senders_cards_move roomNines "a" (PlayCardsMsg playNines)
              gameNines "b" bobFour eq_refl bob_is_different eq_refl)
    as (g' & ps' & Hg' & Hps' & Hh & _).
  exists g', ps'. split; [exact Hg'|]. split; [exact Hps'|exact Hh].
Defined.

(** Ann picks up the king: it goes to the end of her hand and the turn goes
    to Bob. *)
Lemma pickup_witness :
  ∃ room' g', playPickup roomNines "a" = (Success false false, room')
              ∧ game room' = Some g' ∧ pile g' = []
              ∧ playersState g' !! "a"
                = Some (holding ann (nines ++ [card RK Spades]) [] [])
              ∧ finished g' = []
              ∧ currentPlayerId g' = Some "b".
Proof.
  destruct (pickup_takes_the_pile roomNines "a" gameNines annNines
              eq_refl eq_refl eq_refl eq_refl eq_refl)
    as (room' & g' & Hplay & Hg' & Hm & Hpile & _ & _ & _ & Hheld).
  destruct (Hheld (or_introl eq_refl)) as (Hfin & _ & _ & Hturn).
  destruct (Hturn nines_seats ann_at_the_table (nobody_finished "a"))
    as (y & Hcur & Hnext).
  exists room', g'. split; [exact Hplay|]. split; [exact Hg'|]. split; [exact Hpile|].
  split; [by rewrite Hm|]. split; [exact Hfin|].
  by rewrite Hcur, (nextActive_unique _ _ _ _ _ nines_seats Hnext bob_after_ann).
Defined.

(** At the table of three with nobody finished, two steps from Ann lead to
    Cat, and five steps too. *)
Lemma next_player_witness :
  nextPlayerId roomEightOfThree "a" 2 = Some "c"
  ∧ nextPlayerId roomEightOfThree "a" (2 + 3) = nextPlayerId roomEightOfThree "a" 2.
Proof.
  destruct (nextPlayerId_round_the_circle roomEightOfThree "a" 2 three_seats)
    as (_ & _ & Hsteps & _ & Hround).
  destruct (Hsteps ann_of_three (nobody_finished "a")) as (y & Hy & Hon).
  split; [|exact Hround].
  by rewrite Hy, (stepsOn_unique _ _ _ _ _ _ three_seats Hon cat_two_after_ann).
Defined.

(** The four 9s Ann sends are found in her hand. *)
Lemma reads_cards_witness :
  (∃ first rest f b,
     nines = first :: rest
     ∧ (playCards roomNines "a" playNines).1 = Success f b ∧ f && b = false)
  ∧ ∃ c, findById (hand annNines) "9H" = Some c ∧ c ∈ hand annNines ∧ id c = "9H".
Proof.
  destruct (accepted_play_reads_cards_that_are_there roomNines "a" playNines gameNines
              annNines (setHand [] annNines) ZHand nines nines_accepted)
    as [Hreply Hfound].
  split; [exact Hreply|]. apply (Hfound ltac:(discriminate) "9H"). by_deciding.
Defined.

Lemma nines_ids : NoDup (id <$> zoneCards ZHand annNines).
Proof. by_deciding. Qed.

Lemma same_rank_witness :
  ∃ first, head nines = Some first ∧ Forall (λ x, r x = r first) nines.
Proof.
  destruct (cards_played_together_share_a_rank roomNines "a" playNines gameNines annNines
              (setHand [] annNines) ZHand nines nines_accepted nines_ids)
    as (first & Hfirst & Hall & _).
  exists first. split; [exact Hfirst|exact Hall].
Defined.

Lemma no_three_witness :
  canPlayOnPile R4 (pileOf [R5; R3; R3]) = canPlayOnPile R4 (pileOf [R5]).
Proof.
  destruct (pile_rules_see_no_three (pileOf [R5; R3; R3]) (pileOf [R5]) R4 eq_refl)
    as (_ & H & _).
  exact H.
Defined.


Lemma zed_not_seated : "z" ∉ p_id <$> players roomNines.
Proof. by_deciding. Qed.

Lemma zed_not_finished : "z" ∉ finished gameNines.
Proof. by_deciding. Qed.

Lemma late_joiner_witness :
  activeOf (roomJoin roomNines "z" "Zed") gameNines = activeOf roomNines gameNines ++ ["z"].
Proof.
  destruct (late_joiner_is_in_the_turn_order roomNines "z" "Zed" gameNines
              eq_refl zed_not_seated zed_not_finished eq_refl)
    as (H & _).
  exact H.
Defined.

Lemma bob_seated : "b" ∈ p_id <$> players roomNines.
Proof. by_deciding. Qed.

Lemma ann_seated : "a" ∈ p_id <$> players roomNines.
Proof. by_deciding. Qed.

Lemma ann_remains : filter (λ p, p_id p ≠ "b") (players roomNines) ≠ [].
Proof. by_deciding. Qed.

Lemma bob_remains : filter (λ p, p_id p ≠ "a") (players roomNines) ≠ [].
Proof. by_deciding. Qed.

Lemma leaver_witness :
  ∃ room' g', disconnectRoom "b" roomNines = Some room' ∧ game room' = Some g'
              ∧ roomCards roomNines ≡ₚ playerCards bobFour ++ roomCards room'.
Proof.
  destruct (disconnect_takes_the_leavers_cards_away roomNines "b" gameNines bobFour
              eq_refl bob_seated eq_refl ann_remains)
    as (room' & g' & Hd & Hg' & _ & Hcards & _).
  exists room', g'. split; [exact Hd|]. split; [exact Hg'|exact Hcards].
Defined.

Lemma freeze_witness :
  ∃ room' g', disconnectRoom "a" roomNines = Some room' ∧ game room' = Some g'
              ∧ phase room' = PhPlaying ∧ currentPlayerId g' = Some "a"
              ∧ playersState g' !! "a" = None.
Proof.
  destruct (leaving_on_ones_turn_freezes_the_game roomNines "a" gameNines
              eq_refl eq_refl eq_refl ann_seated bob_remains
              (everyone_playing [annNines; bobFour] ltac:(by repeat constructor)))
    as (room' & g' & Hd & Hg' & Hph & Hcur & Hnone & _).
  exists room', g'. split; [exact Hd|]. split; [exact Hg'|]. split; [exact Hph|].
  split; [exact Hcur|exact Hnone].
Defined.

Lemma someEvents_sockets : Forall (λ e : string * Event, e.1 ≠ "") someEvents.
Proof. by repeat constructor. Qed.

Lemma someEvents_room :
  serverRun ∅ someEvents !! "ROOM"
  = Some (default roomLobby (serverRun ∅ someEvents !! "ROOM")).
Proof. vm_compute. reflexivity. Qed.

Lemma server_witness :
  code (default roomLobby (serverRun ∅ someEvents !! "ROOM")) = "ROOM"
  ∧ NoDup (p_id <$> players (default roomLobby (serverRun ∅ someEvents !! "ROOM"))).
Proof.
  destruct (server_rooms_stay_well_formed someEvents "ROOM"
              (default roomLobby (serverRun ∅ someEvents !! "ROOM"))
              someEvents_sockets someEvents_room)
    as (Hcode & _ & Hids & _).
  split; [exact Hcode|exact Hids].
Defined.

Lemma hidden_witness :
  gamePublicState
    (setGame (setDeck [] (setBurned [card R2 Clubs]
                (putPlayer "a" (setFaceDown [] (setHand (pileOf [R4; R5; R6; R7]) annNines))
                   gameNines))) roomNines)
  = gamePublicState roomNines.
Proof.
  destruct (broadcast_hides_hands_and_deck roomNines gameNines "a" annNines
              (pileOf [R4; R5; R6; R7]) [] [] [card R2 Clubs]
              eq_refl eq_refl eq_refl eq_refl eq_refl)
    as (_ & H & _).
  exact H.
Defined.

Lemma twelve_is_short : (length twelve + 6 ≤ 9 * length (players roomLobby))%nat.
Proof. vm_compute. lia. Qed.

Lemma short_deck_witness :
  phase (run (gameStart roomLobby "a" twelve).2 someMessages) = PhSetup.
Proof.
  destruct (short_deck_blocks_the_game roomLobby "a" twelve (gameStart roomLobby "a" twelve).2
              someMessages lobby_ids_distinct twelve_is_short eq_refl)
    as (H & _).
  exact H.
Defined.
End Scenes.
